(** * Aerodrome pool tracker: event indexer and analytics reader

    A shallow embedding of [pool_events_indexer.py] (block-range scanner,
    event decoding, SQLite persistence, checkpoint) and of
    [pool_events_reader.py] (decimals cache, recent activity, liquidity
    replay, hourly swap volume), with the properties of the specification
    stated and proved over it.

    Conventions of the embedding.
    - Python [int] is [Z]; block numbers and UNIX timestamps are [Z].
    - A [TEXT] column that holds [str(n)] of an integer amount and is read
      back with [int(...)] is modelled by the integer itself
      ([int(str(n)) = n]); it is rendered with [py_str] where the reader
      prints it.
    - A table is the list of its rows in insertion order (the
      [AUTOINCREMENT] id is the position in the list).
    - A [sqlite3] connection is a pair of the committed database and the
      working copy seen inside the open transaction.
    - The indexer creates the tables before anything else, so its
      statements are embedded over a [DB], where every table exists. The
      reader creates none: its entry points are embedded in [OnFile] over
      a [File], in which a table may be missing and a [SELECT] on it
      raises; the definitions over a [DB] are what they compute once the
      tables are there.
    - Every RPC round trip advances a logical clock; the node's answer to a
      request may depend on it, and [None] stands for a raised exception.
    - A [datetime] is its number of seconds since the epoch.
    - Swap volumes are Python floats; the embedding is generic in the float
      type, in the division of two integers and in the sum of a column. *)

From Stdlib Require Import ZArith QArith List Bool Lia Sorted Permutation Ascii String.
From stdpp Require Import base gmap strings pretty.
Import ListNotations.

Local Open Scope string_scope.
Local Open Scope list_scope.
Local Open Scope Z_scope.

(** ** Exceptions and state: a small monad *)

Inductive Result (A : Type) : Type :=
| Ok (a : A)
| Raised.
Arguments Ok {A} a.
Arguments Raised {A}.

Definition M (S A : Type) : Type := S -> Result A * S.

Definition ret {S A} (a : A) : M S A := fun s => (Ok a, s).

Definition bind {S A B} (m : M S A) (k : A -> M S B) : M S B :=
  fun s =>
    match m s with
    | (Ok a, s') => k a s'
    | (Raised, s') => (Raised, s')
    end.

Definition raise {S A} : M S A := fun s => (Raised, s).

Declare Scope py_scope.
Delimit Scope py_scope with py.
Notation "x <- m ;; k" := (bind m (fun x => k))
  (at level 100, m at next level, right associativity) : py_scope.
Notation "m ;;; k" := (bind m (fun _ => k))
  (at level 100, right associativity) : py_scope.

(** [for x in l: body(x)] *)
Fixpoint for_each {S A} (l : list A) (body : A -> M S unit) : M S unit :=
  match l with
  | [] => ret tt
  | x :: l' => bind (body x) (fun _ => for_each l' body)
  end.

(** [try: m  except Exception: h] *)
Definition try_catch {S A} (m : M S A) (h : M S A) : M S A :=
  fun s =>
    match m s with
    | (Ok a, s') => (Ok a, s')
    | (Raised, s') => h s'
    end.

(** [try: m  except Exception as e: print(...)] *)
Definition try_except {S} (m : M S unit) : M S unit := try_catch m (ret tt).

(** [range(start, stop, step)] for a positive step: CPython computes the
    length [(stop - start + step - 1) // step], clipped at zero. *)
Definition range (start stop step : Z) : list Z :=
  map (fun i => start + Z.of_nat i * step)
      (seq 0 (Z.to_nat ((stop - start + step - 1) / step))).

(** [str.lower()] on ASCII text (pool addresses are hexadecimal). *)
Definition lower_ascii (c : ascii) : ascii :=
  let n := nat_of_ascii c in
  if ((65 <=? n)%nat && (n <=? 90)%nat)%bool then ascii_of_nat (n + 32) else c.

Fixpoint lower (s : string) : string :=
  match s with
  | EmptyString => EmptyString
  | String c s' => String (lower_ascii c) (lower s')
  end.

(** [str(n)] for an integer. *)
Definition py_str (n : Z) : string := pretty n.

(** ** The event store *)

Inductive EventType := ADD | REMOVE.

Definition EventType_eqb (a b : EventType) : bool :=
  match a, b with
  | ADD, ADD | REMOVE, REMOVE => true
  | _, _ => false
  end.

Module LiquidityEvent.
Record t := {
  pool_address : string;
  event_type : EventType;
  token0_amount : Z;
  token1_amount : Z;
  provider_address : string;
  tx_hash : string;
  block_number : Z;
  block_time : Z
}.
End LiquidityEvent.

Module SwapEvent.
Record t := {
  pool_address : string;
  sender : string;
  recipient : string;
  amount0_in : Z;
  amount1_in : Z;
  amount0_out : Z;
  amount1_out : Z;
  tx_hash : string;
  block_number : Z;
  block_time : Z
}.
End SwapEvent.

Module FeeClaim.
Record t := {
  pool_address : string;
  sender : string;
  recipient : string;
  token0_fee : Z;
  token1_fee : Z;
  tx_hash : string;
  block_number : Z;
  block_time : Z
}.
End FeeClaim.

(** The four tables of [init_db]; [indexer_state] holds at most the row
    with [id = 1]. *)
Record DB := {
  pool_liquidity_events : list LiquidityEvent.t;
  pool_swaps : list SwapEvent.t;
  pool_fee_claims : list FeeClaim.t;
  indexer_state : option Z
}.

(** The four tables as [init_db] creates them, without a row. *)
Definition empty_db : DB :=
  {| pool_liquidity_events := []; pool_swaps := []; pool_fee_claims := [];
     indexer_state := None |}.

Definition insert_liquidity (r : LiquidityEvent.t) (d : DB) : DB :=
  {| pool_liquidity_events := pool_liquidity_events d ++ [r];
     pool_swaps := pool_swaps d;
     pool_fee_claims := pool_fee_claims d;
     indexer_state := indexer_state d |}.

Definition insert_swap (r : SwapEvent.t) (d : DB) : DB :=
  {| pool_liquidity_events := pool_liquidity_events d;
     pool_swaps := pool_swaps d ++ [r];
     pool_fee_claims := pool_fee_claims d;
     indexer_state := indexer_state d |}.

Definition insert_claim (r : FeeClaim.t) (d : DB) : DB :=
  {| pool_liquidity_events := pool_liquidity_events d;
     pool_swaps := pool_swaps d;
     pool_fee_claims := pool_fee_claims d ++ [r];
     indexer_state := indexer_state d |}.

(** [INSERT OR REPLACE INTO indexer_state (id, last_block) VALUES (1, ?)] *)
Definition replace_state (last_block : Z) (d : DB) : DB :=
  {| pool_liquidity_events := pool_liquidity_events d;
     pool_swaps := pool_swaps d;
     pool_fee_claims := pool_fee_claims d;
     indexer_state := Some last_block |}.

Record Connection := {
  committed : DB;
  working : DB
}.

Definition connect (d : DB) : Connection := {| committed := d; working := d |}.

(** ** The chain, as seen through web3 *)

Module MintBurnLog.
Record t := {
  blockNumber : Z;
  transactionHash : string;
  sender : string;
  amount0 : Z;
  amount1 : Z;
  to : string;
  liquidity : Z
}.
End MintBurnLog.

Module SwapLog.
Record t := {
  blockNumber : Z;
  transactionHash : string;
  sender : string;
  recipient : string;
  amount0In : Z;
  amount1In : Z;
  amount0Out : Z;
  amount1Out : Z
}.
End SwapLog.

Module ClaimLog.
Record t := {
  blockNumber : Z;
  transactionHash : string;
  sender : string;
  recipient : string;
  amount0 : Z;
  amount1 : Z
}.
End ClaimLog.

(** The first argument of every remote call is the logical clock at which
    the request is issued. [get_logs] calls are keyed by the checksummed
    contract address. *)
Record Web3 := {
  eth_block_number : nat -> option Z;
  eth_get_block_timestamp : nat -> Z -> option Z;
  Mint_get_logs : nat -> string -> Z -> Z -> option (list MintBurnLog.t);
  Burn_get_logs : nat -> string -> Z -> Z -> option (list MintBurnLog.t);
  Swap_get_logs : nat -> string -> Z -> Z -> option (list SwapLog.t);
  Claim_get_logs : nat -> string -> Z -> Z -> option (list ClaimLog.t);
  erc20_decimals : nat -> string -> option Z;
  to_checksum_address : string -> option string
}.

(** ** The indexer process *)

Definition DEFAULT_POOLS : list string :=
  [ "0x9Da64ed1b87b3d0d3d1E731dd3aAAAc08eb0f5C3";
    "0x80c394f8867e06704d39a5910666a3e71ca7f325";
    "0xdb6556a14976894a01085c2abf3c85c86d1c15c8" ].

Record Indexer := {
  conn : Connection;
  rpc_clock : nat
}.

Definition rpc {A} (call : nat -> option A) : M Indexer A :=
  fun s =>
    (match call (rpc_clock s) with Some a => Ok a | None => Raised end,
     {| conn := conn s; rpc_clock := S (rpc_clock s) |}).

Definition checked {S A} (o : option A) : M S A :=
  match o with Some a => ret a | None => raise end.

(** [cur.execute] of a statement that writes: it changes the working copy. *)
Definition execute (f : DB -> DB) : M Indexer unit :=
  fun s =>
    (Ok tt,
     {| conn := {| committed := committed (conn s); working := f (working (conn s)) |};
        rpc_clock := rpc_clock s |}).

(** [cur.execute] of a [SELECT], on the same connection. *)
Definition select {A} (q : DB -> A) : M Indexer A :=
  fun s => (Ok (q (working (conn s))), s).

Definition commit : M Indexer unit :=
  fun s =>
    (Ok tt,
     {| conn := {| committed := working (conn s); working := working (conn s) |};
        rpc_clock := rpc_clock s |}).

(** [conn.close()]: what was not committed is lost. *)
Definition close : M Indexer unit :=
  fun s =>
    (Ok tt,
     {| conn := {| committed := committed (conn s); working := committed (conn s) |};
        rpc_clock := rpc_clock s |}).

Section Indexer.

Variable w3 : Web3.

Local Open Scope py_scope.

Definition get_start_block (default_lookback_blocks : Z) : M Indexer Z :=
  row <- select indexer_state ;;
  current_block <- rpc (eth_block_number w3) ;;
  match row with
  | None =>
      let start_block := Z.max 0 (current_block - default_lookback_blocks) in
      execute (replace_state start_block) ;;;
      commit ;;;
      ret start_block
  | Some last_block => ret last_block
  end.

Definition update_last_block (last_block : Z) : M Indexer unit :=
  execute (replace_state last_block) ;;;
  commit.

Definition get_block_timestamp (block_number : Z) : M Indexer Z :=
  rpc (fun t => eth_get_block_timestamp w3 t block_number).

Definition mint_row (pool_address : string) (ev : MintBurnLog.t) (ts : Z)
  : LiquidityEvent.t :=
  {| LiquidityEvent.pool_address := lower pool_address;
     LiquidityEvent.event_type := ADD;
     LiquidityEvent.token0_amount := MintBurnLog.amount0 ev;
     LiquidityEvent.token1_amount := MintBurnLog.amount1 ev;
     LiquidityEvent.provider_address := MintBurnLog.sender ev;
     LiquidityEvent.tx_hash := MintBurnLog.transactionHash ev;
     LiquidityEvent.block_number := MintBurnLog.blockNumber ev;
     LiquidityEvent.block_time := ts |}.

Definition burn_row (pool_address : string) (ev : MintBurnLog.t) (ts : Z)
  : LiquidityEvent.t :=
  {| LiquidityEvent.pool_address := lower pool_address;
     LiquidityEvent.event_type := REMOVE;
     LiquidityEvent.token0_amount := MintBurnLog.amount0 ev;
     LiquidityEvent.token1_amount := MintBurnLog.amount1 ev;
     LiquidityEvent.provider_address := MintBurnLog.sender ev;
     LiquidityEvent.tx_hash := MintBurnLog.transactionHash ev;
     LiquidityEvent.block_number := MintBurnLog.blockNumber ev;
     LiquidityEvent.block_time := ts |}.

Definition swap_row (pool_address : string) (ev : SwapLog.t) (ts : Z)
  : SwapEvent.t :=
  {| SwapEvent.pool_address := lower pool_address;
     SwapEvent.sender := SwapLog.sender ev;
     SwapEvent.recipient := SwapLog.recipient ev;
     SwapEvent.amount0_in := SwapLog.amount0In ev;
     SwapEvent.amount1_in := SwapLog.amount1In ev;
     SwapEvent.amount0_out := SwapLog.amount0Out ev;
     SwapEvent.amount1_out := SwapLog.amount1Out ev;
     SwapEvent.tx_hash := SwapLog.transactionHash ev;
     SwapEvent.block_number := SwapLog.blockNumber ev;
     SwapEvent.block_time := ts |}.

Definition claim_row (pool_address : string) (ev : ClaimLog.t) (ts : Z)
  : FeeClaim.t :=
  {| FeeClaim.pool_address := lower pool_address;
     FeeClaim.sender := ClaimLog.sender ev;
     FeeClaim.recipient := ClaimLog.recipient ev;
     FeeClaim.token0_fee := ClaimLog.amount0 ev;
     FeeClaim.token1_fee := ClaimLog.amount1 ev;
     FeeClaim.tx_hash := ClaimLog.transactionHash ev;
     FeeClaim.block_number := ClaimLog.blockNumber ev;
     FeeClaim.block_time := ts |}.

Definition index_pool_events (pool_address : string) (from_block to_block : Z)
  : M Indexer unit :=
  pool <- checked (to_checksum_address w3 pool_address) ;;
  (* Mint -> ADD liquidity *)
  mint_events <- rpc (fun t => Mint_get_logs w3 t pool from_block to_block) ;;
  for_each mint_events (fun ev =>
    ts <- get_block_timestamp (MintBurnLog.blockNumber ev) ;;
    execute (insert_liquidity (mint_row pool_address ev ts))) ;;;
  (* Burn -> REMOVE liquidity *)
  burn_events <- rpc (fun t => Burn_get_logs w3 t pool from_block to_block) ;;
  for_each burn_events (fun ev =>
    ts <- get_block_timestamp (MintBurnLog.blockNumber ev) ;;
    execute (insert_liquidity (burn_row pool_address ev ts))) ;;;
  (* Swap -> volume/trades *)
  swap_events <- rpc (fun t => Swap_get_logs w3 t pool from_block to_block) ;;
  for_each swap_events (fun ev =>
    ts <- get_block_timestamp (SwapLog.blockNumber ev) ;;
    execute (insert_swap (swap_row pool_address ev ts))) ;;;
  (* Claim -> fee claims *)
  claim_events <- rpc (fun t => Claim_get_logs w3 t pool from_block to_block) ;;
  for_each claim_events (fun ev =>
    ts <- get_block_timestamp (ClaimLog.blockNumber ev) ;;
    execute (insert_claim (claim_row pool_address ev ts))) ;;;
  commit.

Definition step : Z := 5000.

(** The body of the window loop of [main]. *)
Definition index_window (pools : list string) (current_block start : Z)
  : M Indexer unit :=
  let end_ := Z.min (start + step - 1) current_block in
  for_each pools (fun pool =>
    try_except (index_pool_events pool start end_)) ;;;
  update_last_block end_.

(** [sqlite3.connect] and [init_db] come first: [init_db] creates the
    four tables when they are missing and commits; in the embedding a
    missing table is an empty one, so the connection [main] starts from
    is [connect d] for the stored database [d] (see [run]). *)
Definition main (pools : option (list string)) : M Indexer unit :=
  let pools := match pools with
               | None => DEFAULT_POOLS
               | Some pools => pools
               end in
  current_block <- rpc (eth_block_number w3) ;;
  from_block <- get_start_block 200000 ;;
  if from_block >=? current_block then
    close
  else
    for_each (range from_block (current_block + 1) step)
             (index_window pools current_block) ;;;
    close.

(** One execution of the script on the stored database [d], starting at
    clock [t]: the database left on disk is what was committed, whether
    [main] returned or raised. *)
Definition run (pools : list string) (d : DB) (t : nat) : Result unit * DB * nat :=
  let '(r, s) := main (Some pools) {| conn := connect d; rpc_clock := t |} in
  (r, committed (conn s), rpc_clock s).

End Indexer.

(** ** The reader process *)

(** [datetime.utcnow()] in whole seconds since the epoch, and the offset of
    the host's local zone: [since_ts] is computed with [.timestamp()] on a
    naive datetime, which reads it as local time. *)
Record Clock := {
  utcnow : Z;
  local_offset : Z
}.

Definition since_ts (clock : Clock) (lookback_seconds : Z) : Z :=
  utcnow clock - lookback_seconds - local_offset clock.

(** [ORDER BY key ASC]: rows with equal keys keep their insertion order. *)
Fixpoint insert_by {A} (key : A -> Z) (x : A) (l : list A) : list A :=
  match l with
  | [] => [x]
  | y :: l' => if key x <=? key y then x :: l else y :: insert_by key x l'
  end.

Definition order_by {A} (key : A -> Z) (l : list A) : list A :=
  fold_right (insert_by key) [] l.

(** [ORDER BY key DESC] *)
Definition order_by_desc {A} (key : A -> Z) (l : list A) : list A :=
  order_by (fun x => - key x) l.

(** [cur.fetchone()] *)
Definition fetchone {A} (rows : list A) : option A := head rows.

(** The process-wide cache and the trace of [decimals()] calls issued so
    far (most recent first); its length is the reader's RPC clock. *)
Record Reader := {
  _decimals_cache : gmap string Z;
  decimals_calls : list string
}.

Definition fresh_reader : Reader :=
  {| _decimals_cache := ∅; decimals_calls := [] |}.

Definition cache_lookup (addr : string) : M Reader (option Z) :=
  fun s => (Ok (_decimals_cache s !! addr), s).

Definition cache_store (addr : string) (d : Z) : M Reader unit :=
  fun s =>
    (Ok tt,
     {| _decimals_cache := <[addr := d]> (_decimals_cache s);
        decimals_calls := decimals_calls s |}).

Section Reader.

Variable w3 : Web3.

Local Open Scope py_scope.

(** [contract.functions.decimals().call()] *)
Definition call_decimals (addr : string) : M Reader Z :=
  fun s =>
    (match erc20_decimals w3 (length (decimals_calls s)) addr with
     | Some d => Ok d
     | None => Raised
     end,
     {| _decimals_cache := _decimals_cache s;
        decimals_calls := addr :: decimals_calls s |}).

Definition get_token_decimals (token_address : string) : M Reader Z :=
  addr <- checked (to_checksum_address w3 token_address) ;;
  cached <- cache_lookup addr ;;
  match cached with
  | Some d => ret d
  | None =>
      try_catch
        (decimals <- call_decimals addr ;;
         cache_store addr decimals ;;;
         ret decimals)
        (cache_store addr 18 ;;;
         ret 18)
  end.

(** *** Recent activity *)

Record RecentActivity := {
  ra_pool_address : string;
  latest_add : option string;
  latest_remove : option string;
  latest_claim : option string
}.

(** The four columns the three [SELECT]s of [get_recent_activity] return. *)
Record ActivityRow := {
  row_token0 : Z;
  row_token1 : Z;
  row_who : string;
  row_block_time : Z
}.

Definition liquidity_activity (r : LiquidityEvent.t) : ActivityRow :=
  {| row_token0 := LiquidityEvent.token0_amount r;
     row_token1 := LiquidityEvent.token1_amount r;
     row_who := LiquidityEvent.provider_address r;
     row_block_time := LiquidityEvent.block_time r |}.

Definition claim_activity (r : FeeClaim.t) : ActivityRow :=
  {| row_token0 := FeeClaim.token0_fee r;
     row_token1 := FeeClaim.token1_fee r;
     row_who := FeeClaim.sender r;
     row_block_time := FeeClaim.block_time r |}.

Definition fmt (clock : Clock) (row : option ActivityRow) (label : string)
  : option string :=
  match row with
  | None => None
  | Some row =>
      let hours_ago := (utcnow clock - row_block_time row) / 3600 in
      Some (String.append label
           (String.append ": token0 "
           (String.append (py_str (row_token0 row))
           (String.append " / token1 "
           (String.append (py_str (row_token1 row))
           (String.append " by "
           (String.append (row_who row)
           (String.append " ("
           (String.append (py_str hours_ago) "h ago)")))))))))
  end.

Definition latest_liquidity (d : DB) (pool_lower : string) (ty : EventType)
           (since : Z) : option ActivityRow :=
  fetchone
    (map liquidity_activity
      (order_by_desc LiquidityEvent.block_time
        (List.filter
          (fun r => String.eqb (LiquidityEvent.pool_address r) pool_lower
                    && EventType_eqb (LiquidityEvent.event_type r) ty
                    && (since <=? LiquidityEvent.block_time r))
          (pool_liquidity_events d)))).

Definition latest_fee_claim (d : DB) (pool_lower : string) (since : Z)
  : option ActivityRow :=
  fetchone
    (map claim_activity
      (order_by_desc FeeClaim.block_time
        (List.filter
          (fun r => String.eqb (FeeClaim.pool_address r) pool_lower
                    && (since <=? FeeClaim.block_time r))
          (pool_fee_claims d)))).

(** [get_recent_activity] on the rows of tables that exist; the call on a
    database file, where they may not, is [OnFile.get_recent_activity]. *)
Definition get_recent_activity (d : DB) (clock : Clock)
           (pool_address : string) (lookback_hours : Z) : RecentActivity :=
  let since := since_ts clock (lookback_hours * 3600) in
  let pool_lower := lower pool_address in
  let add_row := latest_liquidity d pool_lower ADD since in
  let remove_row := latest_liquidity d pool_lower REMOVE since in
  let claim_row := latest_fee_claim d pool_lower since in
  {| ra_pool_address := pool_address;
     latest_add := fmt clock add_row "Liquidity Added";
     latest_remove := fmt clock remove_row "Liquidity Removed";
     latest_claim := fmt clock claim_row "Fees Claimed" |}.

(** *** Liquidity over time *)

Record LiquidityPoint := {
  time : Z;
  token0_balance : Z;
  token1_balance : Z
}.

Definition liquidity_rows (d : DB) (pool_lower : string) (since : Z)
  : list LiquidityEvent.t :=
  order_by LiquidityEvent.block_time
    (List.filter
      (fun r => String.eqb (LiquidityEvent.pool_address r) pool_lower
                && (since <=? LiquidityEvent.block_time r))
      (pool_liquidity_events d)).

(** The loop of [get_liquidity_timeseries], from the balances [t0], [t1]. *)
Fixpoint replay (t0 t1 : Z) (rows : list LiquidityEvent.t) : list LiquidityPoint :=
  match rows with
  | [] => []
  | r :: rows' =>
      let amt0 := LiquidityEvent.token0_amount r in
      let amt1 := LiquidityEvent.token1_amount r in
      let t0' := match LiquidityEvent.event_type r with
                 | ADD => t0 + amt0 | REMOVE => t0 - amt0 end in
      let t1' := match LiquidityEvent.event_type r with
                 | ADD => t1 + amt1 | REMOVE => t1 - amt1 end in
      {| time := LiquidityEvent.block_time r;
         token0_balance := t0';
         token1_balance := t1' |} :: replay t0' t1' rows'
  end.

(** [get_liquidity_timeseries] on the rows of a table that exists; the call
    on a database file is [OnFile.get_liquidity_timeseries]. *)
Definition get_liquidity_timeseries (d : DB) (clock : Clock)
           (pool_address : string) (lookback_days : Z) : list LiquidityPoint :=
  let since := since_ts clock (lookback_days * 86400) in
  let pool_lower := lower pool_address in
  let rows := liquidity_rows d pool_lower since in
  match rows with
  | [] => []
  | _ => replay 0 0 rows
  end.

End Reader.

(** *** Hourly swap volume *)

(** [datetime.utcfromtimestamp(ts).replace(minute=0, second=0, microsecond=0)],
    as seconds since the epoch. *)
Definition hour_bucket (ts : Z) : Z := ts - ts mod 3600.

(** [DataFrame.groupby(key)] with the default [sort=True]: the groups come
    in ascending key order, and each group keeps its rows in frame order. *)
Fixpoint group_insert {A} (k : Z) (x : A) (gs : list (Z * list A)) : list (Z * list A) :=
  match gs with
  | [] => [(k, [x])]
  | (k', g) :: gs' =>
      if k <? k' then (k, [x]) :: gs
      else if k =? k' then (k', g ++ [x]) :: gs'
      else (k', g) :: group_insert k x gs'
  end.

Definition groupby {A} (key : A -> Z) (l : list A) : list (Z * list A) :=
  fold_left (fun gs x => group_insert (key x) x gs) l [].

Definition swap_rows (d : DB) (pool_lower : string) (since : Z) : list SwapEvent.t :=
  order_by SwapEvent.block_time
    (List.filter
      (fun r => String.eqb (SwapEvent.pool_address r) pool_lower
                && (since <=? SwapEvent.block_time r))
      (pool_swaps d)).

Section SwapVolume.

Variable w3 : Web3.

(** Volumes are Python floats. The embedding does not fix a model of
    binary64 arithmetic: [truediv a b] is the float [a / b] of two
    integers and [fsum] is the sum pandas computes for a float column. *)
Variable float : Type.
Variable truediv : Z -> Z -> float.
Variable fsum : list float -> float.

Local Open Scope py_scope.

Record VolumeRow := {
  vol_time : Z;
  token0_volume : float;
  token1_volume : float
}.

Definition volume_record (scale0 scale1 : Z) (r : SwapEvent.t) : VolumeRow :=
  {| vol_time := hour_bucket (SwapEvent.block_time r);
     token0_volume := truediv (SwapEvent.amount0_in r + SwapEvent.amount0_out r) scale0;
     token1_volume := truediv (SwapEvent.amount1_in r + SwapEvent.amount1_out r) scale1 |}.

(** [df.groupby("time", as_index=False)[[...]].sum()] *)
Definition groupby_sum (records : list VolumeRow) : list VolumeRow :=
  map (fun kg : Z * list VolumeRow =>
         {| vol_time := fst kg;
            token0_volume := fsum (map token0_volume (snd kg));
            token1_volume := fsum (map token1_volume (snd kg)) |})
      (groupby vol_time records).

(** [get_swap_volume_timeseries] on the rows of a table that exists; the
    call on a database file is [OnFile.get_swap_volume_timeseries]. *)
Definition get_swap_volume_timeseries (d : DB) (clock : Clock)
           (pool_address token0_address token1_address : string)
           (lookback_days : Z) : M Reader (list VolumeRow) :=
  let since := since_ts clock (lookback_days * 86400) in
  let pool_lower := lower pool_address in
  let rows := swap_rows d pool_lower since in
  match rows with
  | [] => ret []
  | _ =>
      dec0 <- get_token_decimals w3 token0_address ;;
      dec1 <- get_token_decimals w3 token1_address ;;
      let scale0 := 10 ^ dec0 in
      let scale1 := 10 ^ dec1 in
      let records := map (volume_record scale0 scale1) rows in
      ret (groupby_sum records)
  end.

End SwapVolume.

Arguments vol_time {float} _.
Arguments token0_volume {float} _.
Arguments token1_volume {float} _.
Arguments volume_record {float} truediv scale0 scale1 r.
Arguments groupby_sum {float} fsum records.
Arguments get_swap_volume_timeseries w3 {float} truediv fsum d clock
  pool_address token0_address token1_address lookback_days.

(** ** Vocabulary of the statements *)

Definition key_le {A} (key : A -> Z) (a b : A) : Prop := key a <= key b.

Definition sumZ (l : list Z) : Z := fold_right Z.add 0 l.

Definition signed0 (r : LiquidityEvent.t) : Z :=
  match LiquidityEvent.event_type r with
  | ADD => LiquidityEvent.token0_amount r
  | REMOVE => - LiquidityEvent.token0_amount r
  end.

Definition signed1 (r : LiquidityEvent.t) : Z :=
  match LiquidityEvent.event_type r with
  | ADD => LiquidityEvent.token1_amount r
  | REMOVE => - LiquidityEvent.token1_amount r
  end.


(** The liquidity-replay scenario of the specification: an ADD at [t = 100]
    and a REMOVE at [t = 200] for one pool (stored here in the opposite
    order, so that the ordering by [block_time] shows). *)
Definition scenario_pool : string := "0x9Da64ed1b87b3d0d3d1E731dd3aAAAc08eb0f5C3".

Definition liquidity_row (pool : string) (ty : EventType) (amount0 amount1 : Z)
           (block time_ : Z) : LiquidityEvent.t :=
  {| LiquidityEvent.pool_address := lower pool;
     LiquidityEvent.event_type := ty;
     LiquidityEvent.token0_amount := amount0;
     LiquidityEvent.token1_amount := amount1;
     LiquidityEvent.provider_address := "0x00000000000000000000000000000000000000a1";
     LiquidityEvent.tx_hash := "0xfeed";
     LiquidityEvent.block_number := block;
     LiquidityEvent.block_time := time_ |}.

Definition scenario_db : DB :=
  {| pool_liquidity_events :=
       [ liquidity_row scenario_pool REMOVE 400 500 20 200;
         liquidity_row scenario_pool ADD 1000 2000 10 100 ];
     pool_swaps := [];
     pool_fee_claims := [];
     indexer_state := Some 20 |}.

(** The same pool when only the REMOVE falls inside the window. *)
Definition remove_only_db : DB :=
  {| pool_liquidity_events := [ liquidity_row scenario_pool REMOVE 400 500 20 200 ];
     pool_swaps := [];
     pool_fee_claims := [];
     indexer_state := Some 20 |}.

Definition scenario_clock : Clock := {| utcnow := 604800; local_offset := 0 |}.

(** No stored row of the pool at or after [since], per table. *)
Definition no_liquidity_since (d : DB) (pool_lower : string) (since : Z) : Prop :=
  forall r, In r (pool_liquidity_events d) ->
            LiquidityEvent.pool_address r = pool_lower ->
            LiquidityEvent.block_time r < since.

Definition no_swaps_since (d : DB) (pool_lower : string) (since : Z) : Prop :=
  forall r, In r (pool_swaps d) ->
            SwapEvent.pool_address r = pool_lower ->
            SwapEvent.block_time r < since.

Definition no_claims_since (d : DB) (pool_lower : string) (since : Z) : Prop :=
  forall r, In r (pool_fee_claims d) ->
            FeeClaim.pool_address r = pool_lower ->
            FeeClaim.block_time r < since.

(** Exact rational arithmetic, standing in for Python floats where a
    statement is evaluated on concrete data. *)
Definition exact_div (a b : Z) : Q := Qdiv (inject_Z a) (inject_Z b).

Definition exact_sum (l : list Q) : Q := fold_right Qplus (inject_Z 0) l.

Definition quiet_pool : string := "0x80c394f8867e06704d39a5910666a3e71ca7f325".

(** A node that answers nothing: every request raises. *)
Definition unreachable_w3 : Web3 :=
  {| eth_block_number := fun _ => None;
     eth_get_block_timestamp := fun _ _ => None;
     Mint_get_logs := fun _ _ _ _ => None;
     Burn_get_logs := fun _ _ _ _ => None;
     Swap_get_logs := fun _ _ _ _ => None;
     Claim_get_logs := fun _ _ _ _ => None;
     erc20_decimals := fun _ _ => None;
     to_checksum_address := fun _ => None |}.

(** The reader's state after further calls of the resolver, each for any
    token and whatever its outcome. *)
Definition resolve_many (w3 : Web3) (tokens : list string) (s : Reader) : Reader :=
  fold_left (fun s token => snd (get_token_decimals w3 token s)) tokens s.

(** A node whose first [decimals()] answer fails and whose later answers
    are 6; addresses are taken as already checksummed. *)
Definition flaky_w3 : Web3 :=
  {| eth_block_number := fun _ => None;
     eth_get_block_timestamp := fun _ _ => None;
     Mint_get_logs := fun _ _ _ _ => None;
     Burn_get_logs := fun _ _ _ _ => None;
     Swap_get_logs := fun _ _ _ _ => None;
     Claim_get_logs := fun _ _ _ _ => None;
     erc20_decimals := fun t _ => match t with O => None | S _ => Some 6 end;
     to_checksum_address := fun a => Some a |}.

Definition usdc : string := "0x833589fCD6eDb6E08f4c7C32D4f71b54bdA02913".
Definition weth : string := "0x4200000000000000000000000000000000000006".

(** The swaps of [rows] whose hour bucket is [h], in the order of [rows]. *)
Definition in_bucket (h : Z) (rows : list SwapEvent.t) : list SwapEvent.t :=
  List.filter (fun r => hour_bucket (SwapEvent.block_time r) =? h) rows.

Definition swap_row_at (pool : string) (in0 in1 out0 out1 : Z) (block time_ : Z)
  : SwapEvent.t :=
  {| SwapEvent.pool_address := lower pool;
     SwapEvent.sender := "0x00000000000000000000000000000000000000b1";
     SwapEvent.recipient := "0x00000000000000000000000000000000000000b2";
     SwapEvent.amount0_in := in0;
     SwapEvent.amount1_in := in1;
     SwapEvent.amount0_out := out0;
     SwapEvent.amount1_out := out1;
     SwapEvent.tx_hash := "0xbeef";
     SwapEvent.block_number := block;
     SwapEvent.block_time := time_ |}.

(** Three swaps of one pool: two in the hour starting at 3600, one in the
    hour starting at 7200. *)
Definition swaps_db : DB :=
  {| pool_liquidity_events := [];
     pool_swaps :=
       [ swap_row_at scenario_pool 1500000 0 0 7 11 3700;
         swap_row_at scenario_pool 0 40 2500000 0 12 7100;
         swap_row_at scenario_pool 3000000 0 0 9 13 7300 ];
     pool_fee_claims := [];
     indexer_state := Some 13 |}.

(** A node on which every [decimals()] call answers 6. *)
Definition steady_w3 : Web3 :=
  {| eth_block_number := fun _ => None;
     eth_get_block_timestamp := fun _ _ => None;
     Mint_get_logs := fun _ _ _ _ => None;
     Burn_get_logs := fun _ _ _ _ => None;
     Swap_get_logs := fun _ _ _ _ => None;
     Claim_get_logs := fun _ _ _ _ => None;
     erc20_decimals := fun _ _ => Some 6;
     to_checksum_address := fun a => Some a |}.

(** ** Vocabulary for the indexer *)

(** [rows] inserted one after the other. *)
Definition inserts {R} (ins : R -> DB -> DB) (rows : list R) (d : DB) : DB :=
  fold_left (fun d r => ins r d) rows d.

(** Row [r] is the decoding of log [ev]: its timestamp is an answer of the
    node for the block of [ev]. *)
Definition decodes (w3 : Web3) {L R} (bn : L -> Z) (mk : L -> Z -> R)
           (r : R) (ev : L) : Prop :=
  exists t ts, eth_get_block_timestamp w3 t (bn ev) = Some ts /\ r = mk ev ts.

(** [rows] decode the first logs of an answer of [get]. *)
Definition indexed_prefix (w3 : Web3) {L R} (bn : L -> Z) (mk : L -> Z -> R)
           (get : nat -> option (list L)) (rows : list R) : Prop :=
  rows = [] \/
  exists t logs, get t = Some logs /\
                 Forall2 (decodes w3 bn mk) rows (firstn (length rows) logs).

(** [rows] decode all the logs of an answer of [get]. *)
Definition indexed_all (w3 : Web3) {L R} (bn : L -> Z) (mk : L -> Z -> R)
           (get : nat -> option (list L)) (rows : list R) : Prop :=
  exists t logs, get t = Some logs /\ Forall2 (decodes w3 bn mk) rows logs.

(** Some request for pool contract [addr] and range [[a, b]], or some
    timestamp request, is answered by an exception. *)
Definition call_failed (w3 : Web3) (addr : string) (a b : Z) : Prop :=
  (exists t, Mint_get_logs w3 t addr a b = None) \/
  (exists t, Burn_get_logs w3 t addr a b = None) \/
  (exists t, Swap_get_logs w3 t addr a b = None) \/
  (exists t, Claim_get_logs w3 t addr a b = None) \/
  (exists t n, eth_get_block_timestamp w3 t n = None).

(** The effect of one [index_pool_events pool a b] from [s] to [s'] with
    outcome [res]: [A], [B], [C], [D] are the ADD, REMOVE, swap and claim
    rows it inserted. *)
Record pool_indexed (w3 : Web3) (pool addr : string) (a b : Z)
       (s : Indexer) (res : Result unit) (s' : Indexer)
       (A B : list LiquidityEvent.t) (C : list SwapEvent.t) (D : list FeeClaim.t)
  : Prop := {
  pi_liquidity :
    pool_liquidity_events (working (conn s')) =
    pool_liquidity_events (working (conn s)) ++ A ++ B;
  pi_swaps : pool_swaps (working (conn s')) = pool_swaps (working (conn s)) ++ C;
  pi_claims :
    pool_fee_claims (working (conn s')) = pool_fee_claims (working (conn s)) ++ D;
  pi_state : indexer_state (working (conn s')) = indexer_state (working (conn s));
  pi_committed :
    committed (conn s') =
    match res with Ok _ => working (conn s') | Raised => committed (conn s) end;
  pi_mint : indexed_prefix w3 MintBurnLog.blockNumber (mint_row pool)
              (fun t => Mint_get_logs w3 t addr a b) A;
  pi_burn : indexed_prefix w3 MintBurnLog.blockNumber (burn_row pool)
              (fun t => Burn_get_logs w3 t addr a b) B;
  pi_swap : indexed_prefix w3 SwapLog.blockNumber (swap_row pool)
              (fun t => Swap_get_logs w3 t addr a b) C;
  pi_claim : indexed_prefix w3 ClaimLog.blockNumber (claim_row pool)
               (fun t => Claim_get_logs w3 t addr a b) D;
  pi_complete :
    res = Ok tt ->
    indexed_all w3 MintBurnLog.blockNumber (mint_row pool)
      (fun t => Mint_get_logs w3 t addr a b) A /\
    indexed_all w3 MintBurnLog.blockNumber (burn_row pool)
      (fun t => Burn_get_logs w3 t addr a b) B /\
    indexed_all w3 SwapLog.blockNumber (swap_row pool)
      (fun t => Swap_get_logs w3 t addr a b) C /\
    indexed_all w3 ClaimLog.blockNumber (claim_row pool)
      (fun t => Claim_get_logs w3 t addr a b) D;
  pi_raised : res = Raised -> call_failed w3 addr a b
}.

(** The tables of [d'] extend those of [d]. *)
Definition grows (d d' : DB) : Prop :=
  (exists A, pool_liquidity_events d' = pool_liquidity_events d ++ A) /\
  (exists C, pool_swaps d' = pool_swaps d ++ C) /\
  (exists D, pool_fee_claims d' = pool_fee_claims d ++ D).

(** Nothing is pending on the connection. *)
Definition clean (s : Indexer) : Prop := committed (conn s) = working (conn s).

(** The last block of the window that starts at [start]. *)
Definition window_end (current_block start : Z) : Z :=
  Z.min (start + step - 1) current_block.

(** The database a run leaves on disk. *)
Definition db_after (r : Result unit * DB * nat) : DB := snd (fst r).

Definition outcome (r : Result unit * DB * nat) : Result unit := fst (fst r).

(** Order on the content of [indexer_state]: an absent row is below
    everything. *)
Definition checkpoint_le (a b : option Z) : Prop :=
  match a, b with
  | None, _ => True
  | Some x, Some y => x <= y
  | Some _, None => False
  end.

(** A sequence of runs, each against its own view of the chain, with its
    own pool list and clock. *)
Definition run_many (runs : list (Web3 * list string * nat)) (d : DB) : DB :=
  fold_left (fun d r => db_after (run (fst (fst r)) (snd (fst r)) d (snd r))) runs d.

(** ** A chain whose node always answers *)

Record Chain := {
  chain_head : Z;
  chain_timestamp : Z -> Z;
  chain_mints : string -> list MintBurnLog.t;
  chain_burns : string -> list MintBurnLog.t;
  chain_swaps : string -> list SwapLog.t;
  chain_claims : string -> list ClaimLog.t
}.

Definition in_blocks (a b n : Z) : bool := (a <=? n) && (n <=? b).

(** The node of a chain: every request succeeds, logs are the contract's
    logs of the block range in chain order, addresses are taken as already
    checksummed. *)
Definition node_of (c : Chain) : Web3 :=
  {| eth_block_number := fun _ => Some (chain_head c);
     eth_get_block_timestamp := fun _ n => Some (chain_timestamp c n);
     Mint_get_logs := fun _ addr a b =>
       Some (List.filter (fun ev => in_blocks a b (MintBurnLog.blockNumber ev))
                         (chain_mints c addr));
     Burn_get_logs := fun _ addr a b =>
       Some (List.filter (fun ev => in_blocks a b (MintBurnLog.blockNumber ev))
                         (chain_burns c addr));
     Swap_get_logs := fun _ addr a b =>
       Some (List.filter (fun ev => in_blocks a b (SwapLog.blockNumber ev))
                         (chain_swaps c addr));
     Claim_get_logs := fun _ addr a b =>
       Some (List.filter (fun ev => in_blocks a b (ClaimLog.blockNumber ev))
                         (chain_claims c addr));
     erc20_decimals := fun _ _ => Some 18;
     to_checksum_address := fun a => Some a |}.

Definition demo_timestamp (n : Z) : Z := 1700000000 + 2 * n.

Definition mint_burn_at (block amount0 amount1 : Z) : MintBurnLog.t :=
  {| MintBurnLog.blockNumber := block;
     MintBurnLog.transactionHash := "0xaa";
     MintBurnLog.sender := "0x00000000000000000000000000000000000000a1";
     MintBurnLog.amount0 := amount0;
     MintBurnLog.amount1 := amount1;
     MintBurnLog.to := "0x00000000000000000000000000000000000000a2";
     MintBurnLog.liquidity := 1 |}.

Definition swap_at (block in0 out1 : Z) : SwapLog.t :=
  {| SwapLog.blockNumber := block;
     SwapLog.transactionHash := "0xbb";
     SwapLog.sender := "0x00000000000000000000000000000000000000b1";
     SwapLog.recipient := "0x00000000000000000000000000000000000000b2";
     SwapLog.amount0In := in0;
     SwapLog.amount1In := 0;
     SwapLog.amount0Out := 0;
     SwapLog.amount1Out := out1 |}.

(** One pool with mints at blocks 12 and 20, a burn at block 15 and a swap
    at block 30. *)
Definition demo_chain (head : Z) : Chain :=
  {| chain_head := head;
     chain_timestamp := demo_timestamp;
     chain_mints := fun addr =>
       if String.eqb addr scenario_pool
       then [mint_burn_at 12 1000 2000; mint_burn_at 20 50 60] else [];
     chain_burns := fun addr =>
       if String.eqb addr scenario_pool then [mint_burn_at 15 400 500] else [];
     chain_swaps := fun addr =>
       if String.eqb addr scenario_pool then [swap_at 30 7 9] else [];
     chain_claims := fun _ => [] |}.

(** A store already indexed up to block 10. *)
Definition demo_db : DB :=
  {| pool_liquidity_events := []; pool_swaps := []; pool_fee_claims := [];
     indexer_state := Some 10 |}.

(** The node of [demo_chain] during an outage of the timestamp lookup for
    block 20. *)
Definition outage_w3 (head : Z) : Web3 :=
  let w3 := node_of (demo_chain head) in
  {| eth_block_number := eth_block_number w3;
     eth_get_block_timestamp := fun t n =>
       if n =? 20 then None else eth_get_block_timestamp w3 t n;
     Mint_get_logs := Mint_get_logs w3;
     Burn_get_logs := Burn_get_logs w3;
     Swap_get_logs := Swap_get_logs w3;
     Claim_get_logs := Claim_get_logs w3;
     erc20_decimals := erc20_decimals w3;
     to_checksum_address := to_checksum_address w3 |}.

(** ** Vocabulary for insertion order *)

(** Block numbers, in table order, of the rows of one pool: of the whole
    liquidity table, of its rows of one type, of the swaps, of the claims. *)
Definition liquidity_blocks (pool_lower : string) (rows : list LiquidityEvent.t)
  : list Z :=
  map LiquidityEvent.block_number
      (List.filter (fun r => String.eqb (LiquidityEvent.pool_address r) pool_lower) rows).

Definition liquidity_blocks_of (ty : EventType) (pool_lower : string)
           (rows : list LiquidityEvent.t) : list Z :=
  map LiquidityEvent.block_number
      (List.filter (fun r => String.eqb (LiquidityEvent.pool_address r) pool_lower
                             && EventType_eqb (LiquidityEvent.event_type r) ty) rows).

Definition swap_blocks (pool_lower : string) (rows : list SwapEvent.t) : list Z :=
  map SwapEvent.block_number
      (List.filter (fun r => String.eqb (SwapEvent.pool_address r) pool_lower) rows).

Definition claim_blocks (pool_lower : string) (rows : list FeeClaim.t) : list Z :=
  map FeeClaim.block_number
      (List.filter (fun r => String.eqb (FeeClaim.pool_address r) pool_lower) rows).

(** The rows of [new] that come after those of [old]. *)
Definition appended {A} (old new : list A) : list A := skipn (length old) new.

(** Block numbers in ascending order, all within [[a, b]]. *)
Definition ordered_within (a b : Z) (blocks : list Z) : Prop :=
  StronglySorted Z.le blocks /\ Forall (fun n => a <= n <= b) blocks.

(** Block numbers in ascending order, none above [bound]. *)
Definition ordered_upto (bound : Z) (blocks : list Z) : Prop :=
  StronglySorted Z.le blocks /\ Forall (fun n => n <= bound) blocks.

(** A node that answers [get_logs] in block order and within the range
    asked. *)
Definition orderly (w3 : Web3) : Prop :=
  forall t addr a b,
    (forall logs, Mint_get_logs w3 t addr a b = Some logs ->
                  ordered_within a b (map MintBurnLog.blockNumber logs)) /\
    (forall logs, Burn_get_logs w3 t addr a b = Some logs ->
                  ordered_within a b (map MintBurnLog.blockNumber logs)) /\
    (forall logs, Swap_get_logs w3 t addr a b = Some logs ->
                  ordered_within a b (map SwapLog.blockNumber logs)) /\
    (forall logs, Claim_get_logs w3 t addr a b = Some logs ->
                  ordered_within a b (map ClaimLog.blockNumber logs)).

(** Relative to [base], the tables of [d] hold new rows whose block
    numbers, for the pool [pool_lower] and per event kind, ascend and do not
    exceed [bound]. *)
Definition kinds_ordered (base d : DB) (pool_lower : string) (bound : Z) : Prop :=
  exists A C D,
    pool_liquidity_events d = pool_liquidity_events base ++ A /\
    pool_swaps d = pool_swaps base ++ C /\
    pool_fee_claims d = pool_fee_claims base ++ D /\
    ordered_upto bound (liquidity_blocks_of ADD pool_lower A) /\
    ordered_upto bound (liquidity_blocks_of REMOVE pool_lower A) /\
    ordered_upto bound (swap_blocks pool_lower C) /\
    ordered_upto bound (claim_blocks pool_lower D).

(** ** Vocabulary for consecutive runs *)

(** The same chain when its head is [head]. *)
Definition at_head (c : Chain) (head : Z) : Chain :=
  {| chain_head := head;
     chain_timestamp := chain_timestamp c;
     chain_mints := chain_mints c;
     chain_burns := chain_burns c;
     chain_swaps := chain_swaps c;
     chain_claims := chain_claims c |}.

(** The row the indexer writes for a log of the chain. *)
Definition mint_row_of (c : Chain) (pool : string) (ev : MintBurnLog.t) :=
  mint_row pool ev (chain_timestamp c (MintBurnLog.blockNumber ev)).

Definition burn_row_of (c : Chain) (pool : string) (ev : MintBurnLog.t) :=
  burn_row pool ev (chain_timestamp c (MintBurnLog.blockNumber ev)).

Definition swap_row_of (c : Chain) (pool : string) (ev : SwapLog.t) :=
  swap_row pool ev (chain_timestamp c (SwapLog.blockNumber ev)).

Definition claim_row_of (c : Chain) (pool : string) (ev : ClaimLog.t) :=
  claim_row pool ev (chain_timestamp c (ClaimLog.blockNumber ev)).

(** Every log of the pools [pools] in the blocks [[lo, hi]] has its row in
    [A] (liquidity), [C] (swaps) or [D] (claims). *)
Definition indexed_between (c : Chain) (pools : list string) (lo hi : Z)
           (A : list LiquidityEvent.t) (C : list SwapEvent.t) (D : list FeeClaim.t)
  : Prop :=
  forall pool, In pool pools ->
    (forall ev, In ev (chain_mints c pool) ->
                lo <= MintBurnLog.blockNumber ev <= hi -> In (mint_row_of c pool ev) A) /\
    (forall ev, In ev (chain_burns c pool) ->
                lo <= MintBurnLog.blockNumber ev <= hi -> In (burn_row_of c pool ev) A) /\
    (forall ev, In ev (chain_swaps c pool) ->
                lo <= SwapLog.blockNumber ev <= hi -> In (swap_row_of c pool ev) C) /\
    (forall ev, In ev (chain_claims c pool) ->
                lo <= ClaimLog.blockNumber ev <= hi -> In (claim_row_of c pool ev) D).

(** Relative to [base], the tables of [d] hold new rows, among them a row
    for every log of the pools in the blocks [[lo, hi]]. *)
Definition covers (c : Chain) (pools : list string) (lo hi : Z) (base d : DB) : Prop :=
  exists A C D,
    pool_liquidity_events d = pool_liquidity_events base ++ A /\
    pool_swaps d = pool_swaps base ++ C /\
    pool_fee_claims d = pool_fee_claims base ++ D /\
    indexed_between c pools lo hi A C D.

(** ** Vocabulary for further properties of the indexer *)

(** The rows added to [base] to reach [d] all belong to the pools of
    [pools] (lower-cased). *)
Definition rows_of_pools (pools : list string) (base d : DB) : Prop :=
  exists A C D,
    pool_liquidity_events d = pool_liquidity_events base ++ A /\
    pool_swaps d = pool_swaps base ++ C /\
    pool_fee_claims d = pool_fee_claims base ++ D /\
    Forall (fun r => In (LiquidityEvent.pool_address r) (map lower pools)) A /\
    Forall (fun r => In (SwapEvent.pool_address r) (map lower pools)) C /\
    Forall (fun r => In (FeeClaim.pool_address r) (map lower pools)) D.

(** The two databases hold the same event rows. *)
Definition same_rows (d d' : DB) : Prop :=
  pool_liquidity_events d' = pool_liquidity_events d /\
  pool_swaps d' = pool_swaps d /\
  pool_fee_claims d' = pool_fee_claims d.

(** The node of [demo_chain] while every request for Mint logs fails. *)
Definition mint_outage_w3 (head : Z) : Web3 :=
  let w3 := node_of (demo_chain head) in
  {| eth_block_number := eth_block_number w3;
     eth_get_block_timestamp := eth_get_block_timestamp w3;
     Mint_get_logs := fun _ _ _ _ => None;
     Burn_get_logs := Burn_get_logs w3;
     Swap_get_logs := Swap_get_logs w3;
     Claim_get_logs := Claim_get_logs w3;
     erc20_decimals := erc20_decimals w3;
     to_checksum_address := to_checksum_address w3 |}.

(** The logs of a contract in the blocks [[a, b]], in chain order. *)
Definition window_logs {L} (bn : L -> Z) (a b : Z) (logs : list L) : list L :=
  List.filter (fun ev => in_blocks a b (bn ev)) logs.

(** The working database after the four decoding loops of one attempt for
    [pool] on the node of [c]. *)
Definition indexed_db (c : Chain) (pool : string) (a b : Z) (w : DB) : DB :=
  inserts insert_claim
    (map (claim_row_of c pool) (window_logs ClaimLog.blockNumber a b (chain_claims c pool)))
    (inserts insert_swap
       (map (swap_row_of c pool) (window_logs SwapLog.blockNumber a b (chain_swaps c pool)))
       (inserts insert_liquidity
          (map (burn_row_of c pool)
               (window_logs MintBurnLog.blockNumber a b (chain_burns c pool)))
          (inserts insert_liquidity
             (map (mint_row_of c pool)
                  (window_logs MintBurnLog.blockNumber a b (chain_mints c pool)))
             w))).

(** The number of logs of [pool] in the blocks [[a, b]]. *)
Definition window_log_count (c : Chain) (pool : string) (a b : Z) : nat :=
  (length (window_logs MintBurnLog.blockNumber a b (chain_mints c pool)) +
   length (window_logs MintBurnLog.blockNumber a b (chain_burns c pool)) +
   length (window_logs SwapLog.blockNumber a b (chain_swaps c pool)) +
   length (window_logs ClaimLog.blockNumber a b (chain_claims c pool)))%nat.

(** ** Vocabulary for further properties of the reader *)

(** A liquidity row of the pool [pool_lower], of type [ty], at or after
    [since]. *)
Definition liquidity_match (pool_lower : string) (ty : EventType) (since : Z)
           (r : LiquidityEvent.t) : Prop :=
  LiquidityEvent.pool_address r = pool_lower /\
  LiquidityEvent.event_type r = ty /\
  since <= LiquidityEvent.block_time r.

(** The same point with both balances raised by [k0] and [k1]. *)
Definition shift_point (k0 k1 : Z) (p : LiquidityPoint) : LiquidityPoint :=
  {| time := time p;
     token0_balance := token0_balance p + k0;
     token1_balance := token1_balance p + k1 |}.

(** * The dashboard's helpers ([Aerodrome_Base_v4.py]) *)

(** ** Address validation *)

(** The character class [[a-fA-F0-9]]. *)
Definition is_hex_digit (c : ascii) : bool :=
  let n := nat_of_ascii c in
  ((48 <=? n)%nat && (n <=? 57)%nat)
  || ((97 <=? n)%nat && (n <=? 102)%nat)
  || ((65 <=? n)%nat && (n <=? 70)%nat).

(** [[a-fA-F0-9]{n}]: consume exactly [n] hexadecimal digits and return what
    follows them. *)
Fixpoint match_hex (n : nat) (s : string) : option string :=
  match n with
  | O => Some s
  | S n' =>
      match s with
      | String c s' => if is_hex_digit c then match_hex n' s' else None
      | EmptyString => None
      end
  end.

(** [$] without [re.MULTILINE]: the end of the string, or just before a
    newline that ends the string. *)
Definition at_end (s : string) : bool :=
  match s with
  | EmptyString => true
  | String c EmptyString => Ascii.eqb c "010"%char
  | _ => false
  end.

(** [bool(re.match(r"^0x[a-fA-F0-9]{40}$", addr))] *)
Definition is_valid_address (addr : string) : bool :=
  match addr with
  | String "0"%char (String "x"%char rest) =>
      match match_hex 40 rest with
      | Some tail => at_end tail
      | None => false
      end
  | _ => false
  end.

(** ** The list of pool addresses *)

(** [list(dict.fromkeys(l))]: the distinct items of [l], each at the place
    of its first occurrence. *)
Definition dict_fromkeys (l : list string) : list string :=
  fold_left (fun keys x => if existsb (String.eqb x) keys then keys else keys ++ [x])
            l [].

(** The address list of the dashboard's [main], from the stripped lines
    [raw_addresses] of the text area. *)
Definition pool_addresses (raw_addresses : list string) : list string :=
  let pool_addresses :=
    List.filter (fun addr => negb (String.eqb addr "") && String.prefix "0x" addr)
                raw_addresses in
  dict_fromkeys (List.filter is_valid_address pool_addresses).

(** ** Reordering the price charts *)

(** [l[i], l[j] = l[j], l[i]]: the right-hand side is read first, then
    [l[i]] and [l[j]] are assigned in that order; an index out of range
    raises. *)
Definition swap_items (i j : nat) (l : list string) : option (list string) :=
  match l !! j, l !! i with
  | Some xj, Some xi => Some (<[j := xi]> (<[i := xj]> l))
  | _, _ => None
  end.

(** The "up" button of the chart at position [i], offered when [i > 0]. *)
Definition move_up (i : nat) (chart_order : list string) : option (list string) :=
  if (0 <? i)%nat then swap_items i (i - 1) chart_order else Some chart_order.

(** The "down" button, offered when [i < len(chart_order) - 1]. *)
Definition move_down (i : nat) (chart_order : list string) : option (list string) :=
  if (Z.of_nat i <? Z.of_nat (length chart_order) - 1)
  then swap_items i (i + 1) chart_order else Some chart_order.

(** ** Snapshots from DexScreener *)

(** What [requests.get] gives: an exception of [requests], or a response
    with its status code and the list under ["pairs"] of its JSON body
    ([None] when reading the body raises; the empty list when the key is
    missing or null). *)
Inductive HttpReply (P : Type) : Type :=
| RequestException
| Response (status_code : Z) (pairs : option (list P)).
Arguments RequestException {P}.
Arguments Response {P} status_code pairs.

(** The requests sent so far (most recent first) and the seconds slept. *)
Record Net := {
  requests : list string;
  slept : Z
}.

Definition DEXSCREENER_PAIR_URL : string := "https://api.dexscreener.com/latest/dex/pairs".
Definition DEXSCREENER_TOKEN_URL : string := "https://api.dexscreener.com/latest/dex/tokens".

Definition time_sleep (seconds : Z) : M Net unit :=
  fun s => (Ok tt, {| requests := requests s; slept := slept s + seconds |}).

Section Dex.

(** A pair object of the API, and the reply of the service to the n-th
    request of the process. The bodies of [fetch_pair] and
    [fetch_token_price_history] are embedded; the [st.cache_data] wrapper
    around them is not. *)
Variable P : Type.
Variable http : nat -> string -> HttpReply P.

Local Open Scope py_scope.

Definition requests_get (url : string) : M Net (HttpReply P) :=
  fun s =>
    (Ok (http (length (requests s)) url),
     {| requests := url :: requests s; slept := slept s |}).

(** The loop of [fetch_pair] over the attempts still to make. *)
Fixpoint fetch_pair_attempts (url : string) (max_retries : Z) (attempts : list Z)
  : M Net (option P) :=
  match attempts with
  | [] => ret None
  | attempt :: rest =>
      resp <- requests_get url ;;
      match resp with
      | RequestException =>
          if attempt =? max_retries then ret None
          else (time_sleep 1 ;;; fetch_pair_attempts url max_retries rest)
      | Response status_code pairs =>
          if negb (status_code =? 200) then
            if attempt =? max_retries then ret None
            else (time_sleep 1 ;;; fetch_pair_attempts url max_retries rest)
          else
            pairs <- checked pairs ;;
            ret (head pairs)
      end
  end.

Definition fetch_pair (chain pool_address : string) (max_retries : Z)
  : M Net (option P) :=
  let url := String.append DEXSCREENER_PAIR_URL
               (String.append "/" (String.append chain (String.append "/" pool_address))) in
  fetch_pair_attempts url max_retries (range 0 (max_retries + 1) 1).

(** The loop of [fetch_token_price_history]: a response that is not a 200
    leaves the [try] block and the next attempt starts at once; any
    exception, reading the body included, is caught. *)
Fixpoint fetch_token_attempts (url : string) (max_retries : Z) (attempts : list Z)
  : M Net (option P) :=
  match attempts with
  | [] => ret None
  | attempt :: rest =>
      resp <- requests_get url ;;
      match resp with
      | Response status_code pairs =>
          if status_code =? 200 then
            match pairs with
            | Some pairs => ret (head pairs)
            | None =>
                if attempt <? max_retries
                then (time_sleep 1 ;;; fetch_token_attempts url max_retries rest)
                else ret None
            end
          else fetch_token_attempts url max_retries rest
      | RequestException =>
          if attempt <? max_retries
          then (time_sleep 1 ;;; fetch_token_attempts url max_retries rest)
          else ret None
      end
  end.

Definition fetch_token_price_history (token_address : string) (max_retries : Z)
  : M Net (option P) :=
  let url := String.append DEXSCREENER_TOKEN_URL (String.append "/" token_address) in
  fetch_token_attempts url max_retries (range 0 (max_retries + 1) 1).

(** The reply is not a usable one for [fetch_pair]: an exception or a
    status other than 200. *)
Definition failed_reply (r : HttpReply P) : bool :=
  match r with
  | RequestException => true
  | Response status_code _ => negb (status_code =? 200)
  end.

End Dex.

Arguments requests_get {P} http url.
Arguments fetch_pair_attempts {P} http url max_retries attempts.
Arguments fetch_pair {P} http chain pool_address max_retries.
Arguments fetch_token_attempts {P} http url max_retries attempts.
Arguments fetch_token_price_history {P} http token_address max_retries.
Arguments failed_reply {P} r.

(** A service that is down for the first two requests and then answers
    with one pair. *)
Definition recovering_http (n : nat) (url : string) : HttpReply string :=
  match n with
  | O => RequestException
  | S O => Response 503 None
  | _ => Response 200 (Some ["WETH/USDC"])
  end.

(** ** The database file *)

(** The file at [DB_PATH] as sqlite sees it: each table of [init_db] is
    there with its rows, or is not there. [sqlite3.connect] on a path
    without a file gives a database without tables. *)
Record File := {
  liquidity_events_table : option (list LiquidityEvent.t);
  swaps_table : option (list SwapEvent.t);
  fee_claims_table : option (list FeeClaim.t);
  indexer_state_table : option (option Z)
}.

Definition empty_file : File :=
  {| liquidity_events_table := None; swaps_table := None;
     fee_claims_table := None; indexer_state_table := None |}.

(** [init_db]: four [CREATE TABLE IF NOT EXISTS] and a commit. A table that
    is there keeps its rows; a missing one is created empty. *)
Definition init_db (f : File) : File :=
  {| liquidity_events_table := Some (default [] (liquidity_events_table f));
     swaps_table := Some (default [] (swaps_table f));
     fee_claims_table := Some (default [] (fee_claims_table f));
     indexer_state_table := Some (default None (indexer_state_table f)) |}.

(** The rows a file holds; a missing table holds none. *)
Definition rows_of (f : File) : DB :=
  {| pool_liquidity_events := default [] (liquidity_events_table f);
     pool_swaps := default [] (swaps_table f);
     pool_fee_claims := default [] (fee_claims_table f);
     indexer_state := default None (indexer_state_table f) |}.

(** The file of a database whose four tables exist. *)
Definition file_of (d : DB) : File :=
  {| liquidity_events_table := Some (pool_liquidity_events d);
     swaps_table := Some (pool_swaps d);
     fee_claims_table := Some (pool_fee_claims d);
     indexer_state_table := Some (indexer_state d) |}.

(** The four tables exist, as after [init_db]. *)
Definition initialised (f : File) : Prop :=
  is_Some (liquidity_events_table f) /\ is_Some (swaps_table f) /\
  is_Some (fee_claims_table f) /\ is_Some (indexer_state_table f).

(** ** The reader on a database file *)

(** The three queries of [pool_events_reader.py] as they are called:
    each opens the file at [DB_PATH] with [_conn], which creates no table
    and writes nothing, and runs its [SELECT]s on it. *)
Module OnFile.

Local Open Scope py_scope.

(** [cur.execute] of a [SELECT ... FROM table] and the fetch after it:
    [sqlite3.OperationalError] (no such table) when the file has no such
    table, else what the query gives on the rows of the file. *)
Definition select_from {T A} (f : File) (table : File -> option T)
           (query : DB -> A) : M Reader A :=
  fun s =>
    (match table f with
     | Some _ => Ok (query (rows_of f))
     | None => Raised
     end, s).

Definition get_recent_activity (f : File) (clock : Clock)
           (pool_address : string) (lookback_hours : Z) : M Reader RecentActivity :=
  let since := since_ts clock (lookback_hours * 3600) in
  let pool_lower := lower pool_address in
  add_row <- select_from f liquidity_events_table
               (fun d => latest_liquidity d pool_lower ADD since) ;;
  remove_row <- select_from f liquidity_events_table
                  (fun d => latest_liquidity d pool_lower REMOVE since) ;;
  claim_row <- select_from f fee_claims_table
                 (fun d => latest_fee_claim d pool_lower since) ;;
  ret {| ra_pool_address := pool_address;
         latest_add := fmt clock add_row "Liquidity Added";
         latest_remove := fmt clock remove_row "Liquidity Removed";
         latest_claim := fmt clock claim_row "Fees Claimed" |}.

Definition get_liquidity_timeseries (f : File) (clock : Clock)
           (pool_address : string) (lookback_days : Z)
  : M Reader (list LiquidityPoint) :=
  let since := since_ts clock (lookback_days * 86400) in
  let pool_lower := lower pool_address in
  rows <- select_from f liquidity_events_table
            (fun d => liquidity_rows d pool_lower since) ;;
  match rows with
  | [] => ret []
  | _ => ret (replay 0 0 rows)
  end.

Definition get_swap_volume_timeseries (w3 : Web3) {float : Type}
           (truediv : Z -> Z -> float) (fsum : list float -> float)
           (f : File) (clock : Clock)
           (pool_address token0_address token1_address : string)
           (lookback_days : Z) : M Reader (list (VolumeRow float)) :=
  let since := since_ts clock (lookback_days * 86400) in
  let pool_lower := lower pool_address in
  rows <- select_from f swaps_table
            (fun d => swap_rows d pool_lower since) ;;
  match rows with
  | [] => ret []
  | _ =>
      dec0 <- get_token_decimals w3 token0_address ;;
      dec1 <- get_token_decimals w3 token1_address ;;
      let scale0 := 10 ^ dec0 in
      let scale1 := 10 ^ dec1 in
      let records := map (volume_record truediv scale0 scale1) rows in
      ret (groupby_sum fsum records)
  end.

End OnFile.
(** * Properties *)

(** ** Lists: ordering and sums *)

Lemma insert_by_perm {A} (key : A -> Z) x l :
  Permutation (insert_by key x l) (x :: l).
Proof.
  induction l as [|y l IH]; simpl; [reflexivity|].
  destruct (key x <=? key y); [reflexivity|].
  rewrite IH. apply perm_swap.
Qed.

Lemma order_by_perm {A} (key : A -> Z) l : Permutation (order_by key l) l.
Proof.
  induction l as [|x l IH]; simpl; [constructor|].
  unfold order_by in *. simpl. rewrite insert_by_perm. now constructor.
Qed.

Lemma insert_by_hd {A} (key : A -> Z) x l z :
  key_le key z x -> HdRel (key_le key) z l -> HdRel (key_le key) z (insert_by key x l).
Proof.
  intros Hzx Hl. destruct l as [|y l]; simpl.
  - now constructor.
  - destruct (key x <=? key y); constructor; [exact Hzx|].
    now inversion Hl.
Qed.

Lemma insert_by_sorted {A} (key : A -> Z) x l :
  Sorted (key_le key) l -> Sorted (key_le key) (insert_by key x l).
Proof.
  induction 1 as [|y l Hs IH Hhd]; simpl.
  - repeat constructor.
  - destruct (key x <=? key y) eqn:E.
    + constructor; [now constructor|]. constructor. unfold key_le. lia.
    + constructor; [exact IH|]. apply insert_by_hd; [|exact Hhd].
      unfold key_le. lia.
Qed.

Lemma order_by_sorted {A} (key : A -> Z) l : Sorted (key_le key) (order_by key l).
Proof.
  induction l as [|x l IH]; [constructor|].
  unfold order_by in *. simpl. now apply insert_by_sorted.
Qed.

Lemma order_by_nil {A} (key : A -> Z) l : l = [] -> order_by key l = [].
Proof. now intros ->. Qed.

Lemma filter_nil_by {A} (f : A -> bool) l :
  (forall x, In x l -> f x = false) -> List.filter f l = [].
Proof.
  induction l as [|x l IH]; intros H; simpl; [reflexivity|].
  rewrite (H x (or_introl eq_refl)). apply IH. intros y Hy. apply H. now right.
Qed.

(** ** Liquidity replay *)

Lemma replay_length rows : forall t0 t1, length (replay t0 t1 rows) = length rows.
Proof. induction rows as [|r rows IH]; intros; simpl; [reflexivity|]. now rewrite IH. Qed.

Lemma replay_nth rows :
  forall t0 t1 i r,
    nth_error rows i = Some r ->
    nth_error (replay t0 t1 rows) i =
      Some {| time := LiquidityEvent.block_time r;
              token0_balance := t0 + sumZ (map signed0 (firstn (S i) rows));
              token1_balance := t1 + sumZ (map signed1 (firstn (S i) rows)) |}.
Proof.
  induction rows as [|x rows IH]; intros t0 t1 i r Hi.
  - destruct i; discriminate.
  - destruct i as [|i].
    + injection Hi as ->. cbn [replay nth_error firstn map sumZ fold_right].
      unfold signed0, signed1.
      destruct (LiquidityEvent.event_type r); f_equal; f_equal; simpl; lia.
    + simpl in Hi. cbn [replay nth_error]. rewrite (IH _ _ _ _ Hi).
      change (firstn (S (S i)) (x :: rows)) with (x :: firstn (S i) rows).
      cbn [map sumZ fold_right]. unfold signed0 at 2, signed1 at 2.
      destruct (LiquidityEvent.event_type x); f_equal; f_equal; unfold sumZ; lia.
Qed.

Lemma get_liquidity_timeseries_replay d clock pool_address lookback_days :
  get_liquidity_timeseries d clock pool_address lookback_days =
  replay 0 0 (liquidity_rows d (lower pool_address)
                             (since_ts clock (lookback_days * 86400))).
Proof.
  unfold get_liquidity_timeseries.
  now destruct (liquidity_rows _ _ _).
Qed.

(** C3. [get_liquidity_timeseries] reads the pool's liquidity events of the
    lookback window in ascending [block_time] order and replays them with a
    running signed accumulator: it emits one point per event, and the i-th
    point carries the time of the i-th event and the sums of the signed
    amounts (ADD positive, REMOVE negative) of the events up to it, with no
    clamping. For ADD (1000, 2000) at t=100 and REMOVE (400, 500) at t=200
    the output is [(100, 1000, 2000); (200, 600, 1500)]; a REMOVE alone
    gives negative balances. *)
Theorem C3_liquidity_timeseries_replay :
  (forall (d : DB) (clock : Clock) (pool_address : string) (lookback_days : Z),
      let since := since_ts clock (lookback_days * 86400) in
      let rows := liquidity_rows d (lower pool_address) since in
      let out := get_liquidity_timeseries d clock pool_address lookback_days in
      Permutation rows
        (List.filter
           (fun r => String.eqb (LiquidityEvent.pool_address r) (lower pool_address)
                     && (since <=? LiquidityEvent.block_time r))
           (pool_liquidity_events d)) /\
      Sorted (key_le LiquidityEvent.block_time) rows /\
      length out = length rows /\
      forall i r,
        nth_error rows i = Some r ->
        nth_error out i =
          Some {| time := LiquidityEvent.block_time r;
                  token0_balance := sumZ (map signed0 (firstn (S i) rows));
                  token1_balance := sumZ (map signed1 (firstn (S i) rows)) |}) /\
  (forall (clock : Clock) (lookback_days : Z),
      since_ts clock (lookback_days * 86400) <= 100 ->
      get_liquidity_timeseries scenario_db clock scenario_pool lookback_days =
        [ {| time := 100; token0_balance := 1000; token1_balance := 2000 |};
          {| time := 200; token0_balance := 600; token1_balance := 1500 |} ]) /\
  (forall (clock : Clock) (lookback_days : Z),
      since_ts clock (lookback_days * 86400) <= 200 ->
      get_liquidity_timeseries remove_only_db clock scenario_pool lookback_days =
        [ {| time := 200; token0_balance := -400; token1_balance := -500 |} ]).
Proof.
  split; [|split].
  - intros d clock pool_address lookback_days since rows out.
    subst out. rewrite get_liquidity_timeseries_replay. fold since. fold rows.
    split; [apply order_by_perm|].
    split; [apply order_by_sorted|].
    split; [apply replay_length|].
    intros i r Hi. rewrite (replay_nth _ 0 0 i r Hi). reflexivity.
  - intros clock lookback_days Hsince.
    rewrite get_liquidity_timeseries_replay. unfold liquidity_rows.
    set (since := since_ts clock (lookback_days * 86400)) in *.
    assert (H200 : (since <=? 200) = true) by (apply Z.leb_le; lia).
    assert (H100 : (since <=? 100) = true) by (apply Z.leb_le; lia).
    cbn. rewrite H200, H100. reflexivity.
  - intros clock lookback_days Hsince.
    rewrite get_liquidity_timeseries_replay. unfold liquidity_rows.
    set (since := since_ts clock (lookback_days * 86400)) in *.
    assert (H200 : (since <=? 200) = true) by (apply Z.leb_le; lia).
    cbn. rewrite H200. reflexivity.
Qed.

(** The scenario of C3, run with a seven-day window at [scenario_clock]. *)
Lemma C3_liquidity_timeseries_replay_witness :
  get_liquidity_timeseries scenario_db scenario_clock scenario_pool 7 =
    [ {| time := 100; token0_balance := 1000; token1_balance := 2000 |};
      {| time := 200; token0_balance := 600; token1_balance := 1500 |} ].
Proof.
  apply (proj1 (proj2 C3_liquidity_timeseries_replay) scenario_clock 7).
  vm_compute. discriminate.
Defined.

(** ** Empty windows *)

Lemma liquidity_rows_empty d pool_lower since :
  no_liquidity_since d pool_lower since -> liquidity_rows d pool_lower since = [].
Proof.
  intros H. unfold liquidity_rows. apply order_by_nil, filter_nil_by.
  intros r Hr. destruct (String.eqb _ _) eqn:E; [|reflexivity].
  apply String.eqb_eq in E. specialize (H r Hr E). simpl. apply Z.leb_gt. lia.
Qed.

Lemma swap_rows_empty d pool_lower since :
  no_swaps_since d pool_lower since -> swap_rows d pool_lower since = [].
Proof.
  intros H. unfold swap_rows. apply order_by_nil, filter_nil_by.
  intros r Hr. destruct (String.eqb _ _) eqn:E; [|reflexivity].
  apply String.eqb_eq in E. specialize (H r Hr E). simpl. apply Z.leb_gt. lia.
Qed.

Lemma latest_liquidity_none d pool_lower ty since :
  no_liquidity_since d pool_lower since ->
  latest_liquidity d pool_lower ty since = None.
Proof.
  intros H. unfold latest_liquidity, order_by_desc.
  rewrite order_by_nil; [reflexivity|]. apply filter_nil_by.
  intros r Hr. destruct (String.eqb _ _) eqn:E; [|reflexivity].
  apply String.eqb_eq in E. specialize (H r Hr E).
  rewrite andb_false_intro2; [reflexivity|]. apply Z.leb_gt. lia.
Qed.

Lemma latest_fee_claim_none d pool_lower since :
  no_claims_since d pool_lower since ->
  latest_fee_claim d pool_lower since = None.
Proof.
  intros H. unfold latest_fee_claim, order_by_desc.
  rewrite order_by_nil; [reflexivity|]. apply filter_nil_by.
  intros r Hr. destruct (String.eqb _ _) eqn:E; [|reflexivity].
  apply String.eqb_eq in E. specialize (H r Hr E). simpl. apply Z.leb_gt. lia.
Qed.

(** With no row of the pool in the window, the three queries give empty
    results on the rows of any database: [get_recent_activity] a record
    whose three items are [None], the two time series the empty sequence,
    the swap volume without consulting the decimals resolver. *)
Lemma empty_window_queries :
  forall (w3 : Web3) (float : Type) (truediv : Z -> Z -> float)
         (fsum : list float -> float)
         (d : DB) (clock : Clock) (pool_address : string),
    (forall lookback_hours,
        no_liquidity_since d (lower pool_address)
                           (since_ts clock (lookback_hours * 3600)) ->
        no_claims_since d (lower pool_address)
                        (since_ts clock (lookback_hours * 3600)) ->
        get_recent_activity d clock pool_address lookback_hours =
          {| ra_pool_address := pool_address;
             latest_add := None; latest_remove := None; latest_claim := None |}) /\
    (forall lookback_days,
        no_liquidity_since d (lower pool_address)
                           (since_ts clock (lookback_days * 86400)) ->
        get_liquidity_timeseries d clock pool_address lookback_days = []) /\
    (forall lookback_days token0_address token1_address (s : Reader),
        no_swaps_since d (lower pool_address)
                       (since_ts clock (lookback_days * 86400)) ->
        get_swap_volume_timeseries w3 truediv fsum d clock pool_address
                                   token0_address token1_address lookback_days s =
          (Ok [], s)).
Proof.
  intros w3 float truediv fsum d clock pool_address. split; [|split].
  - intros h Hl Hc. unfold get_recent_activity.
    rewrite !latest_liquidity_none, latest_fee_claim_none by assumption.
    reflexivity.
  - intros days Hl. rewrite get_liquidity_timeseries_replay.
    now rewrite liquidity_rows_empty.
  - intros days tok0 tok1 s Hs. unfold get_swap_volume_timeseries.
    now rewrite swap_rows_empty.
Qed.

(** *** The queries on a database file *)

Lemma init_db_initialised f : initialised (init_db f).
Proof. repeat split; eexists; reflexivity. Qed.

Lemma init_db_empty_file : init_db empty_file = file_of empty_db.
Proof. reflexivity. Qed.

Lemma init_db_rows f : rows_of (init_db f) = rows_of f.
Proof. reflexivity. Qed.

Lemma init_db_idempotent f : init_db (init_db f) = init_db f.
Proof. reflexivity. Qed.

Lemma init_db_initialised_id f : initialised f -> init_db f = f.
Proof.
  destruct f as [l sw c st]. intros ([? Hl] & [? Hs] & [? Hc] & [? Hi]).
  cbn in *. now subst.
Qed.

Lemma file_of_initialised d : initialised (file_of d) /\ rows_of (file_of d) = d.
Proof.
  split; [repeat split; eexists; reflexivity|]. now destruct d.
Qed.

Lemma select_from_table {T A} f (table : File -> option T) (query : DB -> A) s :
  is_Some (table f) ->
  OnFile.select_from f table query s = (Ok (query (rows_of f)), s).
Proof. intros [rows E]. unfold OnFile.select_from. now rewrite E. Qed.

Lemma select_from_no_table {T A} f (table : File -> option T) (query : DB -> A) s :
  table f = None ->
  OnFile.select_from f table query s = (Raised, s).
Proof. intros E. unfold OnFile.select_from. now rewrite E. Qed.

(** Where the tables a query reads exist, the query returns what the
    definition over the rows gives, and the reader's state with it. *)
Lemma get_recent_activity_on_file f clock pool_address lookback_hours s :
  is_Some (liquidity_events_table f) -> is_Some (fee_claims_table f) ->
  OnFile.get_recent_activity f clock pool_address lookback_hours s =
    (Ok (get_recent_activity (rows_of f) clock pool_address lookback_hours), s).
Proof.
  intros Hl Hc. unfold OnFile.get_recent_activity, bind.
  rewrite !(select_from_table f liquidity_events_table) by exact Hl.
  rewrite (select_from_table f fee_claims_table) by exact Hc.
  reflexivity.
Qed.

Lemma get_liquidity_timeseries_on_file f clock pool_address lookback_days s :
  is_Some (liquidity_events_table f) ->
  OnFile.get_liquidity_timeseries f clock pool_address lookback_days s =
    (Ok (get_liquidity_timeseries (rows_of f) clock pool_address lookback_days), s).
Proof.
  intros Hl. unfold OnFile.get_liquidity_timeseries, get_liquidity_timeseries, bind.
  rewrite (select_from_table f liquidity_events_table) by exact Hl.
  now destruct (liquidity_rows _ _ _).
Qed.

Lemma get_swap_volume_timeseries_on_file w3 {float} (truediv : Z -> Z -> float) fsum
      f clock pool_address token0_address token1_address lookback_days s :
  is_Some (swaps_table f) ->
  OnFile.get_swap_volume_timeseries w3 truediv fsum f clock pool_address
    token0_address token1_address lookback_days s =
  get_swap_volume_timeseries w3 truediv fsum (rows_of f) clock pool_address
    token0_address token1_address lookback_days s.
Proof.
  intros Hs. unfold OnFile.get_swap_volume_timeseries, get_swap_volume_timeseries.
  unfold bind at 1. rewrite (select_from_table f swaps_table) by exact Hs.
  reflexivity.
Qed.

(** Where a table a query reads is missing, the query raises, whatever the
    pool and the window. *)
Lemma get_recent_activity_no_table f clock pool_address lookback_hours s :
  liquidity_events_table f = None \/ fee_claims_table f = None ->
  OnFile.get_recent_activity f clock pool_address lookback_hours s = (Raised, s).
Proof.
  intros H. unfold OnFile.get_recent_activity, bind, OnFile.select_from.
  destruct H as [-> | ->]; [reflexivity|].
  now destruct (liquidity_events_table f).
Qed.

Lemma get_liquidity_timeseries_no_table f clock pool_address lookback_days s :
  liquidity_events_table f = None ->
  OnFile.get_liquidity_timeseries f clock pool_address lookback_days s = (Raised, s).
Proof.
  intros H. unfold OnFile.get_liquidity_timeseries, bind.
  now rewrite select_from_no_table.
Qed.

Lemma get_swap_volume_timeseries_no_table w3 {float} (truediv : Z -> Z -> float) fsum
      f clock pool_address token0_address token1_address lookback_days s :
  swaps_table f = None ->
  OnFile.get_swap_volume_timeseries w3 truediv fsum f clock pool_address
    token0_address token1_address lookback_days s = (Raised, s).
Proof.
  intros H. unfold OnFile.get_swap_volume_timeseries, bind.
  now rewrite select_from_no_table.
Qed.

(** C7, as stated, fails: a database file on which [init_db] never ran
    holds no event of any pool, and on it the three queries raise
    ([sqlite3.OperationalError], no such table) where the claim has them
    return empty results. *)
Lemma C7_queries_raise_on_file_without_tables :
  pool_liquidity_events (rows_of empty_file) = [] /\
  pool_swaps (rows_of empty_file) = [] /\
  pool_fee_claims (rows_of empty_file) = [] /\
  OnFile.get_recent_activity empty_file scenario_clock quiet_pool 48 fresh_reader
    = (Raised, fresh_reader) /\
  OnFile.get_liquidity_timeseries empty_file scenario_clock quiet_pool 7 fresh_reader
    = (Raised, fresh_reader) /\
  OnFile.get_swap_volume_timeseries unreachable_w3 exact_div exact_sum
      empty_file scenario_clock quiet_pool "token0" "token1" 7 fresh_reader
    = (Raised, fresh_reader).
Proof. repeat split. Qed.

(** C7, amended. On a database file that holds the tables of [init_db],
    for a pool with no stored event in the requested lookback window the
    three queries return empty results and do not raise:
    [get_recent_activity] returns a record whose three items are [None],
    [get_liquidity_timeseries] returns the empty sequence, and
    [get_swap_volume_timeseries] returns the empty sequence (without
    consulting the decimals resolver, whatever the token addresses). The
    reader's state is left as it was. *)
Theorem C7_empty_window_empty_results_on_initialised_file :
  forall (w3 : Web3) (float : Type) (truediv : Z -> Z -> float)
         (fsum : list float -> float)
         (f : File) (clock : Clock) (pool_address : string) (s : Reader),
    initialised f ->
    (forall lookback_hours,
        no_liquidity_since (rows_of f) (lower pool_address)
                           (since_ts clock (lookback_hours * 3600)) ->
        no_claims_since (rows_of f) (lower pool_address)
                        (since_ts clock (lookback_hours * 3600)) ->
        OnFile.get_recent_activity f clock pool_address lookback_hours s =
          (Ok {| ra_pool_address := pool_address;
                 latest_add := None; latest_remove := None; latest_claim := None |},
           s)) /\
    (forall lookback_days,
        no_liquidity_since (rows_of f) (lower pool_address)
                           (since_ts clock (lookback_days * 86400)) ->
        OnFile.get_liquidity_timeseries f clock pool_address lookback_days s =
          (Ok [], s)) /\
    (forall lookback_days token0_address token1_address,
        no_swaps_since (rows_of f) (lower pool_address)
                       (since_ts clock (lookback_days * 86400)) ->
        OnFile.get_swap_volume_timeseries w3 truediv fsum f clock pool_address
                                          token0_address token1_address lookback_days s =
          (Ok [], s)).
Proof.
  intros w3 float truediv fsum f clock pool_address s (Hl & Hs & Hc & _).
  destruct (empty_window_queries w3 float truediv fsum (rows_of f) clock pool_address)
    as (Hra & Hliq & Hvol).
  split; [|split].
  - intros h Nl Nc. rewrite get_recent_activity_on_file by assumption.
    now rewrite Hra.
  - intros days Nl. rewrite get_liquidity_timeseries_on_file by assumption.
    now rewrite Hliq.
  - intros days tok0 tok1 Ns. rewrite get_swap_volume_timeseries_on_file by assumption.
    now apply Hvol.
Qed.

(** C7 on the file [init_db] makes of a missing one, before any event is
    stored, and on the file of [scenario_db], which holds events of
    [scenario_pool] only, for another pool and an unreachable node. *)
Lemma C7_empty_window_empty_results_on_initialised_file_witness :
  (OnFile.get_recent_activity (init_db empty_file) scenario_clock quiet_pool 48
     fresh_reader =
     (Ok {| ra_pool_address := quiet_pool;
            latest_add := None; latest_remove := None; latest_claim := None |},
      fresh_reader) /\
   OnFile.get_liquidity_timeseries (init_db empty_file) scenario_clock quiet_pool 7
     fresh_reader = (Ok [], fresh_reader)) /\
  OnFile.get_liquidity_timeseries (file_of scenario_db) scenario_clock quiet_pool 7
    fresh_reader = (Ok [], fresh_reader) /\
  OnFile.get_swap_volume_timeseries unreachable_w3 exact_div exact_sum
      (file_of scenario_db) scenario_clock quiet_pool "token0" "token1" 7 fresh_reader =
    (Ok [], fresh_reader).
Proof.
  destruct (C7_empty_window_empty_results_on_initialised_file
              unreachable_w3 Q exact_div exact_sum
              (init_db empty_file) scenario_clock quiet_pool fresh_reader
              (init_db_initialised empty_file)) as (Hra0 & Hliq0 & _).
  destruct (C7_empty_window_empty_results_on_initialised_file
              unreachable_w3 Q exact_div exact_sum
              (file_of scenario_db) scenario_clock quiet_pool fresh_reader
              (proj1 (file_of_initialised scenario_db))) as (_ & Hliq & Hvol).
  split; [split|split].
  - apply Hra0; intros r [].
  - apply Hliq0. intros r [].
  - apply Hliq. intros r [<-|[<-|[]]]; vm_compute; discriminate.
  - apply Hvol. intros r [].
Defined.

(** ** The decimals resolver *)

Lemma get_token_decimals_invalid w3 token s :
  to_checksum_address w3 token = None ->
  get_token_decimals w3 token s = (Raised, s).
Proof. intros H. unfold get_token_decimals. now rewrite H. Qed.

Lemma get_token_decimals_cached w3 token addr v s :
  to_checksum_address w3 token = Some addr ->
  _decimals_cache s !! addr = Some v ->
  get_token_decimals w3 token s = (Ok v, s).
Proof.
  intros Ha Hc. unfold get_token_decimals. rewrite Ha.
  unfold checked, bind, ret, cache_lookup. now rewrite Hc.
Qed.

Lemma get_token_decimals_first w3 token addr s :
  to_checksum_address w3 token = Some addr ->
  _decimals_cache s !! addr = None ->
  let d := default 18 (erc20_decimals w3 (length (decimals_calls s)) addr) in
  get_token_decimals w3 token s =
    (Ok d, {| _decimals_cache := <[addr := d]> (_decimals_cache s);
              decimals_calls := addr :: decimals_calls s |}).
Proof.
  intros Ha Hc. unfold get_token_decimals. rewrite Ha.
  unfold checked, bind, ret, cache_lookup. rewrite Hc.
  unfold try_catch, bind, call_decimals, cache_store, ret.
  now destruct (erc20_decimals w3 _ addr).
Qed.

(** Whatever the resolver is asked next, an entry of the cache stays. *)
Lemma get_token_decimals_keeps w3 token s addr v :
  _decimals_cache s !! addr = Some v ->
  _decimals_cache (snd (get_token_decimals w3 token s)) !! addr = Some v.
Proof.
  intros Hc.
  destruct (to_checksum_address w3 token) as [a|] eqn:Ha.
  - destruct (_decimals_cache s !! a) as [w|] eqn:Hw.
    + now rewrite (get_token_decimals_cached _ _ _ _ _ Ha Hw).
    + rewrite (get_token_decimals_first _ _ _ _ Ha Hw). simpl.
      rewrite lookup_insert_ne; [exact Hc|]. intros ->. congruence.
  - now rewrite get_token_decimals_invalid.
Qed.

Lemma resolve_many_keeps w3 tokens : forall s addr v,
  _decimals_cache s !! addr = Some v ->
  _decimals_cache (resolve_many w3 tokens s) !! addr = Some v.
Proof.
  induction tokens as [|t tokens IH]; intros s addr v Hc; [exact Hc|].
  simpl. apply IH. now apply get_token_decimals_keeps.
Qed.

Lemma get_token_decimals_caches w3 token addr s v s1 :
  to_checksum_address w3 token = Some addr ->
  get_token_decimals w3 token s = (Ok v, s1) ->
  _decimals_cache s1 !! addr = Some v.
Proof.
  intros Ha Hr.
  destruct (_decimals_cache s !! addr) as [w|] eqn:Hw.
  - rewrite (get_token_decimals_cached _ _ _ _ _ Ha Hw) in Hr.
    injection Hr as <- <-. exact Hw.
  - rewrite (get_token_decimals_first _ _ _ _ Ha Hw) in Hr.
    injection Hr as <- <-. simpl. apply lookup_insert_eq.
Qed.

(** C8. For a token address (one that web3 accepts, checksummed to
    [addr]): a call that finds no cache entry issues exactly one
    [decimals()] query, caches and returns its value on success, and caches
    and returns 18 when the query raises; a call that finds an entry
    returns it and issues no query; hence once a call has returned [v], every
    later call for the token in the same process returns [v] again, without
    a query and without changing the cache, whatever was resolved in
    between and whatever the node would answer now. *)
Theorem C8_decimals_cache_once_with_fallback :
  forall (w3 : Web3) (token addr : string),
    to_checksum_address w3 token = Some addr ->
    forall s : Reader,
      (_decimals_cache s !! addr = None ->
       (forall d,
           erc20_decimals w3 (length (decimals_calls s)) addr = Some d ->
           get_token_decimals w3 token s =
             (Ok d, {| _decimals_cache := <[addr := d]> (_decimals_cache s);
                       decimals_calls := addr :: decimals_calls s |})) /\
       (erc20_decimals w3 (length (decimals_calls s)) addr = None ->
        get_token_decimals w3 token s =
          (Ok 18, {| _decimals_cache := <[addr := 18]> (_decimals_cache s);
                     decimals_calls := addr :: decimals_calls s |}))) /\
      (forall v,
          _decimals_cache s !! addr = Some v ->
          get_token_decimals w3 token s = (Ok v, s)) /\
      (exists v s1, get_token_decimals w3 token s = (Ok v, s1)) /\
      (forall v s1 others,
          get_token_decimals w3 token s = (Ok v, s1) ->
          let s2 := resolve_many w3 others s1 in
          get_token_decimals w3 token s2 = (Ok v, s2)).
Proof.
  intros w3 token addr Ha s. split; [|split; [|split]].
  - intros Hc. split.
    + intros d Hd. rewrite (get_token_decimals_first _ _ _ _ Ha Hc). now rewrite Hd.
    + intros Hd. rewrite (get_token_decimals_first _ _ _ _ Ha Hc). now rewrite Hd.
  - intros v Hc. now apply get_token_decimals_cached with addr.
  - destruct (_decimals_cache s !! addr) as [w|] eqn:Hw.
    + exists w, s. now apply get_token_decimals_cached with addr.
    + eexists _, _. rewrite (get_token_decimals_first _ _ _ _ Ha Hw). reflexivity.
  - intros v s1 others Hr s2.
    apply get_token_decimals_cached with addr; [exact Ha|].
    apply resolve_many_keeps. now apply get_token_decimals_caches with w3 token s.
Qed.

(** C8 at [flaky_w3]: the first query for USDC fails, 18 is cached, and
    after WETH has been resolved (the node now answers 6) USDC is still 18. *)
Lemma C8_decimals_cache_once_with_fallback_witness :
  get_token_decimals flaky_w3 usdc fresh_reader =
    (Ok 18, {| _decimals_cache := <[usdc := 18]> ∅; decimals_calls := [usdc] |}) /\
  (let s1 := snd (get_token_decimals flaky_w3 usdc fresh_reader) in
   let s2 := resolve_many flaky_w3 [weth] s1 in
   fst (get_token_decimals flaky_w3 weth s1) = Ok 6 /\
   get_token_decimals flaky_w3 usdc s2 = (Ok 18, s2)).
Proof.
  pose proof (C8_decimals_cache_once_with_fallback flaky_w3 usdc usdc eq_refl
                fresh_reader) as (Hfirst & _ & _ & Hlater).
  assert (H1 : get_token_decimals flaky_w3 usdc fresh_reader =
               (Ok 18, {| _decimals_cache := <[usdc := 18]> ∅;
                          decimals_calls := [usdc] |})).
  { apply (proj2 (Hfirst eq_refl)). reflexivity. }
  split; [exact H1|].
  rewrite H1. cbn [snd]. split.
  - vm_compute. reflexivity.
  - apply (Hlater 18 _ [weth] H1).
Defined.

(** ** Grouping *)

Lemma groupby_snoc {A} (key : A -> Z) l x :
  groupby key (l ++ [x]) = group_insert (key x) x (groupby key l).
Proof. unfold groupby. now rewrite fold_left_app. Qed.

Lemma group_insert_keys {A} k (x : A) gs k' :
  In k' (map fst (group_insert k x gs)) <-> k' = k \/ In k' (map fst gs).
Proof.
  induction gs as [|[k0 g0] gs IH]; simpl.
  - intuition.
  - destruct (k <? k0) eqn:Hlt; [simpl; intuition|].
    destruct (k =? k0) eqn:Heq; simpl.
    + apply Z.eqb_eq in Heq. subst. intuition.
    + rewrite IH. intuition.
Qed.

Lemma group_insert_sorted {A} k (x : A) gs :
  StronglySorted Z.lt (map fst gs) ->
  StronglySorted Z.lt (map fst (group_insert k x gs)).
Proof.
  induction gs as [|[k0 g0] gs IH]; simpl; intros Hs.
  - repeat constructor.
  - inversion Hs as [|? ? Hs' Hall]; subst.
    destruct (k <? k0) eqn:Hlt; [|destruct (k =? k0) eqn:Heq]; simpl.
    + apply Z.ltb_lt in Hlt. constructor; [exact Hs|].
      constructor; [exact Hlt|].
      rewrite List.Forall_forall in Hall |- *. intros k' Hk'.
      specialize (Hall _ Hk'). lia.
    + now constructor.
    + apply Z.ltb_ge in Hlt. apply Z.eqb_neq in Heq.
      constructor; [now apply IH|].
      apply List.Forall_forall. intros k' Hk'. apply group_insert_keys in Hk'.
      destruct Hk' as [->|Hk']; [lia|].
      rewrite List.Forall_forall in Hall. now apply Hall.
Qed.

Lemma group_insert_In {A} k (x : A) gs k' g' :
  StronglySorted Z.lt (map fst gs) ->
  In (k', g') (group_insert k x gs) ->
  (k' <> k /\ In (k', g') gs) \/
  (k' = k /\ g' = [x] /\ ~ In k (map fst gs)) \/
  (k' = k /\ exists g, In (k, g) gs /\ g' = g ++ [x]).
Proof.
  induction gs as [|[k0 g0] gs IH]; simpl; intros Hs Hin.
  - destruct Hin as [[= <- <-]|[]]. right; left. intuition.
  - inversion Hs as [|? ? Hs' Hall]; subst. rewrite List.Forall_forall in Hall.
    destruct (k <? k0) eqn:Hlt; [|destruct (k =? k0) eqn:Heq].
    + apply Z.ltb_lt in Hlt. destruct Hin as [[= <- <-]|Hin].
      * right; left. split; [reflexivity|]. split; [reflexivity|].
        intros [<-|Hk]; [lia|]. specialize (Hall _ Hk). lia.
      * left. split; [|exact Hin].
        intros ->. assert (Hk : In k (map fst ((k0, g0) :: gs)))
          by (change k with (fst (k, g')); now apply in_map).
        destruct Hk as [Hk|Hk]; simpl in Hk; [lia|]. specialize (Hall _ Hk). lia.
    + apply Z.eqb_eq in Heq. subst k0. destruct Hin as [[= <- <-]|Hin].
      * right; right. split; [reflexivity|]. exists g0. intuition.
      * left. split; [|now right].
        intros ->. assert (Hk : In k (map fst gs))
          by (change k with (fst (k, g')); now apply in_map).
        specialize (Hall _ Hk). lia.
    + apply Z.ltb_ge in Hlt. apply Z.eqb_neq in Heq.
      destruct Hin as [[= <- <-]|Hin].
      * left. split; [congruence|now left].
      * destruct (IH Hs' Hin) as [[Hne Hi]|[(-> & -> & Hni)|(-> & g & Hi & ->)]].
        -- left. split; [exact Hne|now right].
        -- right; left. split; [reflexivity|]. split; [reflexivity|].
           intros [Hk|Hk]; simpl in Hk; [congruence|contradiction].
        -- right; right. split; [reflexivity|]. exists g. split; [now right|reflexivity].
Qed.

(** What [groupby] returns: strictly ascending keys, one group for each key
    that occurs, and in each group the rows of that key in frame order. *)
Lemma groupby_spec {A} (key : A -> Z) (l : list A) :
  StronglySorted Z.lt (map fst (groupby key l)) /\
  (forall k g, In (k, g) (groupby key l) ->
               g = List.filter (fun x => key x =? k) l /\ g <> []) /\
  (forall x, In x l -> In (key x) (map fst (groupby key l))).
Proof.
  induction l as [|x l (Hs & Hg & Hk)] using rev_ind.
  - split; [constructor|]. split; [intros k g []|intros x []].
  - rewrite groupby_snoc. split; [now apply group_insert_sorted|]. split.
    + intros k g Hin. rewrite List.filter_app. simpl.
      destruct (group_insert_In _ _ _ _ _ Hs Hin)
        as [[Hne Hi]|[(-> & -> & Hni)|(-> & g0 & Hi & ->)]].
      * destruct (Hg _ _ Hi) as [-> Hnn].
        assert (E : (key x =? k) = false) by (apply Z.eqb_neq; congruence).
        rewrite E, app_nil_r. now split.
      * rewrite Z.eqb_refl.
        assert (E : List.filter (fun y => key y =? key x) l = []).
        { apply filter_nil_by. intros y Hy. apply Z.eqb_neq. intros Heq.
          apply Hni. rewrite <- Heq. now apply Hk. }
        rewrite E. split; [reflexivity|discriminate].
      * rewrite Z.eqb_refl. destruct (Hg _ _ Hi) as [-> _].
        split; [reflexivity|]. intros H. now apply app_eq_nil in H as [_ [=]].
    + intros y Hy. apply group_insert_keys. apply in_app_or in Hy.
      destruct Hy as [Hy|[->|[]]]; [right; now apply Hk|now left].
Qed.

(** ** Hourly swap volume *)

Lemma get_token_decimals_total w3 token addr s :
  to_checksum_address w3 token = Some addr ->
  exists v s1, get_token_decimals w3 token s = (Ok v, s1).
Proof.
  intros Ha. destruct (_decimals_cache s !! addr) as [w|] eqn:Hw.
  - exists w, s. now apply get_token_decimals_cached with addr.
  - eexists _, _. rewrite (get_token_decimals_first _ _ _ _ Ha Hw). reflexivity.
Qed.

Lemma filter_map_comm {A B} (f : B -> bool) (h : A -> B) l :
  List.filter f (map h l) = map h (List.filter (fun x => f (h x)) l).
Proof.
  induction l as [|x l IH]; simpl; [reflexivity|].
  destruct (f (h x)); simpl; now rewrite IH.
Qed.

Lemma groupby_sum_spec {float} (truediv : Z -> Z -> float) (fsum : list float -> float)
      (scale0 scale1 : Z) (rows : list SwapEvent.t) :
  let out := groupby_sum fsum (map (volume_record truediv scale0 scale1) rows) in
  StronglySorted Z.lt (map vol_time out) /\
  (forall h, In h (map vol_time out) <->
             exists r, In r rows /\ hour_bucket (SwapEvent.block_time r) = h) /\
  (forall row, In row out ->
     token0_volume row =
       fsum (map (fun r => truediv (SwapEvent.amount0_in r + SwapEvent.amount0_out r) scale0)
                 (in_bucket (vol_time row) rows)) /\
     token1_volume row =
       fsum (map (fun r => truediv (SwapEvent.amount1_in r + SwapEvent.amount1_out r) scale1)
                 (in_bucket (vol_time row) rows))).
Proof.
  intros out. subst out. unfold groupby_sum.
  set (records := map (volume_record truediv scale0 scale1) rows).
  destruct (groupby_spec vol_time records) as (Hs & Hg & Hk).
  assert (Hkeys : forall gs : list (Z * list (VolumeRow float)),
             map vol_time
               (map (fun kg : Z * list (VolumeRow float) =>
                       {| vol_time := fst kg;
                          token0_volume := fsum (map token0_volume (snd kg));
                          token1_volume := fsum (map token1_volume (snd kg)) |}) gs)
             = map fst gs).
  { intros gs. rewrite map_map. reflexivity. }
  rewrite Hkeys. split; [exact Hs|]. split.
  - intros h. split.
    + intros Hin. apply in_map_iff in Hin as ([k g] & <- & Hin). simpl.
      destruct (Hg _ _ Hin) as [Hgeq Hnn].
      destruct g as [|v g]; [congruence|].
      assert (Hv : In v (List.filter (fun x => vol_time x =? k) records))
        by (rewrite <- Hgeq; now left).
      apply filter_In in Hv as [Hv Hvk]. apply Z.eqb_eq in Hvk.
      apply in_map_iff in Hv as (r & <- & Hr). exists r. split; [exact Hr|exact Hvk].
    + intros (r & Hr & <-).
      apply (Hk (volume_record truediv scale0 scale1 r)). now apply in_map.
  - intros row Hrow. apply in_map_iff in Hrow as ([k g] & <- & Hin). simpl.
    destruct (Hg _ _ Hin) as [-> _]. unfold records, in_bucket.
    rewrite filter_map_comm, !map_map. split; reflexivity.
Qed.

Lemma hour_bucket_truncates ts :
  hour_bucket ts mod 3600 = 0 /\ hour_bucket ts <= ts < hour_bucket ts + 3600.
Proof.
  unfold hour_bucket. pose proof (Z.mod_pos_bound ts 3600 ltac:(lia)) as Hm.
  split; [|lia].
  rewrite Zminus_mod, Z.mod_mod, Z.sub_diag by lia. reflexivity.
Qed.

(** C4. [get_swap_volume_timeseries] reads the pool's swaps of the lookback
    window, obtains the decimals [dec0], [dec1] of the two tokens from the
    resolver, and returns one row per hour bucket that holds a swap, in
    strictly ascending bucket order; a swap at [block_time] belongs to the
    bucket [block_time - block_time mod 3600], the last whole hour at or
    before it; the row of a bucket holds, per
    token, the sum over the swaps of that bucket of the quotient
    [(amount_in + amount_out) / 10^dec]. Quotient and sum are Python's float
    division of two integers and pandas' column sum, over which the
    statement is generic. *)
Theorem C4_swap_volume_hourly_buckets :
  forall (w3 : Web3) (float : Type) (truediv : Z -> Z -> float)
         (fsum : list float -> float)
         (d : DB) (clock : Clock)
         (pool_address token0_address token1_address : string)
         (lookback_days : Z) (s : Reader) (addr0 addr1 : string),
    to_checksum_address w3 token0_address = Some addr0 ->
    to_checksum_address w3 token1_address = Some addr1 ->
    let since := since_ts clock (lookback_days * 86400) in
    let rows := swap_rows d (lower pool_address) since in
    exists dec0 s0 dec1 s1 out,
      get_token_decimals w3 token0_address s = (Ok dec0, s0) /\
      get_token_decimals w3 token1_address s0 = (Ok dec1, s1) /\
      get_swap_volume_timeseries w3 truediv fsum d clock pool_address
          token0_address token1_address lookback_days s =
        (Ok out, match rows with [] => s | _ :: _ => s1 end) /\
      Permutation rows
        (List.filter
           (fun r => String.eqb (SwapEvent.pool_address r) (lower pool_address)
                     && (since <=? SwapEvent.block_time r))
           (pool_swaps d)) /\
      StronglySorted Z.lt (map vol_time out) /\
      (forall h, In h (map vol_time out) <->
                 exists r, In r rows /\ hour_bucket (SwapEvent.block_time r) = h) /\
      (forall row, In row out ->
         token0_volume row =
           fsum (map (fun r => truediv (SwapEvent.amount0_in r + SwapEvent.amount0_out r)
                                       (10 ^ dec0))
                     (in_bucket (vol_time row) rows)) /\
         token1_volume row =
           fsum (map (fun r => truediv (SwapEvent.amount1_in r + SwapEvent.amount1_out r)
                                       (10 ^ dec1))
                     (in_bucket (vol_time row) rows))) /\
      (forall ts, hour_bucket ts mod 3600 = 0 /\
                  hour_bucket ts <= ts < hour_bucket ts + 3600).
Proof.
  intros w3 float truediv fsum d clock pool tok0 tok1 days s addr0 addr1 H0 H1
         since rows.
  destruct (get_token_decimals_total _ _ _ s H0) as (dec0 & s0 & Hd0).
  destruct (get_token_decimals_total _ _ _ s0 H1) as (dec1 & s1 & Hd1).
  exists dec0, s0, dec1, s1,
    (groupby_sum fsum (map (volume_record truediv (10 ^ dec0) (10 ^ dec1)) rows)).
  split; [exact Hd0|]. split; [exact Hd1|]. split.
  - unfold get_swap_volume_timeseries. fold since. fold rows.
    destruct rows as [|r rows']; [reflexivity|].
    unfold bind. rewrite Hd0, Hd1. reflexivity.
  - split; [apply order_by_perm|].
    destruct (groupby_sum_spec truediv fsum (10 ^ dec0) (10 ^ dec1) rows)
      as (Hs & Hk & Hv).
    split; [exact Hs|]. split; [exact Hk|]. split; [exact Hv|].
    apply hour_bucket_truncates.
Qed.

(** C4 at [swaps_db] with exact rational arithmetic and six decimals: two
    rows, for the hours starting at 3600 and at 7200. *)
Lemma C4_swap_volume_hourly_buckets_witness :
  exists out s',
    get_swap_volume_timeseries steady_w3 exact_div exact_sum swaps_db scenario_clock
        scenario_pool usdc weth 7 fresh_reader = (Ok out, s') /\
    map vol_time out = [3600; 7200] /\
    map (fun row => Qeq_bool (token0_volume row) (4 # 1)) out = [true; false] /\
    map (fun row => Qeq_bool (token0_volume row) (3 # 1)) out = [false; true].
Proof.
  destruct (C4_swap_volume_hourly_buckets steady_w3 Q exact_div exact_sum swaps_db
              scenario_clock scenario_pool usdc weth 7 fresh_reader usdc weth
              eq_refl eq_refl)
    as (dec0 & s0 & dec1 & s1 & out & Hd0 & Hd1 & Hout & _).
  exists out, s1.
  split; [exact Hout|].
  assert (E : get_swap_volume_timeseries steady_w3 exact_div exact_sum swaps_db
                scenario_clock scenario_pool usdc weth 7 fresh_reader =
              (Ok out, s1)) by exact Hout.
  vm_compute in E. injection E as <- _. vm_compute. repeat split.
Defined.

(** ** The indexer: loops *)

Lemma for_each_cons {S A} (x : A) l (body : A -> M S unit) s :
  for_each (x :: l) body s =
  match body x s with
  | (Ok _, s1) => for_each l body s1
  | (Raised, s1) => (Raised, s1)
  end.
Proof. reflexivity. Qed.

(** A loop whose body never raises: an invariant indexed by the items
    already processed. *)
Lemma for_each_total_inv {S A} (body : A -> M S unit)
      (I : list A -> S -> Prop) :
  forall l pre s,
    (forall x s1, fst (body x s1) = Ok tt) ->
    (forall done x rest s1,
        done ++ x :: rest = pre ++ l ->
        I done s1 -> I (done ++ [x]) (snd (body x s1))) ->
    I pre s ->
    fst (for_each l body s) = Ok tt /\ I (pre ++ l) (snd (for_each l body s)).
Proof.
  induction l as [|x l IH]; intros pre s Hok Hstep Hpre.
  - simpl. rewrite app_nil_r. now split.
  - rewrite for_each_cons. specialize (Hok x s) as Hx.
    assert (Hs1 : I (pre ++ [x]) (snd (body x s)))
      by (apply (Hstep pre x l); [reflexivity|exact Hpre]).
    destruct (body x s) as [[[]|] s1] eqn:E; simpl in Hx, Hs1; [|discriminate].
    replace (pre ++ x :: l) with ((pre ++ [x]) ++ l) by now rewrite <- app_assoc.
    apply IH; [exact Hok| |exact Hs1].
    intros done y rest s2 Heq. apply (Hstep done y rest).
    rewrite Heq, <- app_assoc. reflexivity.
Qed.

Lemma bind_inv {S A B} (m : M S A) (k : A -> M S B) s res s' :
  bind m k s = (res, s') ->
  (exists a s1, m s = (Ok a, s1) /\ k a s1 = (res, s')) \/
  (m s = (Raised, s') /\ res = Raised).
Proof.
  unfold bind. destruct (m s) as [[a|] s1]; intros H.
  - left. now exists a, s1.
  - right. now injection H as <- <-.
Qed.

Lemma rpc_inv {A} (call : nat -> option A) s res s' :
  rpc call s = (res, s') ->
  conn s' = conn s /\ rpc_clock s' = S (rpc_clock s) /\
  match res with
  | Ok a => call (rpc_clock s) = Some a
  | Raised => call (rpc_clock s) = None
  end.
Proof.
  unfold rpc. intros [= <- <-]. simpl.
  destruct (call (rpc_clock s)); auto.
Qed.

(** ** The indexer: what the inserts do to the tables *)

Lemma inserts_liquidity rows : forall d,
  pool_liquidity_events (inserts insert_liquidity rows d) = pool_liquidity_events d ++ rows /\
  pool_swaps (inserts insert_liquidity rows d) = pool_swaps d /\
  pool_fee_claims (inserts insert_liquidity rows d) = pool_fee_claims d /\
  indexer_state (inserts insert_liquidity rows d) = indexer_state d.
Proof.
  induction rows as [|r rows IH]; intros d; simpl.
  - now rewrite app_nil_r.
  - destruct (IH (insert_liquidity r d)) as (-> & -> & -> & ->). simpl.
    now rewrite <- app_assoc.
Qed.

Lemma inserts_swap rows : forall d,
  pool_liquidity_events (inserts insert_swap rows d) = pool_liquidity_events d /\
  pool_swaps (inserts insert_swap rows d) = pool_swaps d ++ rows /\
  pool_fee_claims (inserts insert_swap rows d) = pool_fee_claims d /\
  indexer_state (inserts insert_swap rows d) = indexer_state d.
Proof.
  induction rows as [|r rows IH]; intros d; simpl.
  - now rewrite app_nil_r.
  - destruct (IH (insert_swap r d)) as (-> & -> & -> & ->). simpl.
    now rewrite <- app_assoc.
Qed.

Lemma inserts_claim rows : forall d,
  pool_liquidity_events (inserts insert_claim rows d) = pool_liquidity_events d /\
  pool_swaps (inserts insert_claim rows d) = pool_swaps d /\
  pool_fee_claims (inserts insert_claim rows d) = pool_fee_claims d ++ rows /\
  indexer_state (inserts insert_claim rows d) = indexer_state d.
Proof.
  induction rows as [|r rows IH]; intros d; simpl.
  - now rewrite app_nil_r.
  - destruct (IH (insert_claim r d)) as (-> & -> & -> & ->). simpl.
    now rewrite <- app_assoc.
Qed.

Lemma indexed_all_prefix w3 {L R} (bn : L -> Z) (mk : L -> Z -> R) get rows :
  indexed_all w3 bn mk get rows -> indexed_prefix w3 bn mk get rows.
Proof.
  intros (t & logs & Hget & Hf). right. exists t, logs. split; [exact Hget|].
  assert (Hlen : length rows = length logs) by (eapply Forall2_length; exact Hf).
  rewrite Hlen, firstn_all. exact Hf.
Qed.

(** ** The indexer: one decoding loop *)

Lemma insert_loop_spec (w3 : Web3) {L R} (bn : L -> Z) (mk : L -> Z -> R)
      (ins : R -> DB -> DB) :
  forall evs s res s',
    for_each evs
      (fun ev => bind (get_block_timestamp w3 (bn ev))
                      (fun ts => execute (ins (mk ev ts)))) s = (res, s') ->
    exists rows,
      working (conn s') = inserts ins rows (working (conn s)) /\
      committed (conn s') = committed (conn s) /\
      Forall2 (decodes w3 bn mk) rows (firstn (length rows) evs) /\
      (res = Ok tt -> length rows = length evs) /\
      (res = Raised -> exists t n, eth_get_block_timestamp w3 t n = None).
Proof.
  induction evs as [|ev evs IH]; intros s res s' H.
  - injection H as <- <-. exists []. repeat split; [constructor|discriminate].
  - rewrite for_each_cons in H. unfold bind, get_block_timestamp, rpc in H.
    destruct (eth_get_block_timestamp w3 (rpc_clock s) (bn ev)) as [ts|] eqn:E.
    + unfold execute in H. cbn [conn rpc_clock] in H.
      apply IH in H as (rows & Hw & Hc & Hf & Hok & Hr).
      exists (mk ev ts :: rows). cbn [conn working committed] in Hw, Hc.
      split; [exact Hw|]. split; [exact Hc|]. split; [|split].
      * cbn [length firstn]. constructor; [|exact Hf]. now exists (rpc_clock s), ts.
      * intros Hres. cbn [length]. now rewrite (Hok Hres).
      * exact Hr.
    + injection H as <- <-. exists []. cbn.
      repeat split; [constructor|discriminate|]. intros _. now exists (rpc_clock s), (bn ev).
Qed.

(** A request for logs followed by its decoding loop, then [rest]. *)
Lemma phase_spec (w3 : Web3) {L R} (bn : L -> Z) (mk : L -> Z -> R)
      (ins : R -> DB -> DB) (get : nat -> option (list L))
      (rest : M Indexer unit) s res s' :
  bind (rpc get)
       (fun evs =>
          bind (for_each evs
                  (fun ev => bind (get_block_timestamp w3 (bn ev))
                                  (fun ts => execute (ins (mk ev ts)))))
               (fun _ => rest)) s = (res, s') ->
  exists rows s1,
    working (conn s1) = inserts ins rows (working (conn s)) /\
    committed (conn s1) = committed (conn s) /\
    indexed_prefix w3 bn mk get rows /\
    ((rest s1 = (res, s') /\ indexed_all w3 bn mk get rows) \/
     (res = Raised /\ s' = s1 /\
      ((exists t, get t = None) \/
       (exists t n, eth_get_block_timestamp w3 t n = None)))).
Proof.
  intros H. apply bind_inv in H as [(evs & s0 & H0 & H)|[H0 ->]].
  - apply rpc_inv in H0 as (Hconn & _ & Hget).
    apply bind_inv in H as [([] & s1 & H1 & H)|[H1 ->]].
    + apply insert_loop_spec in H1 as (rows & Hw & Hc & Hf & Hok & _).
      specialize (Hok eq_refl).
      assert (Hall : indexed_all w3 bn mk get rows).
      { exists (rpc_clock s), evs. split; [exact Hget|].
        now rewrite Hok, firstn_all in Hf. }
      exists rows, s1. rewrite Hconn in Hw, Hc.
      split; [exact Hw|]. split; [exact Hc|].
      split; [now apply indexed_all_prefix|]. left. now split.
    + apply insert_loop_spec in H1 as (rows & Hw & Hc & Hf & _ & Hr).
      exists rows, s'. rewrite Hconn in Hw, Hc.
      split; [exact Hw|]. split; [exact Hc|]. split.
      * right. now exists (rpc_clock s), evs.
      * right. split; [reflexivity|]. split; [reflexivity|]. right. now apply Hr.
  - apply rpc_inv in H0 as (Hconn & _ & Hget).
    exists [], s'. rewrite Hconn. cbn.
    split; [reflexivity|]. split; [reflexivity|]. split; [now left|].
    right. split; [reflexivity|]. split; [reflexivity|]. left. now exists (rpc_clock s).
Qed.

(** ** The indexer: one pool in one window *)

Lemma pool_indexed_intro w3 pool addr a b s res s' A B C D :
  working (conn s') =
    inserts insert_claim D
      (inserts insert_swap C
         (inserts insert_liquidity B
            (inserts insert_liquidity A (working (conn s))))) ->
  committed (conn s') =
    match res with Ok _ => working (conn s') | Raised => committed (conn s) end ->
  indexed_prefix w3 MintBurnLog.blockNumber (mint_row pool)
    (fun t => Mint_get_logs w3 t addr a b) A ->
  indexed_prefix w3 MintBurnLog.blockNumber (burn_row pool)
    (fun t => Burn_get_logs w3 t addr a b) B ->
  indexed_prefix w3 SwapLog.blockNumber (swap_row pool)
    (fun t => Swap_get_logs w3 t addr a b) C ->
  indexed_prefix w3 ClaimLog.blockNumber (claim_row pool)
    (fun t => Claim_get_logs w3 t addr a b) D ->
  (res = Ok tt ->
   indexed_all w3 MintBurnLog.blockNumber (mint_row pool)
     (fun t => Mint_get_logs w3 t addr a b) A /\
   indexed_all w3 MintBurnLog.blockNumber (burn_row pool)
     (fun t => Burn_get_logs w3 t addr a b) B /\
   indexed_all w3 SwapLog.blockNumber (swap_row pool)
     (fun t => Swap_get_logs w3 t addr a b) C /\
   indexed_all w3 ClaimLog.blockNumber (claim_row pool)
     (fun t => Claim_get_logs w3 t addr a b) D) ->
  (res = Raised -> call_failed w3 addr a b) ->
  pool_indexed w3 pool addr a b s res s' A B C D.
Proof.
  intros Hw Hc HA HB HC HD Hall Hfail.
  set (w := working (conn s)) in *.
  destruct (inserts_liquidity A w) as (A1 & A2 & A3 & A4).
  destruct (inserts_liquidity B (inserts insert_liquidity A w)) as (B1 & B2 & B3 & B4).
  destruct (inserts_swap C (inserts insert_liquidity B (inserts insert_liquidity A w)))
    as (C1 & C2 & C3 & C4).
  destruct (inserts_claim D
              (inserts insert_swap C
                 (inserts insert_liquidity B (inserts insert_liquidity A w))))
    as (D1 & D2 & D3 & D4).
  constructor; try assumption; rewrite Hw.
  - now rewrite D1, C1, B1, A1, <- app_assoc.
  - now rewrite D2, C2, B2, A2.
  - now rewrite D3, C3, B3, A3.
  - now rewrite D4, C4, B4, A4.
Qed.

Lemma index_pool_events_invalid w3 pool a b s :
  to_checksum_address w3 pool = None ->
  index_pool_events w3 pool a b s = (Raised, s).
Proof. intros H. unfold index_pool_events. now rewrite H. Qed.

Lemma index_pool_events_spec w3 pool addr a b s res s' :
  to_checksum_address w3 pool = Some addr ->
  index_pool_events w3 pool a b s = (res, s') ->
  exists A B C D, pool_indexed w3 pool addr a b s res s' A B C D.
Proof.
  intros Ha H. unfold index_pool_events in H. rewrite Ha in H.
  apply bind_inv in H as [(addr' & s0 & H0 & H)|[[=] _]].
  injection H0 as <- <-.
  apply (phase_spec w3 MintBurnLog.blockNumber (mint_row pool) insert_liquidity
           (fun t => Mint_get_logs w3 t addr a b)) in H
    as (A & s1 & Hw1 & Hc1 & HpA & [[H HaA]|(-> & -> & Hf)]).
  2:{ exists A, [], [], []. apply pool_indexed_intro; cbn [inserts fold_left];
      try assumption; try (now left); try discriminate.
      intros _. unfold call_failed. destruct Hf; tauto. }
  apply (phase_spec w3 MintBurnLog.blockNumber (burn_row pool) insert_liquidity
           (fun t => Burn_get_logs w3 t addr a b)) in H
    as (B & s2 & Hw2 & Hc2 & HpB & [[H HaB]|(-> & -> & Hf)]).
  2:{ exists A, B, [], []. apply pool_indexed_intro; cbn [inserts fold_left];
      try assumption; try (now left); try discriminate.
      - now rewrite Hw2, Hw1.
      - now rewrite Hc2.
      - intros _. unfold call_failed. destruct Hf; tauto. }
  apply (phase_spec w3 SwapLog.blockNumber (swap_row pool) insert_swap
           (fun t => Swap_get_logs w3 t addr a b)) in H
    as (C & s3 & Hw3 & Hc3 & HpC & [[H HaC]|(-> & -> & Hf)]).
  2:{ exists A, B, C, []. apply pool_indexed_intro; cbn [inserts fold_left];
      try assumption; try (now left); try discriminate.
      - now rewrite Hw3, Hw2, Hw1.
      - now rewrite Hc3, Hc2.
      - intros _. unfold call_failed. destruct Hf; tauto. }
  apply (phase_spec w3 ClaimLog.blockNumber (claim_row pool) insert_claim
           (fun t => Claim_get_logs w3 t addr a b)) in H
    as (D & s4 & Hw4 & Hc4 & HpD & [[H HaD]|(-> & -> & Hf)]).
  2:{ exists A, B, C, D. apply pool_indexed_intro;
      try assumption; try (now left); try discriminate.
      - now rewrite Hw4, Hw3, Hw2, Hw1.
      - now rewrite Hc4, Hc3, Hc2.
      - intros _. unfold call_failed. destruct Hf; tauto. }
  injection H as <- <-. cbn [conn working committed].
  exists A, B, C, D. apply pool_indexed_intro; cbn [conn working committed];
    try assumption; try discriminate.
  - now rewrite Hw4, Hw3, Hw2, Hw1.
  - reflexivity.
  - now intros _.
Qed.

(** ** The indexer: windows *)

Lemma range_nil from stop st : 0 < st -> stop <= from -> range from stop st = [].
Proof.
  intros Hst Hle. unfold range.
  replace (Z.to_nat ((stop - from + st - 1) / st)) with 0%nat; [reflexivity|].
  assert ((stop - from + st - 1) / st <= 0); [|lia].
  assert ((stop - from + st - 1) / st < 1); [|lia].
  apply Z.div_lt_upper_bound; lia.
Qed.

Lemma range_unfold from stop st :
  0 < st -> from < stop -> range from stop st = from :: range (from + st) stop st.
Proof.
  intros Hst Hlt. unfold range.
  replace (stop - from + st - 1) with ((stop - (from + st) + st - 1) + 1 * st) by lia.
  rewrite Z.div_add by lia.
  assert (Hq : 0 <= (stop - (from + st) + st - 1) / st) by (apply Z.div_pos; lia).
  rewrite Z2Nat.inj_add by lia.
  change (Z.to_nat 1) with 1%nat. rewrite Nat.add_comm. cbn [Nat.add seq map].
  f_equal; [lia|].
  rewrite <- seq_shift, map_map. apply map_ext. intros i. lia.
Qed.

(** Induction over the windows of a scan: [J b s] reads "every block up to
    [b] has been attempted". *)
Lemma scan_inv {S} (body : Z -> M S unit) (J : Z -> S -> Prop) (from0 cur : Z) :
  (forall start s,
      from0 <= start <= cur -> J (start - 1) s ->
      fst (body start s) = Ok tt /\ J (window_end cur start) (snd (body start s))) ->
  forall (n : nat) from s,
    (Z.to_nat (cur + 1 - from) <= n)%nat ->
    from0 <= from <= cur + 1 ->
    J (from - 1) s ->
    fst (for_each (range from (cur + 1) step) body s) = Ok tt /\
    J cur (snd (for_each (range from (cur + 1) step) body s)).
Proof.
  intros Hbody. induction n as [|n IH]; intros from s Hn Hfrom HJ.
  - rewrite range_nil by (unfold step; lia).
    replace cur with (from - 1) by lia. now split.
  - destruct (Z.eq_dec from (cur + 1)) as [->|Hne].
    + rewrite range_nil by (unfold step; lia).
      replace (cur + 1 - 1) with cur in HJ by lia. now split.
    + rewrite range_unfold by (unfold step; lia). rewrite for_each_cons.
      destruct (Hbody from s ltac:(lia) HJ) as [Hok HJ1].
      destruct (body from s) as [[[]|] s1]; simpl in Hok, HJ1; [|discriminate].
      unfold window_end in HJ1.
      destruct (Z_le_gt_dec cur (from + step - 1)) as [Hlast|Hmore].
      * rewrite Z.min_r in HJ1 by lia.
        rewrite range_nil by (unfold step in *; lia). now split.
      * rewrite Z.min_l in HJ1 by lia.
        apply IH; [unfold step in *; lia|unfold step in *; lia|].
        exact HJ1.
Qed.

Lemma grows_refl d : grows d d.
Proof. repeat split; exists []; now rewrite app_nil_r. Qed.

Lemma grows_trans d1 d2 d3 : grows d1 d2 -> grows d2 d3 -> grows d1 d3.
Proof.
  intros ([A1 HA1] & [C1 HC1] & [D1 HD1]) ([A2 HA2] & [C2 HC2] & [D2 HD2]).
  repeat split.
  - exists (A1 ++ A2). now rewrite HA2, HA1, app_assoc.
  - exists (C1 ++ C2). now rewrite HC2, HC1, app_assoc.
  - exists (D1 ++ D2). now rewrite HD2, HD1, app_assoc.
Qed.

(** One guarded attempt [try: index_pool_events(...) except Exception]. *)
Lemma attempt_spec w3 pool a b s :
  exists s',
    try_except (index_pool_events w3 pool a b) s = (Ok tt, s') /\
    ((to_checksum_address w3 pool = None /\ s' = s) \/
     (exists addr res A B C D,
         to_checksum_address w3 pool = Some addr /\
         index_pool_events w3 pool a b s = (res, s') /\
         pool_indexed w3 pool addr a b s res s' A B C D)).
Proof.
  unfold try_except, try_catch.
  destruct (to_checksum_address w3 pool) as [addr|] eqn:Ha.
  - destruct (index_pool_events w3 pool a b s) as [res s'] eqn:E.
    destruct (index_pool_events_spec _ _ _ _ _ _ _ _ Ha E) as (A & B & C & D & Hpi).
    exists s'. split; [now destruct res as [[]|]|].
    right. now exists addr, res, A, B, C, D.
  - rewrite index_pool_events_invalid by exact Ha. exists s. split; [reflexivity|now left].
Qed.

Lemma attempt_frame w3 pool a b s :
  let r := try_except (index_pool_events w3 pool a b) s in
  fst r = Ok tt /\
  indexer_state (working (conn (snd r))) = indexer_state (working (conn s)) /\
  grows (working (conn s)) (working (conn (snd r))).
Proof.
  destruct (attempt_spec w3 pool a b s) as (s' & -> & [[_ ->]|Hpi]); cbn.
  - split; [reflexivity|]. split; [reflexivity|apply grows_refl].
  - destruct Hpi as (addr & res & A & B & C & D & _ & _ & Hpi).
    split; [reflexivity|]. split; [apply Hpi|].
    repeat split; eexists; apply Hpi.
Qed.

(** The pool loop of one window. *)
Lemma pool_loop_frame w3 pools a b s :
  let r := for_each pools (fun pool => try_except (index_pool_events w3 pool a b)) s in
  fst r = Ok tt /\
  indexer_state (working (conn (snd r))) = indexer_state (working (conn s)) /\
  grows (working (conn s)) (working (conn (snd r))).
Proof.
  apply (for_each_total_inv
           (fun pool => try_except (index_pool_events w3 pool a b))
           (fun _ s1 => indexer_state (working (conn s1)) = indexer_state (working (conn s))
                        /\ grows (working (conn s)) (working (conn s1)))
           pools [] s).
  - intros x s1. apply attempt_frame.
  - intros done x rest s1 _ [Hst Hg].
    destruct (attempt_frame w3 x a b s1) as (_ & Hst' & Hg').
    split; [now rewrite Hst'|]. eapply grows_trans; eassumption.
  - split; [reflexivity|apply grows_refl].
Qed.

Lemma index_window_spec w3 pools cur start s :
  exists s',
    index_window w3 pools cur start s = (Ok tt, s') /\
    clean s' /\
    indexer_state (working (conn s')) = Some (window_end cur start) /\
    grows (working (conn s)) (working (conn s')).
Proof.
  unfold index_window, bind.
  destruct (pool_loop_frame w3 pools start (Z.min (start + step - 1) cur) s)
    as (Hok & _ & Hg).
  destruct (for_each pools _ s) as [[[]|] s1]; simpl in Hok, Hg; [|discriminate].
  eexists. split; [reflexivity|]. unfold clean. cbn.
  split; [reflexivity|]. split; [reflexivity|].
  destruct Hg as (HA & HC & HD). repeat split; assumption.
Qed.

(** A scan from a clean connection whose checkpoint is below the head. *)
Lemma scan_spec w3 pools cur from s :
  from <= cur ->
  clean s ->
  exists s',
    for_each (range from (cur + 1) step) (index_window w3 pools cur) s = (Ok tt, s') /\
    clean s' /\
    indexer_state (working (conn s')) = Some cur /\
    grows (working (conn s)) (working (conn s')).
Proof.
  intros Hfrom Hclean.
  destruct (scan_inv (index_window w3 pools cur)
              (fun b s1 => clean s1 /\ grows (working (conn s)) (working (conn s1)) /\
                           (from <= b -> indexer_state (working (conn s1)) = Some b))
              from cur) with (n := Z.to_nat (cur + 1 - from)) (from := from) (s := s)
    as (Hok & Hc & Hg & Hst).
  - intros start s1 Hstart (_ & Hg & _).
    destruct (index_window_spec w3 pools cur start s1) as (s2 & -> & Hc2 & Hst2 & Hg2).
    cbn. split; [reflexivity|]. split; [exact Hc2|].
    split; [eapply grows_trans; eassumption|]. now intros _.
  - lia.
  - lia.
  - split; [exact Hclean|]. split; [apply grows_refl|]. intros; lia.
  - destruct (for_each _ _ s) as [[[]|] s']; simpl in *; [|discriminate].
    exists s'. split; [reflexivity|]. split; [exact Hc|]. split; [now apply Hst|exact Hg].
Qed.

(** ** The indexer: one run *)

Lemma run_cases w3 pools d t :
  match eth_block_number w3 t with
  | None => run w3 pools d t = (Raised, d, S t)
  | Some cur =>
      match eth_block_number w3 (S t) with
      | None => run w3 pools d t = (Raised, d, S (S t))
      | Some head =>
          let from := match indexer_state d with
                      | Some last_block => last_block
                      | None => Z.max 0 (head - 200000)
                      end in
          let d0 := match indexer_state d with
                    | Some _ => d
                    | None => replace_state from d
                    end in
          if from >=? cur then run w3 pools d t = (Ok tt, d0, S (S t))
          else
            exists res s',
              for_each (range from (cur + 1) step) (index_window w3 pools cur)
                       {| conn := connect d0; rpc_clock := S (S t) |} = (res, s') /\
              run w3 pools d t = (res, committed (conn s'), rpc_clock s')
      end
  end.
Proof.
  unfold run, main, get_start_block, bind, rpc, select, execute, commit, close, ret.
  cbn [conn rpc_clock connect working committed].
  destruct (eth_block_number w3 t) as [cur|]; [|reflexivity].
  destruct (eth_block_number w3 (S t)) as [head|]; [|reflexivity].
  destruct (indexer_state d) as [lb|] eqn:Hd; cbn [conn rpc_clock working committed].
  - destruct (lb >=? cur); [reflexivity|].
    destruct (for_each _ _ _) as [[[]|] s']; eexists _, _; split; reflexivity.
  - destruct (Z.max 0 (head - 200000) >=? cur); [reflexivity|].
    destruct (for_each _ _ _) as [[[]|] s']; eexists _, _; split; reflexivity.
Qed.

Lemma range_In from stop st x :
  0 < st -> In x (range from stop st) -> from <= x < stop.
Proof.
  intros Hst Hin. unfold range in Hin.
  apply in_map_iff in Hin as (i & <- & Hi). apply in_seq in Hi.
  set (q := (stop - from + st - 1) / st) in *.
  assert (Hq : q * st <= stop - from + st - 1)
    by (rewrite Z.mul_comm; apply Z.mul_div_le; lia).
  assert (Hi' : Z.of_nat i + 1 <= q) by lia.
  split; [nia|]. nia.
Qed.

Lemma map_seq_sorted (g : nat -> Z) :
  (forall i j, (i <= j)%nat -> g i <= g j) ->
  forall n a, StronglySorted Z.le (map g (seq a n)).
Proof.
  intros Hg. induction n as [|n IH]; intros a; cbn [seq map]; constructor.
  - apply IH.
  - apply List.Forall_forall. intros y Hy.
    apply in_map_iff in Hy as (j & <- & Hj). apply in_seq in Hj. apply Hg. lia.
Qed.

(** The values one run writes to the checkpoint, after the value it
    started from, never decrease. *)
Lemma window_ends_sorted from cur :
  StronglySorted Z.le (from :: map (window_end cur) (range from (cur + 1) step)).
Proof.
  constructor.
  - unfold range. rewrite map_map. apply map_seq_sorted.
    intros i j Hij. unfold window_end, step. nia.
  - apply List.Forall_forall. intros e He.
    apply in_map_iff in He as (x & <- & Hx).
    apply range_In in Hx; [|unfold step; lia]. unfold window_end, step. lia.
Qed.

Lemma checkpoint_le_refl a : checkpoint_le a a.
Proof. destruct a; simpl; [lia|exact I]. Qed.

Lemma checkpoint_le_trans a b c :
  checkpoint_le a b -> checkpoint_le b c -> checkpoint_le a c.
Proof. destruct a, b, c; simpl; try tauto; lia. Qed.

(** What a run leaves behind, by cases on the stored checkpoint and the
    two reads of the head. *)
Lemma run_noop w3 pools d t last_block :
  indexer_state d = Some last_block ->
  (forall cur, eth_block_number w3 t = Some cur -> last_block >= cur) ->
  db_after (run w3 pools d t) = d /\
  (is_Some (eth_block_number w3 t) -> is_Some (eth_block_number w3 (S t)) ->
   outcome (run w3 pools d t) = Ok tt).
Proof.
  intros Hd Hhead. pose proof (run_cases w3 pools d t) as H.
  destruct (eth_block_number w3 t) as [cur|]; [|rewrite H; split; [reflexivity|]].
  2:{ intros [? [=]]. }
  destruct (eth_block_number w3 (S t)) as [head|]; [|rewrite H; split; [reflexivity|]].
  2:{ intros _ [? [=]]. }
  rewrite Hd in H. cbn zeta in H.
  assert (E : (last_block >=? cur) = true) by (apply Z.geb_le; specialize (Hhead cur eq_refl); lia).
  rewrite E in H. rewrite H. now split.
Qed.

Lemma run_scans w3 pools d t cur head :
  eth_block_number w3 t = Some cur ->
  eth_block_number w3 (S t) = Some head ->
  let from := match indexer_state d with
              | Some last_block => last_block
              | None => Z.max 0 (head - 200000)
              end in
  from < cur ->
  outcome (run w3 pools d t) = Ok tt /\
  indexer_state (db_after (run w3 pools d t)) = Some cur /\
  grows d (db_after (run w3 pools d t)).
Proof.
  intros H1 H2 from Hlt. pose proof (run_cases w3 pools d t) as H.
  rewrite H1, H2 in H. cbn zeta in H. fold from in H.
  assert (E : (from >=? cur) = false) by (rewrite Z.geb_leb; apply Z.leb_gt; lia).
  rewrite E in H. destruct H as (res & s' & Hloop & Hrun).
  set (d0 := match indexer_state d with Some _ => d | None => replace_state from d end) in *.
  destruct (scan_spec w3 pools cur from {| conn := connect d0; rpc_clock := S (S t) |})
    as (s2 & Hs2 & Hclean & Hst & Hg); [lia|reflexivity|].
  rewrite Hs2 in Hloop. injection Hloop as <- <-.
  rewrite Hrun. unfold outcome, db_after. cbn [fst snd].
  split; [reflexivity|]. rewrite Hclean. split; [exact Hst|].
  cbn [conn connect working] in Hg.
  eapply grows_trans; [|exact Hg].
  subst d0. destruct (indexer_state d); [apply grows_refl|].
  repeat split; exists []; cbn; now rewrite app_nil_r.
Qed.

Lemma run_monotone w3 pools d t :
  checkpoint_le (indexer_state d) (indexer_state (db_after (run w3 pools d t))).
Proof.
  destruct (indexer_state d) as [lb|] eqn:Hd; [|exact I].
  pose proof (run_cases w3 pools d t) as H.
  destruct (eth_block_number w3 t) as [cur|] eqn:H1.
  2:{ rewrite H. unfold db_after. cbn. rewrite Hd. cbn. lia. }
  destruct (eth_block_number w3 (S t)) as [head|] eqn:H2.
  2:{ rewrite H. unfold db_after. cbn. rewrite Hd. cbn. lia. }
  destruct (Z_lt_ge_dec lb cur) as [Hlt|Hge].
  - destruct (run_scans w3 pools d t cur head H1 H2) as (_ & -> & _).
    + rewrite Hd. exact Hlt.
    + cbn. lia.
  - destruct (run_noop w3 pools d t lb Hd) as [-> _].
    + intros c Hc. rewrite H1 in Hc. injection Hc as <-. exact Hge.
    + rewrite Hd. cbn. lia.
Qed.

Lemma run_many_app runs1 runs2 d :
  run_many (runs1 ++ runs2) d = run_many runs2 (run_many runs1 d).
Proof. unfold run_many. apply fold_left_app. Qed.

Lemma run_many_monotone runs : forall d,
  checkpoint_le (indexer_state d) (indexer_state (run_many runs d)).
Proof.
  induction runs as [|[[w3 pools] t] runs IH]; intros d.
  - apply checkpoint_le_refl.
  - cbn. eapply checkpoint_le_trans; [|apply IH]. apply run_monotone.
Qed.

(** ** Checkpoint *)

(** C1. The body of the window loop always completes and leaves the
    checkpoint committed at the window's last block, whatever happened to
    the pools of the window; the values a run writes, after the one it
    started from, never decrease; hence the stored [last_block] never
    decreases over a run, nor over any sequence of runs. *)
Theorem C1_checkpoint_per_window_monotone :
  (forall (w3 : Web3) (pools : list string) (current_block start : Z) (s : Indexer),
      exists s',
        index_window w3 pools current_block start s = (Ok tt, s') /\
        indexer_state (committed (conn s')) = Some (window_end current_block start)) /\
  (forall from current_block : Z,
      StronglySorted Z.le
        (from :: map (window_end current_block)
                     (range from (current_block + 1) step))) /\
  (forall (w3 : Web3) (pools : list string) (d : DB) (t : nat),
      checkpoint_le (indexer_state d) (indexer_state (db_after (run w3 pools d t)))) /\
  (forall (runs1 runs2 : list (Web3 * list string * nat)) (d : DB),
      checkpoint_le (indexer_state (run_many runs1 d))
                    (indexer_state (run_many (runs1 ++ runs2) d))).
Proof.
  split; [|split; [|split]].
  - intros w3 pools cur start s.
    destruct (index_window_spec w3 pools cur start s) as (s' & Hs' & Hc & Hst & _).
    exists s'. split; [exact Hs'|]. unfold clean in Hc. now rewrite Hc.
  - apply window_ends_sorted.
  - apply run_monotone.
  - intros runs1 runs2 d. rewrite run_many_app. apply run_many_monotone.
Qed.

(** C1 on [demo_db] (checkpoint 10): a run at head 30 during the timestamp
    outage, in which the pool fails, still moves the checkpoint to 30, and a
    later run at an older head 25 leaves it there. *)
Lemma C1_checkpoint_per_window_monotone_witness :
  indexer_state (db_after (run (outage_w3 30) [scenario_pool] demo_db 0)) = Some 30 /\
  checkpoint_le (Some 30)
    (indexer_state
       (run_many [(outage_w3 30, [scenario_pool], 0%nat);
                  (node_of (demo_chain 25), [scenario_pool], 7%nat)] demo_db)).
Proof.
  split; [vm_compute; reflexivity|].
  pose proof (proj2 (proj2 (proj2 C1_checkpoint_per_window_monotone))
                [(outage_w3 30, [scenario_pool], 0%nat)]
                [(node_of (demo_chain 25), [scenario_pool], 7%nat)] demo_db) as H.
  exact H.
Defined.

(** C2. A run that finds a stored checkpoint at or above the head it reads
    changes nothing on disk: no row is added to any table and the checkpoint
    stays (and it returns normally when both reads of the head succeed).
    Hence, of two runs that read the same head, the second leaves the
    database exactly as the first left it. *)
Theorem C2_rerun_without_new_blocks_is_noop :
  (forall (w3 : Web3) (pools : list string) (d : DB) (t : nat) (last_block head : Z),
      indexer_state d = Some last_block ->
      eth_block_number w3 t = Some head ->
      last_block >= head ->
      db_after (run w3 pools d t) = d /\
      (is_Some (eth_block_number w3 (S t)) -> outcome (run w3 pools d t) = Ok tt)) /\
  (forall (w3a w3b : Web3) (pools_a pools_b : list string) (d : DB) (ta tb : nat)
          (head : Z),
      eth_block_number w3a ta = Some head ->
      eth_block_number w3a (S ta) = Some head ->
      eth_block_number w3b tb = Some head ->
      let d1 := db_after (run w3a pools_a d ta) in
      db_after (run w3b pools_b d1 tb) = d1).
Proof.
  split.
  - intros w3 pools d t lb head Hd Hh Hge.
    destruct (run_noop w3 pools d t lb Hd) as [Hdb Hok].
    + intros cur Hc. rewrite Hh in Hc. now injection Hc as <-.
    + split; [exact Hdb|]. intros H2. apply Hok; [|exact H2]. rewrite Hh. now eexists.
  - intros w3a w3b pa pb d ta tb head Ha1 Ha2 Hb d1.
    assert (Hd1 : exists x, indexer_state d1 = Some x /\ x >= head).
    { subst d1.
      set (from := match indexer_state d with
                   | Some last_block => last_block
                   | None => Z.max 0 (head - 200000)
                   end).
      destruct (Z_lt_ge_dec from head) as [Hlt|Hge].
      - destruct (run_scans w3a pa d ta head head Ha1 Ha2 Hlt) as (_ & Hst & _).
        exists head. split; [exact Hst|lia].
      - pose proof (run_cases w3a pa d ta) as H. rewrite Ha1, Ha2 in H.
        cbn zeta in H. fold from in H.
        assert (E : (from >=? head) = true) by (apply Z.geb_le; lia).
        rewrite E in H. rewrite H. unfold db_after. cbn [fst snd].
        exists from. split; [|exact Hge].
        subst from. destruct (indexer_state d) eqn:Hd; [exact Hd|reflexivity]. }
    destruct Hd1 as (x & Hx & Hge).
    apply (run_noop w3b pb d1 tb x Hx).
    intros cur Hc. rewrite Hb in Hc. now injection Hc as <-.
Qed.

(** C2 on the demo chain: after a run at head 30, a second run at head 30
    changes nothing. *)
Lemma C2_rerun_without_new_blocks_is_noop_witness :
  let d1 := db_after (run (node_of (demo_chain 30)) [scenario_pool] demo_db 0) in
  length (pool_liquidity_events d1) = 3%nat /\
  db_after (run (node_of (demo_chain 30)) [scenario_pool] d1 40) = d1.
Proof.
  split; [vm_compute; reflexivity|].
  apply (proj2 C2_rerun_without_new_blocks_is_noop
           (node_of (demo_chain 30)) (node_of (demo_chain 30))
           [scenario_pool] [scenario_pool] demo_db 0%nat 40%nat 30);
    reflexivity.
Defined.

(** C6. When no checkpoint row exists, [get_start_block] returns
    [max(0, head - 200000)] for the head it reads, and has then committed
    that value as the checkpoint, the tables being untouched; the value is 0
    exactly when [head <= 200000]. In [main] this happens before the window
    loop: a first run either stops there (seed at or above the head read by
    [main]) or runs its windows on a connection whose committed database
    already holds the seed. *)
Theorem C6_first_run_seeds_checkpoint :
  (forall (w3 : Web3) (s : Indexer) (head : Z),
      indexer_state (working (conn s)) = None ->
      eth_block_number w3 (rpc_clock s) = Some head ->
      let seed := Z.max 0 (head - 200000) in
      exists s',
        get_start_block w3 200000 s = (Ok seed, s') /\
        committed (conn s') = replace_state seed (working (conn s)) /\
        working (conn s') = committed (conn s') /\
        indexer_state (committed (conn s')) = Some seed /\
        (seed = 0 <-> head <= 200000)) /\
  (forall (w3 : Web3) (pools : list string) (d : DB) (t : nat) (current_block head : Z),
      indexer_state d = None ->
      eth_block_number w3 t = Some current_block ->
      eth_block_number w3 (S t) = Some head ->
      let seed := Z.max 0 (head - 200000) in
      if seed >=? current_block then
        run w3 pools d t = (Ok tt, replace_state seed d, S (S t))
      else
        exists res s',
          for_each (range seed (current_block + 1) step)
                   (index_window w3 pools current_block)
                   {| conn := connect (replace_state seed d); rpc_clock := S (S t) |}
            = (res, s') /\
          run w3 pools d t = (res, committed (conn s'), rpc_clock s')).
Proof.
  split.
  - intros w3 s head Hnone Hhead seed.
    unfold get_start_block, bind, select, rpc, execute, commit, ret.
    rewrite Hnone, Hhead. cbn [conn rpc_clock working committed].
    eexists. split; [reflexivity|]. cbn [conn working committed indexer_state replace_state].
    repeat split; subst seed; lia.
  - intros w3 pools d t cur head Hd H1 H2 seed.
    pose proof (run_cases w3 pools d t) as H. rewrite H1, H2, Hd in H. exact H.
Qed.

(** C6 on a store never indexed before (the empty tables of [init_db]):
    at head 300000 the seed is 100000, and a first run at that head on the demo chain ends with checkpoint 300000
    after windows that start at 100000; at head 12000 the seed is 0. *)
Lemma C6_first_run_seeds_checkpoint_witness :
  fst (get_start_block (node_of (demo_chain 300000)) 200000
         {| conn := connect empty_db; rpc_clock := 1 |}) = Ok 100000 /\
  fst (get_start_block (node_of (demo_chain 12000)) 200000
         {| conn := connect empty_db; rpc_clock := 1 |}) = Ok 0.
Proof.
  split.
  - destruct (proj1 C6_first_run_seeds_checkpoint (node_of (demo_chain 300000))
                {| conn := connect empty_db; rpc_clock := 1 |} 300000 eq_refl eq_refl)
      as (s' & -> & _). reflexivity.
  - destruct (proj1 C6_first_run_seeds_checkpoint (node_of (demo_chain 12000))
                {| conn := connect empty_db; rpc_clock := 1 |} 12000 eq_refl eq_refl)
      as (s' & -> & _). reflexivity.
Defined.

(** ** Failures inside a window *)

Lemma index_pool_events_raised w3 pool a b s s' :
  index_pool_events w3 pool a b s = (Raised, s') ->
  committed (conn s') = committed (conn s) /\
  grows (working (conn s)) (working (conn s')).
Proof.
  intros H. destruct (to_checksum_address w3 pool) as [addr|] eqn:Ha.
  - destruct (index_pool_events_spec _ _ _ _ _ _ _ _ Ha H) as (A & B & C & D & Hpi).
    split; [apply Hpi|]. repeat split; eexists; apply Hpi.
  - rewrite index_pool_events_invalid in H by exact Ha. injection H as <-.
    split; [reflexivity|apply grows_refl].
Qed.

Lemma window_tail_commits w3 rest a b last_block s :
  let s_end :=
    snd (bind (for_each rest (fun p => try_except (index_pool_events w3 p a b)))
              (fun _ => update_last_block last_block) s) in
  clean s_end /\
  grows (working (conn s)) (committed (conn s_end)) /\
  indexer_state (committed (conn s_end)) = Some last_block.
Proof.
  unfold bind. destruct (pool_loop_frame w3 rest a b s) as (Hok & _ & Hg).
  destruct (for_each rest _ s) as [[[]|] s1]; simpl in Hok, Hg; [|discriminate].
  unfold clean. cbn. split; [reflexivity|]. split; [exact Hg|reflexivity].
Qed.

(** C9. When [index_pool_events] raises, nothing has been committed and
    nothing is rolled back: the rows it had inserted stay pending on the
    connection, the caller's [try/except] returns normally with the
    connection in that state, and the rest of the window (the other pools,
    then [update_last_block]) commits them together with the checkpoint.
    On the demo chain, during an outage of the timestamp lookup for block 20,
    the run leaves on disk the ADD row of block 12 alone, out of the pool's
    three liquidity events of the window, with the checkpoint at 30. *)
Theorem C9_failed_pool_leaves_partial_rows_committed :
  (forall (w3 : Web3) (pool : string) (a b : Z) (s s' : Indexer),
      index_pool_events w3 pool a b s = (Raised, s') ->
      committed (conn s') = committed (conn s) /\
      grows (working (conn s)) (working (conn s')) /\
      try_except (index_pool_events w3 pool a b) s = (Ok tt, s') /\
      forall (rest : list string) (last_block : Z),
        let s_end :=
          snd (bind (for_each rest (fun p => try_except (index_pool_events w3 p a b)))
                    (fun _ => update_last_block last_block) s') in
        clean s_end /\
        grows (working (conn s')) (committed (conn s_end)) /\
        indexer_state (committed (conn s_end)) = Some last_block) /\
  (let w3 := outage_w3 30 in
   let s := {| conn := connect demo_db; rpc_clock := 2 |} in
   fst (index_pool_events w3 scenario_pool 10 30 s) = Raised /\
   Mint_get_logs w3 2 scenario_pool 10 30 =
     Some [mint_burn_at 12 1000 2000; mint_burn_at 20 50 60] /\
   Burn_get_logs w3 2 scenario_pool 10 30 = Some [mint_burn_at 15 400 500] /\
   db_after (run w3 [scenario_pool] demo_db 0) =
     {| pool_liquidity_events :=
          [mint_row scenario_pool (mint_burn_at 12 1000 2000) (demo_timestamp 12)];
        pool_swaps := [];
        pool_fee_claims := [];
        indexer_state := Some 30 |}).
Proof.
  split.
  - intros w3 pool a b s s' H.
    destruct (index_pool_events_raised _ _ _ _ _ _ H) as [Hc Hg].
    split; [exact Hc|]. split; [exact Hg|]. split.
    + unfold try_except, try_catch. now rewrite H.
    + intros rest last_block. apply window_tail_commits.
  - vm_compute. repeat split.
Qed.

(** C9 at the failing attempt of the demo chain: one ADD row is pending
    after the exception and is on disk after the checkpoint update. *)
Lemma C9_failed_pool_leaves_partial_rows_committed_witness :
  let w3 := outage_w3 30 in
  let s := {| conn := connect demo_db; rpc_clock := 2 |} in
  let s' := snd (index_pool_events w3 scenario_pool 10 30 s) in
  length (pool_liquidity_events (working (conn s'))) = 1%nat /\
  committed (conn s') = demo_db /\
  grows (working (conn s'))
        (committed (conn (snd (bind (for_each [] (fun p =>
                                       try_except (index_pool_events w3 p 10 30)))
                                    (fun _ => update_last_block 30) s')))).
Proof.
  intros w3 s s'.
  assert (H : index_pool_events w3 scenario_pool 10 30 s = (Raised, s'))
    by (vm_compute; reflexivity).
  destruct (proj1 C9_failed_pool_leaves_partial_rows_committed
              w3 scenario_pool 10 30 s s' H) as (Hc & _ & _ & Htail).
  split; [vm_compute; reflexivity|]. split; [exact Hc|].
  apply (Htail [] 30).
Defined.

(** ** Insertion order *)

Lemma StronglySorted_app (l1 l2 : list Z) :
  StronglySorted Z.le l1 -> StronglySorted Z.le l2 ->
  (forall x y, In x l1 -> In y l2 -> x <= y) ->
  StronglySorted Z.le (l1 ++ l2).
Proof.
  induction l1 as [|x l1 IH]; intros H1 H2 H12; [exact H2|].
  inversion H1 as [|? ? Hs Hall]; subst. cbn. constructor.
  - apply IH; [exact Hs|exact H2|]. intros; apply H12; [now right|assumption].
  - apply Forall_app. split; [exact Hall|].
    apply List.Forall_forall. intros y Hy. apply H12; [now left|exact Hy].
Qed.

Lemma In_firstn_In {A} (l : list A) : forall n y, In y (firstn n l) -> In y l.
Proof.
  induction l as [|x l IH]; intros [|n] y Hy; cbn in Hy; try contradiction.
  destruct Hy as [->|Hy]; [now left|right; now apply (IH n)].
Qed.

Lemma StronglySorted_firstn (l : list Z) n :
  StronglySorted Z.le l -> StronglySorted Z.le (firstn n l).
Proof.
  revert n. induction l as [|x l IH]; intros [|n] H; cbn; try constructor.
  - inversion H; subst. now apply IH.
  - inversion H as [|? ? _ Hall]; subst.
    rewrite List.Forall_forall in Hall |- *. intros y Hy. apply Hall.
    now apply (In_firstn_In l n).
Qed.

Lemma filter_keep_all {A} (f : A -> bool) l :
  Forall (fun x => f x = true) l -> List.filter f l = l.
Proof.
  induction 1 as [|x l Hx _ IH]; cbn; [reflexivity|]. now rewrite Hx, IH.
Qed.

Lemma filter_drop_all {A} (f : A -> bool) l :
  Forall (fun x => f x = false) l -> List.filter f l = [].
Proof.
  intros H. apply filter_nil_by. now apply List.Forall_forall.
Qed.

Lemma indexed_prefix_Forall w3 {L R} (bn : L -> Z) (mk : L -> Z -> R) get
      (P : R -> Prop) rows :
  (forall ev ts, P (mk ev ts)) ->
  indexed_prefix w3 bn mk get rows -> Forall P rows.
Proof.
  intros HP [->|(t & logs & _ & Hf)]; [constructor|].
  induction Hf as [|r ev rows evs (t' & ts & _ & ->) _ IH]; constructor; auto.
Qed.

Lemma indexed_prefix_blocks w3 {L R} (bn : L -> Z) (mk : L -> Z -> R) get
      (key : R -> Z) a b rows :
  (forall ev ts, key (mk ev ts) = bn ev) ->
  (forall t logs, get t = Some logs -> ordered_within a b (map bn logs)) ->
  indexed_prefix w3 bn mk get rows ->
  ordered_within a b (map key rows).
Proof.
  intros Hkey Hord [->|(t & logs & Hget & Hf)]; [split; constructor|].
  assert (E : map key rows = firstn (length rows) (map bn logs)).
  { rewrite firstn_map.
    induction Hf as [|r ev rows' evs (t' & ts & _ & ->) _ IH]; [reflexivity|].
    cbn. now rewrite Hkey, IH. }
  destruct (Hord t logs Hget) as [Hs Hr]. rewrite E. split.
  - now apply StronglySorted_firstn.
  - rewrite List.Forall_forall in Hr |- *. intros y Hy. apply Hr.
    now apply In_firstn_In in Hy.
Qed.

Lemma ordered_upto_app a b l1 l2 :
  a <= b -> ordered_upto (a - 1) l1 -> ordered_within a b l2 ->
  ordered_upto b (l1 ++ l2).
Proof.
  intros Hab [Hs1 Hb1] [Hs2 Hb2].
  rewrite List.Forall_forall in Hb1, Hb2. split.
  - apply StronglySorted_app; [exact Hs1|exact Hs2|].
    intros x y Hx Hy. specialize (Hb1 x Hx). specialize (Hb2 y Hy). lia.
  - apply Forall_app. split; apply List.Forall_forall; intros x Hx.
    + specialize (Hb1 x Hx). lia.
    + specialize (Hb2 x Hx). lia.
Qed.

Lemma ordered_upto_weaken x y l : x <= y -> ordered_upto x l -> ordered_upto y l.
Proof.
  intros Hxy [Hs Hb]. split; [exact Hs|].
  rewrite List.Forall_forall in Hb |- *. intros n Hn. specialize (Hb n Hn). lia.
Qed.

Lemma kinds_ordered_weaken base d pl x y :
  x <= y -> kinds_ordered base d pl x -> kinds_ordered base d pl y.
Proof.
  intros Hxy (A & C & D & HA & HC & HD & H1 & H2 & H3 & H4).
  exists A, C, D. repeat split; try assumption;
    try (eapply ordered_upto_weaken; [exact Hxy|]; first [apply H1|apply H2|apply H3|apply H4]).
Qed.

Lemma liquidity_blocks_of_app ty pl l1 l2 :
  liquidity_blocks_of ty pl (l1 ++ l2) =
  liquidity_blocks_of ty pl l1 ++ liquidity_blocks_of ty pl l2.
Proof. unfold liquidity_blocks_of. now rewrite List.filter_app, map_app. Qed.

Lemma swap_blocks_app pl l1 l2 :
  swap_blocks pl (l1 ++ l2) = swap_blocks pl l1 ++ swap_blocks pl l2.
Proof. unfold swap_blocks. now rewrite List.filter_app, map_app. Qed.

Lemma claim_blocks_app pl l1 l2 :
  claim_blocks pl (l1 ++ l2) = claim_blocks pl l1 ++ claim_blocks pl l2.
Proof. unfold claim_blocks. now rewrite List.filter_app, map_app. Qed.

(** Block numbers contributed, per kind, by the rows of one attempt. *)
Lemma liquidity_rows_blocks w3 pool (ty ty' : EventType)
      (mk : MintBurnLog.t -> Z -> LiquidityEvent.t) get a b pl rows :
  (forall ev ts, LiquidityEvent.pool_address (mk ev ts) = lower pool /\
                 LiquidityEvent.event_type (mk ev ts) = ty /\
                 LiquidityEvent.block_number (mk ev ts) = MintBurnLog.blockNumber ev) ->
  (forall t logs, get t = Some logs ->
                  ordered_within a b (map MintBurnLog.blockNumber logs)) ->
  indexed_prefix w3 MintBurnLog.blockNumber mk get rows ->
  (pl <> lower pool \/ ty' <> ty -> liquidity_blocks_of ty' pl rows = []) /\
  ordered_within a b (liquidity_blocks_of ty pl rows).
Proof.
  intros Hmk Hord Hp.
  assert (Hall : Forall (fun r => LiquidityEvent.pool_address r = lower pool /\
                                  LiquidityEvent.event_type r = ty) rows).
  { apply (indexed_prefix_Forall _ _ _ _ _ _ (fun ev ts => conj (proj1 (Hmk ev ts))
                                                (proj1 (proj2 (Hmk ev ts)))) Hp). }
  assert (Hblocks : ordered_within a b (map LiquidityEvent.block_number rows)).
  { apply (indexed_prefix_blocks w3 MintBurnLog.blockNumber mk get); try assumption.
    intros ev ts. apply Hmk. }
  split.
  - intros Hne. unfold liquidity_blocks_of. rewrite filter_drop_all; [reflexivity|].
    eapply List.Forall_impl; [|exact Hall]. cbn. intros r [Hr1 Hr2]. rewrite Hr1, Hr2.
    destruct Hne as [Hne|Hne].
    + destruct (String.eqb_spec (lower pool) pl); [congruence|reflexivity].
    + rewrite andb_comm. destruct ty, ty'; cbn; congruence.
  - destruct (string_dec pl (lower pool)) as [->|Hne].
    + unfold liquidity_blocks_of. rewrite filter_keep_all; [exact Hblocks|].
      eapply List.Forall_impl; [|exact Hall]. cbn. intros r [Hr1 Hr2]. rewrite Hr1, Hr2.
      rewrite String.eqb_refl. now destruct ty.
    + unfold liquidity_blocks_of. rewrite filter_drop_all; [split; constructor|].
      eapply List.Forall_impl; [|exact Hall]. cbn. intros r [Hr1 Hr2]. rewrite Hr1.
      destruct (String.eqb_spec (lower pool) pl); [congruence|reflexivity].
Qed.

Lemma swap_rows_blocks w3 pool get a b pl rows :
  (forall t logs, get t = Some logs ->
                  ordered_within a b (map SwapLog.blockNumber logs)) ->
  indexed_prefix w3 SwapLog.blockNumber (swap_row pool) get rows ->
  (pl <> lower pool -> swap_blocks pl rows = []) /\
  ordered_within a b (swap_blocks pl rows).
Proof.
  intros Hord Hp.
  assert (Hall : Forall (fun r => SwapEvent.pool_address r = lower pool) rows)
    by (apply (indexed_prefix_Forall _ _ _ _ _ _ (fun ev ts => eq_refl) Hp)).
  assert (Hblocks : ordered_within a b (map SwapEvent.block_number rows)).
  { apply (indexed_prefix_blocks w3 SwapLog.blockNumber (swap_row pool) get);
      try assumption. reflexivity. }
  assert (Hother : pl <> lower pool -> swap_blocks pl rows = []).
  { intros Hne. unfold swap_blocks. rewrite filter_drop_all; [reflexivity|].
    eapply List.Forall_impl; [|exact Hall]. cbn. intros r ->.
    destruct (String.eqb_spec (lower pool) pl); [congruence|reflexivity]. }
  split; [exact Hother|].
  destruct (string_dec pl (lower pool)) as [->|Hne].
  - unfold swap_blocks. rewrite filter_keep_all; [exact Hblocks|].
    eapply List.Forall_impl; [|exact Hall]. cbn. intros r ->. apply String.eqb_refl.
  - rewrite (Hother Hne). split; constructor.
Qed.

Lemma claim_rows_blocks w3 pool get a b pl rows :
  (forall t logs, get t = Some logs ->
                  ordered_within a b (map ClaimLog.blockNumber logs)) ->
  indexed_prefix w3 ClaimLog.blockNumber (claim_row pool) get rows ->
  (pl <> lower pool -> claim_blocks pl rows = []) /\
  ordered_within a b (claim_blocks pl rows).
Proof.
  intros Hord Hp.
  assert (Hall : Forall (fun r => FeeClaim.pool_address r = lower pool) rows)
    by (apply (indexed_prefix_Forall _ _ _ _ _ _ (fun ev ts => eq_refl) Hp)).
  assert (Hblocks : ordered_within a b (map FeeClaim.block_number rows)).
  { apply (indexed_prefix_blocks w3 ClaimLog.blockNumber (claim_row pool) get);
      try assumption. reflexivity. }
  assert (Hother : pl <> lower pool -> claim_blocks pl rows = []).
  { intros Hne. unfold claim_blocks. rewrite filter_drop_all; [reflexivity|].
    eapply List.Forall_impl; [|exact Hall]. cbn. intros r ->.
    destruct (String.eqb_spec (lower pool) pl); [congruence|reflexivity]. }
  split; [exact Hother|].
  destruct (string_dec pl (lower pool)) as [->|Hne].
  - unfold claim_blocks. rewrite filter_keep_all; [exact Hblocks|].
    eapply List.Forall_impl; [|exact Hall]. cbn. intros r ->. apply String.eqb_refl.
  - rewrite (Hother Hne). split; constructor.
Qed.

(** The rows of one attempt, per kind: in block order within the window,
    and none for another pool. *)
Lemma pool_indexed_blocks w3 pool addr a b s res s' A B C D pl :
  orderly w3 ->
  pool_indexed w3 pool addr a b s res s' A B C D ->
  (ordered_within a b (liquidity_blocks_of ADD pl (A ++ B)) /\
   ordered_within a b (liquidity_blocks_of REMOVE pl (A ++ B)) /\
   ordered_within a b (swap_blocks pl C) /\
   ordered_within a b (claim_blocks pl D)) /\
  (pl <> lower pool ->
   liquidity_blocks_of ADD pl (A ++ B) = [] /\
   liquidity_blocks_of REMOVE pl (A ++ B) = [] /\
   swap_blocks pl C = [] /\
   claim_blocks pl D = []).
Proof.
  intros Hord Hpi.
  destruct (liquidity_rows_blocks w3 pool ADD REMOVE (mint_row pool)
              (fun t => Mint_get_logs w3 t addr a b) a b pl A) as [HA0 HA].
  { intros ev ts. repeat split. }
  { intros t logs. apply (proj1 (Hord t addr a b)). }
  { apply Hpi. }
  destruct (liquidity_rows_blocks w3 pool REMOVE ADD (burn_row pool)
              (fun t => Burn_get_logs w3 t addr a b) a b pl B) as [HB0 HB].
  { intros ev ts. repeat split. }
  { intros t logs. apply (proj1 (proj2 (Hord t addr a b))). }
  { apply Hpi. }
  destruct (liquidity_rows_blocks w3 pool ADD ADD (mint_row pool)
              (fun t => Mint_get_logs w3 t addr a b) a b pl A) as [HA1 _].
  { intros ev ts. repeat split. }
  { intros t logs. apply (proj1 (Hord t addr a b)). }
  { apply Hpi. }
  destruct (liquidity_rows_blocks w3 pool REMOVE REMOVE (burn_row pool)
              (fun t => Burn_get_logs w3 t addr a b) a b pl B) as [HB1 _].
  { intros ev ts. repeat split. }
  { intros t logs. apply (proj1 (proj2 (Hord t addr a b))). }
  { apply Hpi. }
  destruct (swap_rows_blocks w3 pool (fun t => Swap_get_logs w3 t addr a b) a b pl C)
    as [HC0 HC].
  { intros t logs. apply (proj1 (proj2 (proj2 (Hord t addr a b)))). }
  { apply Hpi. }
  destruct (claim_rows_blocks w3 pool (fun t => Claim_get_logs w3 t addr a b) a b pl D)
    as [HD0 HD].
  { intros t logs. apply (proj2 (proj2 (proj2 (Hord t addr a b)))). }
  { apply Hpi. }
  rewrite !liquidity_blocks_of_app.
  assert (N1 : ADD <> REMOVE) by discriminate.
  assert (N2 : REMOVE <> ADD) by discriminate.
  rewrite (HB0 (or_intror N1)), (HA0 (or_intror N2)).
  rewrite app_nil_r. cbn [app].
  split; [split; [exact HA|split; [exact HB|split; [exact HC|exact HD]]]|].
  intros Hne. rewrite (HA1 (or_introl Hne)), (HB1 (or_introl Hne)).
  split; [reflexivity|]. split; [reflexivity|]. split; [now apply HC0|now apply HD0].
Qed.

Lemma kinds_ordered_extend base d d' pl a b A' C' D' :
  a <= b ->
  pool_liquidity_events d' = pool_liquidity_events d ++ A' ->
  pool_swaps d' = pool_swaps d ++ C' ->
  pool_fee_claims d' = pool_fee_claims d ++ D' ->
  ordered_within a b (liquidity_blocks_of ADD pl A') ->
  ordered_within a b (liquidity_blocks_of REMOVE pl A') ->
  ordered_within a b (swap_blocks pl C') ->
  ordered_within a b (claim_blocks pl D') ->
  kinds_ordered base d pl (a - 1) -> kinds_ordered base d' pl b.
Proof.
  intros Hab EA EC ED H1 H2 H3 H4 (A & C & D & HA & HC & HD & K1 & K2 & K3 & K4).
  exists (A ++ A'), (C ++ C'), (D ++ D').
  rewrite EA, EC, ED, HA, HC, HD, <- !app_assoc.
  rewrite !liquidity_blocks_of_app, swap_blocks_app, claim_blocks_app.
  split; [reflexivity|]. split; [reflexivity|]. split; [reflexivity|].
  split; [|split; [|split]]; now apply (ordered_upto_app a b).
Qed.

Lemma kinds_ordered_same base d d' pl x A' C' D' :
  pool_liquidity_events d' = pool_liquidity_events d ++ A' ->
  pool_swaps d' = pool_swaps d ++ C' ->
  pool_fee_claims d' = pool_fee_claims d ++ D' ->
  liquidity_blocks_of ADD pl A' = [] ->
  liquidity_blocks_of REMOVE pl A' = [] ->
  swap_blocks pl C' = [] ->
  claim_blocks pl D' = [] ->
  kinds_ordered base d pl x -> kinds_ordered base d' pl x.
Proof.
  intros EA EC ED H1 H2 H3 H4 (A & C & D & HA & HC & HD & K1 & K2 & K3 & K4).
  exists (A ++ A'), (C ++ C'), (D ++ D').
  rewrite EA, EC, ED, HA, HC, HD, <- !app_assoc.
  rewrite !liquidity_blocks_of_app, swap_blocks_app, claim_blocks_app.
  rewrite H1, H2, H3, H4, !app_nil_r.
  split; [reflexivity|]. split; [reflexivity|]. split; [reflexivity|].
  split; [exact K1|]. split; [exact K2|]. split; [exact K3|exact K4].
Qed.

(** One guarded attempt, seen from the rows of pool [pl]. *)
Lemma attempt_kinds_ordered w3 base pool a b s pl :
  orderly w3 -> a <= b ->
  let s' := snd (try_except (index_pool_events w3 pool a b) s) in
  (forall x, pl <> lower pool ->
             kinds_ordered base (working (conn s)) pl x ->
             kinds_ordered base (working (conn s')) pl x) /\
  (kinds_ordered base (working (conn s)) pl (a - 1) ->
   kinds_ordered base (working (conn s')) pl b).
Proof.
  intros Hord Hab.
  destruct (attempt_spec w3 pool a b s) as (s' & -> & [[_ ->]|Hpi]); cbn [snd].
  - split; [now intros|]. apply kinds_ordered_weaken. lia.
  - destruct Hpi as (addr & res & A & B & C & D & _ & _ & Hpi).
    destruct (pool_indexed_blocks _ _ _ _ _ _ _ _ _ _ _ _ pl Hord Hpi)
      as [(O1 & O2 & O3 & O4) Hother].
    split.
    + intros x Hne. destruct (Hother Hne) as (E1 & E2 & E3 & E4).
      apply (kinds_ordered_same base _ _ pl x (A ++ B) C D); try assumption; apply Hpi.
    + apply (kinds_ordered_extend base _ _ pl a b (A ++ B) C D); try assumption;
        apply Hpi.
Qed.

Lemma kinds_ordered_tables base d d' pl x :
  pool_liquidity_events d' = pool_liquidity_events d ->
  pool_swaps d' = pool_swaps d ->
  pool_fee_claims d' = pool_fee_claims d ->
  kinds_ordered base d pl x -> kinds_ordered base d' pl x.
Proof.
  intros EA EC ED (A & C & D & HA & HC & HD & K).
  exists A, C, D. rewrite EA, EC, ED. repeat split; try assumption; apply K.
Qed.

Lemma kinds_ordered_base d d' pl x :
  pool_liquidity_events d' = pool_liquidity_events d ->
  pool_swaps d' = pool_swaps d ->
  pool_fee_claims d' = pool_fee_claims d ->
  kinds_ordered d d' pl x.
Proof.
  intros EA EC ED. exists [], [], []. rewrite EA, EC, ED, !app_nil_r.
  repeat split; constructor.
Qed.

Lemma pool_loop_kinds_ordered w3 base pools a b s :
  orderly w3 -> a <= b -> List.NoDup (map lower pools) ->
  (forall pl, kinds_ordered base (working (conn s)) pl (a - 1)) ->
  forall pl,
    kinds_ordered base
      (working (conn (snd (for_each pools
                             (fun pool => try_except (index_pool_events w3 pool a b)) s))))
      pl b.
Proof.
  intros Hord Hab Hnd Hs pl.
  destruct (for_each_total_inv
              (fun pool => try_except (index_pool_events w3 pool a b))
              (fun done s1 =>
                 forall pl,
                   (In pl (map lower done) ->
                    kinds_ordered base (working (conn s1)) pl b) /\
                   (~ In pl (map lower done) ->
                    kinds_ordered base (working (conn s1)) pl (a - 1)))
              pools [] s) as [_ Hinv].
  - intros x s1. apply attempt_frame.
  - intros done x rest s1 Heq Hdone pl'. cbn [app] in Heq.
    assert (Hfresh : ~ In (lower x) (map lower done)).
    { rewrite <- Heq, map_app in Hnd. cbn [map] in Hnd.
      apply NoDup_remove_2 in Hnd. intros Hin. apply Hnd.
      apply in_or_app. now left. }
    destruct (attempt_kinds_ordered w3 base x a b s1 pl' Hord Hab) as [Hother Hsame].
    rewrite map_app. cbn [map]. split.
    + intros Hin. apply in_app_or in Hin as [Hin|[<-|[]]].
      * apply Hother; [|now apply Hdone]. intros ->. contradiction.
      * apply Hsame. now apply Hdone.
    + intros Hnin. apply Hother.
      * intros ->. apply Hnin. apply in_or_app. right. now left.
      * apply Hdone. intros Hin. apply Hnin. apply in_or_app. now left.
  - intros pl'. split; [intros []|]. intros _. apply Hs.
  - cbn [app] in Hinv.
    destruct (in_dec string_dec pl (map lower pools)) as [Hin|Hnin].
    + now apply Hinv.
    + apply kinds_ordered_weaken with (a - 1); [lia|]. now apply Hinv.
Qed.

Lemma index_window_kinds_ordered w3 base pools cur start s :
  orderly w3 -> start <= cur -> List.NoDup (map lower pools) ->
  (forall pl, kinds_ordered base (working (conn s)) pl (start - 1)) ->
  forall pl,
    kinds_ordered base
      (working (conn (snd (index_window w3 pools cur start s)))) pl
      (window_end cur start).
Proof.
  intros Hord Hle Hnd Hs pl. unfold index_window, bind.
  pose proof (pool_loop_kinds_ordered w3 base pools start
                (Z.min (start + step - 1) cur) s Hord ltac:(unfold step; lia) Hnd Hs pl)
    as Hk.
  destruct (pool_loop_frame w3 pools start (Z.min (start + step - 1) cur) s) as (Hok & _).
  destruct (for_each pools _ s) as [[[]|] s1]; simpl in Hok, Hk; [|discriminate].
  cbn. eapply kinds_ordered_tables; [| | |exact Hk]; reflexivity.
Qed.

(** A run, seen from the rows of one pool. *)
Lemma run_kinds_ordered w3 pools d t pl :
  orderly w3 -> List.NoDup (map lower pools) ->
  exists bound, kinds_ordered d (db_after (run w3 pools d t)) pl bound.
Proof.
  intros Hord Hnd. pose proof (run_cases w3 pools d t) as H.
  destruct (eth_block_number w3 t) as [cur|].
  2:{ exists 0. rewrite H. now apply kinds_ordered_base. }
  destruct (eth_block_number w3 (S t)) as [head|].
  2:{ exists 0. rewrite H. now apply kinds_ordered_base. }
  cbn zeta in H.
  set (from := match indexer_state d with
               | Some last_block => last_block
               | None => Z.max 0 (head - 200000)
               end) in *.
  set (d0 := match indexer_state d with Some _ => d | None => replace_state from d end) in *.
  assert (Hd0 : pool_liquidity_events d0 = pool_liquidity_events d /\
                pool_swaps d0 = pool_swaps d /\
                pool_fee_claims d0 = pool_fee_claims d).
  { subst d0. destruct (indexer_state d); now repeat split. }
  destruct Hd0 as (E1 & E2 & E3).
  destruct (from >=? cur) eqn:E.
  - exists 0. rewrite H. now apply kinds_ordered_base.
  - rewrite Z.geb_leb in E. apply Z.leb_gt in E.
    destruct H as (res & s' & Hloop & ->). unfold db_after. cbn [fst snd].
    destruct (scan_inv (index_window w3 pools cur)
                (fun bnd s1 => clean s1 /\
                               forall pl, kinds_ordered d (working (conn s1)) pl bnd)
                from cur) with (n := Z.to_nat (cur + 1 - from)) (from := from)
                               (s := {| conn := connect d0; rpc_clock := S (S t) |})
      as (_ & Hc & Hk).
    + intros start s1 Hstart [_ Hk1].
      destruct (index_window_spec w3 pools cur start s1) as (s2 & Hs2 & Hc2 & _).
      pose proof (index_window_kinds_ordered w3 d pools cur start s1 Hord
                    ltac:(lia) Hnd Hk1) as Hk2.
      rewrite Hs2 in *. cbn [fst snd] in *. now repeat split.
    + lia.
    + lia.
    + split; [reflexivity|]. intros pl'. cbn [conn connect working].
      now apply kinds_ordered_base.
    + rewrite Hloop in Hc, Hk. cbn [snd] in Hc, Hk. exists cur. rewrite Hc. apply Hk.
Qed.

Lemma appended_app {A} (old new : list A) : appended old (old ++ new) = new.
Proof.
  unfold appended. rewrite skipn_app, skipn_all, Nat.sub_diag. reflexivity.
Qed.

(** The node of a chain is orderly when the chain lists the logs of each
    contract in block order. *)
Lemma filter_sorted {A} (key : A -> Z) (f : A -> bool) l :
  StronglySorted Z.le (map key l) -> StronglySorted Z.le (map key (List.filter f l)).
Proof.
  induction l as [|x l IH]; cbn; intros H; [constructor|].
  inversion H as [|? ? Hs Hall]; subst.
  destruct (f x); cbn; [constructor|]; try now apply IH.
  rewrite List.Forall_forall in Hall |- *. intros y Hy. apply Hall.
  apply in_map_iff in Hy as (z & <- & Hz). apply filter_In in Hz as [Hz _].
  now apply in_map.
Qed.

Lemma filter_in_blocks {A} (key : A -> Z) a b l :
  ordered_within a b (map key (List.filter (fun x => in_blocks a b (key x)) l)) <->
  StronglySorted Z.le (map key (List.filter (fun x => in_blocks a b (key x)) l)).
Proof.
  split; [now intros [H _]|]. intros H. split; [exact H|].
  apply List.Forall_forall. intros y Hy.
  apply in_map_iff in Hy as (z & <- & Hz). apply filter_In in Hz as [_ Hz].
  unfold in_blocks in Hz. apply andb_true_iff in Hz as [H1 H2].
  apply Z.leb_le in H1, H2. lia.
Qed.

Lemma node_of_orderly (c : Chain) :
  (forall addr, StronglySorted Z.le (map MintBurnLog.blockNumber (chain_mints c addr))) ->
  (forall addr, StronglySorted Z.le (map MintBurnLog.blockNumber (chain_burns c addr))) ->
  (forall addr, StronglySorted Z.le (map SwapLog.blockNumber (chain_swaps c addr))) ->
  (forall addr, StronglySorted Z.le (map ClaimLog.blockNumber (chain_claims c addr))) ->
  orderly (node_of c).
Proof.
  intros Hm Hb Hs Hc t addr a b. cbn.
  split; [|split; [|split]]; intros logs [= <-].
  - apply (filter_in_blocks MintBurnLog.blockNumber). now apply filter_sorted.
  - apply (filter_in_blocks MintBurnLog.blockNumber). now apply filter_sorted.
  - apply (filter_in_blocks SwapLog.blockNumber). now apply filter_sorted.
  - apply (filter_in_blocks ClaimLog.blockNumber). now apply filter_sorted.
Qed.

Lemma demo_chain_orderly head : orderly (node_of (demo_chain head)).
Proof.
  apply node_of_orderly; intros addr; cbn;
    try destruct (String.eqb addr scenario_pool); cbn;
    repeat constructor; lia.
Qed.

(** C5, as stated, fails: on the demo chain, whose node answers in block
    order, one run over the window [10, 30] appends to the liquidity table
    the pool's rows of blocks 12, 20 (Mint) and then 15 (Burn), which is not
    non-decreasing. *)
Lemma C5_liquidity_table_not_in_block_order :
  let w3 := node_of (demo_chain 30) in
  let d' := db_after (run w3 [scenario_pool] demo_db 0) in
  orderly w3 /\
  List.NoDup (map lower [scenario_pool]) /\
  liquidity_blocks (lower scenario_pool)
    (appended (pool_liquidity_events demo_db) (pool_liquidity_events d')) = [12; 20; 15] /\
  ~ StronglySorted Z.le
      (liquidity_blocks (lower scenario_pool)
         (appended (pool_liquidity_events demo_db) (pool_liquidity_events d'))).
Proof.
  cbv zeta. split; [apply demo_chain_orderly|].
  split; [repeat constructor; intros []|].
  assert (E : liquidity_blocks (lower scenario_pool)
                (appended (pool_liquidity_events demo_db)
                   (pool_liquidity_events
                      (db_after (run (node_of (demo_chain 30)) [scenario_pool] demo_db 0))))
              = [12; 20; 15]) by (vm_compute; reflexivity).
  split; [exact E|]. rewrite E. intros H.
  inversion H as [|? ? Htail _]; subst.
  inversion Htail as [|? ? _ Hall]; subst.
  inversion Hall as [|? ? H2015 _]; subst. lia.
Qed.

(** C5, amended. For a node that answers [get_logs] in block order within
    the range asked and a pool list without repetition (up to case), the
    rows one run appends for a fixed pool have non-decreasing
    [block_number] per event kind: among the ADD rows and among the REMOVE
    rows of the liquidity table, in the swaps table and in the fee-claims
    table; tables only grow. *)
Theorem C5_rows_in_block_order_per_kind :
  forall (w3 : Web3) (pools : list string) (d : DB) (t : nat),
    orderly w3 ->
    List.NoDup (map lower pools) ->
    let d' := db_after (run w3 pools d t) in
    grows d d' /\
    forall pool_lower : string,
      StronglySorted Z.le
        (liquidity_blocks_of ADD pool_lower
           (appended (pool_liquidity_events d) (pool_liquidity_events d'))) /\
      StronglySorted Z.le
        (liquidity_blocks_of REMOVE pool_lower
           (appended (pool_liquidity_events d) (pool_liquidity_events d'))) /\
      StronglySorted Z.le
        (swap_blocks pool_lower (appended (pool_swaps d) (pool_swaps d'))) /\
      StronglySorted Z.le
        (claim_blocks pool_lower (appended (pool_fee_claims d) (pool_fee_claims d'))).
Proof.
  intros w3 pools d t Hord Hnd d'. split.
  - destruct (run_kinds_ordered w3 pools d t "" Hord Hnd)
      as (bound & A & C & D & HA & HC & HD & _).
    repeat split; eexists; eassumption.
  - intros pl.
    destruct (run_kinds_ordered w3 pools d t pl Hord Hnd)
      as (bound & A & C & D & HA & HC & HD & K1 & K2 & K3 & K4).
    subst d'. rewrite HA, HC, HD, !appended_app.
    repeat split; [apply K1|apply K2|apply K3|apply K4].
Qed.

(** C5, amended, on the demo chain: the ADD rows of the run are those of
    blocks 12 and 20, in that order. *)
Lemma C5_rows_in_block_order_per_kind_witness :
  let d' := db_after (run (node_of (demo_chain 30)) [scenario_pool] demo_db 0) in
  liquidity_blocks_of ADD (lower scenario_pool)
    (appended (pool_liquidity_events demo_db) (pool_liquidity_events d')) = [12; 20] /\
  StronglySorted Z.le
    (liquidity_blocks_of ADD (lower scenario_pool)
       (appended (pool_liquidity_events demo_db) (pool_liquidity_events d'))).
Proof.
  cbv zeta. split; [vm_compute; reflexivity|].
  apply (C5_rows_in_block_order_per_kind (node_of (demo_chain 30)) [scenario_pool]
           demo_db 0%nat (demo_chain_orderly 30)).
  repeat constructor. intros [].
Defined.

(** ** Consecutive runs against a node that always answers *)

Lemma indexed_all_node (c : Chain) {L R} (bn : L -> Z) (mk : L -> Z -> R)
      (logs0 : list L) (a b : Z) rows :
  indexed_all (node_of c) bn mk
    (fun _ => Some (List.filter (fun ev => in_blocks a b (bn ev)) logs0)) rows ->
  rows = map (fun ev => mk ev (chain_timestamp c (bn ev)))
             (List.filter (fun ev => in_blocks a b (bn ev)) logs0).
Proof.
  intros (t & logs & [= <-] & Hf).
  induction Hf as [|r ev rows' evs (t' & ts & Hts & ->) _ IH]; [reflexivity|].
  cbn in Hts. injection Hts as <-. cbn. now rewrite IH.
Qed.

Lemma in_decoded_range {L R} (bn : L -> Z) (f : L -> R) (logs0 : list L) a b ev :
  In ev logs0 -> a <= bn ev <= b ->
  In (f ev) (map f (List.filter (fun ev => in_blocks a b (bn ev)) logs0)).
Proof.
  intros Hin Hr. apply in_map. apply filter_In. split; [exact Hin|].
  unfold in_blocks. apply andb_true_iff. split; apply Z.leb_le; lia.
Qed.

(** On such a node an attempt succeeds and writes a row for every log of
    the pool in the window. *)
Lemma attempt_node (c : Chain) pool a b s :
  exists s' A C D,
    try_except (index_pool_events (node_of c) pool a b) s = (Ok tt, s') /\
    pool_liquidity_events (working (conn s')) =
      pool_liquidity_events (working (conn s)) ++ A /\
    pool_swaps (working (conn s')) = pool_swaps (working (conn s)) ++ C /\
    pool_fee_claims (working (conn s')) = pool_fee_claims (working (conn s)) ++ D /\
    indexed_between c [pool] a b A C D.
Proof.
  destruct (attempt_spec (node_of c) pool a b s) as (s' & Htry & [[[=] _]|Hpi]).
  destruct Hpi as (addr & res & A & B & C & D & [= <-] & _ & Hpi).
  assert (Hres : res = Ok tt).
  { destruct res as [[]|]; [reflexivity|].
    destruct (pi_raised _ _ _ _ _ _ _ _ _ _ _ _ Hpi eq_refl)
      as [[t [=]]|[[t [=]]|[[t [=]]|[[t [=]]|(t & n & [=])]]]]. }
  destruct (pi_complete _ _ _ _ _ _ _ _ _ _ _ _ Hpi Hres) as (HA & HB & HC & HD).
  apply (indexed_all_node c MintBurnLog.blockNumber (mint_row pool)
           (chain_mints c pool) a b) in HA.
  apply (indexed_all_node c MintBurnLog.blockNumber (burn_row pool)
           (chain_burns c pool) a b) in HB.
  apply (indexed_all_node c SwapLog.blockNumber (swap_row pool)
           (chain_swaps c pool) a b) in HC.
  apply (indexed_all_node c ClaimLog.blockNumber (claim_row pool)
           (chain_claims c pool) a b) in HD.
  exists s', (A ++ B), C, D.
  split; [exact Htry|]. split; [apply Hpi|]. split; [apply Hpi|]. split; [apply Hpi|].
  intros p [<-|[]]. repeat split; intros ev Hin Hr.
  - apply in_or_app. left. rewrite HA.
    now apply (in_decoded_range MintBurnLog.blockNumber (mint_row_of c pool)).
  - apply in_or_app. right. rewrite HB.
    now apply (in_decoded_range MintBurnLog.blockNumber (burn_row_of c pool)).
  - rewrite HC. now apply (in_decoded_range SwapLog.blockNumber (swap_row_of c pool)).
  - rewrite HD. now apply (in_decoded_range ClaimLog.blockNumber (claim_row_of c pool)).
Qed.

Lemma indexed_between_more c pools lo hi A C D A' C' D' :
  indexed_between c pools lo hi A C D ->
  indexed_between c pools lo hi (A ++ A') (C ++ C') (D ++ D').
Proof.
  intros H pool Hp. destruct (H pool Hp) as (H1 & H2 & H3 & H4).
  repeat split; intros ev Hin Hr; apply in_or_app; left; auto.
Qed.

Lemma indexed_between_later c pools lo hi A C D A' C' D' :
  indexed_between c pools lo hi A' C' D' ->
  indexed_between c pools lo hi (A ++ A') (C ++ C') (D ++ D').
Proof.
  intros H pool Hp. destruct (H pool Hp) as (H1 & H2 & H3 & H4).
  repeat split; intros ev Hin Hr; apply in_or_app; right; auto.
Qed.

Lemma pool_loop_node (c : Chain) pools a b s :
  let s' := snd (for_each pools
                   (fun pool => try_except (index_pool_events (node_of c) pool a b)) s) in
  covers c pools a b (working (conn s)) (working (conn s')).
Proof.
  destruct (for_each_total_inv
              (fun pool => try_except (index_pool_events (node_of c) pool a b))
              (fun done s1 => covers c done a b (working (conn s)) (working (conn s1)))
              pools [] s) as [_ Hinv].
  - intros x s1. apply attempt_frame.
  - intros done x rest s1 _ (A & C & D & HA & HC & HD & Hib).
    destruct (attempt_node c x a b s1) as (s2 & A' & C' & D' & -> & EA & EC & ED & Hx).
    cbn [snd]. exists (A ++ A'), (C ++ C'), (D ++ D').
    rewrite EA, EC, ED, HA, HC, HD, <- !app_assoc.
    split; [reflexivity|]. split; [reflexivity|]. split; [reflexivity|].
    intros pool Hp. apply in_app_or in Hp as [Hp|Hp].
    + now apply (indexed_between_more c done a b A C D A' C' D' Hib).
    + now apply (indexed_between_later c [x] a b A C D A' C' D' Hx).
  - exists [], [], []. rewrite !app_nil_r.
    split; [reflexivity|]. split; [reflexivity|]. split; [reflexivity|].
    intros pool [].
  - exact Hinv.
Qed.

Lemma index_window_node (c : Chain) pools cur from start base s :
  from <= start <= cur ->
  covers c pools from (start - 1) base (working (conn s)) ->
  covers c pools from (window_end cur start) base
         (working (conn (snd (index_window (node_of c) pools cur start s)))).
Proof.
  intros Hstart (A & C & D & HA & HC & HD & Hib).
  unfold index_window, bind.
  pose proof (pool_loop_node c pools start (Z.min (start + step - 1) cur) s) as Hloop.
  destruct (pool_loop_frame (node_of c) pools start (Z.min (start + step - 1) cur) s)
    as (Hok & _).
  destruct (for_each pools _ s) as [[[]|] s1]; simpl in Hok, Hloop; [|discriminate].
  destruct Hloop as (A' & C' & D' & EA & EC & ED & Hnew).
  unfold covers. cbn. exists (A ++ A'), (C ++ C'), (D ++ D').
  rewrite EA, EC, ED, HA, HC, HD, <- !app_assoc.
  split; [reflexivity|]. split; [reflexivity|]. split; [reflexivity|].
  intros pool Hpool. unfold window_end.
  destruct (Hib pool Hpool) as (O1 & O2 & O3 & O4).
  destruct (Hnew pool Hpool) as (N1 & N2 & N3 & N4).
  repeat split; intros ev Hin Hr; apply in_or_app.
  - destruct (Z_le_gt_dec (MintBurnLog.blockNumber ev) (start - 1));
      [left; apply O1|right; apply N1]; auto; lia.
  - destruct (Z_le_gt_dec (MintBurnLog.blockNumber ev) (start - 1));
      [left; apply O2|right; apply N2]; auto; lia.
  - destruct (Z_le_gt_dec (SwapLog.blockNumber ev) (start - 1));
      [left; apply O3|right; apply N3]; auto; lia.
  - destruct (Z_le_gt_dec (ClaimLog.blockNumber ev) (start - 1));
      [left; apply O4|right; apply N4]; auto; lia.
Qed.

Lemma run_node (c : Chain) pools d t last_block :
  indexer_state d = Some last_block ->
  last_block < chain_head c ->
  indexer_state (db_after (run (node_of c) pools d t)) = Some (chain_head c) /\
  covers c pools last_block (chain_head c) d (db_after (run (node_of c) pools d t)).
Proof.
  intros Hd Hlt.
  destruct (run_scans (node_of c) pools d t (chain_head c) (chain_head c)
              eq_refl eq_refl) as (_ & Hst & _); [now rewrite Hd|].
  split; [exact Hst|].
  pose proof (run_cases (node_of c) pools d t) as H. cbn in H. rewrite Hd in H.
  assert (E : (last_block >=? chain_head c) = false)
    by (rewrite Z.geb_leb; apply Z.leb_gt; lia).
  rewrite E in H. destruct H as (res & s' & Hloop & ->).
  unfold db_after. cbn [fst snd].
  destruct (scan_inv (index_window (node_of c) pools (chain_head c))
              (fun bnd s1 => clean s1 /\
                             covers c pools last_block bnd d (working (conn s1)))
              last_block (chain_head c))
    with (n := Z.to_nat (chain_head c + 1 - last_block)) (from := last_block)
         (s := {| conn := connect d; rpc_clock := S (S t) |}) as (_ & Hc & Hcov).
  - intros start s1 Hstart [_ Hcov1].
    destruct (index_window_spec (node_of c) pools (chain_head c) start s1)
      as (s2 & Hs2 & Hc2 & _).
    pose proof (index_window_node c pools (chain_head c) last_block start d s1
                  Hstart Hcov1) as Hcov2.
    rewrite Hs2 in *. cbn [fst snd] in *. now repeat split.
  - lia.
  - lia.
  - split; [reflexivity|]. exists [], [], []. cbn. rewrite !app_nil_r.
    split; [reflexivity|]. split; [reflexivity|]. split; [reflexivity|].
    intros pool _. repeat split; intros ev _ Hr; lia.
  - rewrite Hloop in Hc, Hcov. cbn [snd] in Hc, Hcov. now rewrite Hc.
Qed.

(** The last window of a scan ends at the head. *)
Lemma last_window_end cur :
  forall (n : nat) from dflt,
    (Z.to_nat (cur - from) <= n)%nat -> from <= cur ->
    List.last (map (window_end cur) (range from (cur + 1) step)) dflt = cur.
Proof.
  induction n as [|n IH]; intros from dflt Hn Hle;
    rewrite range_unfold by (unfold step; lia); cbn [map].
  - rewrite range_nil by (unfold step; lia). cbn. unfold window_end, step. lia.
  - destruct (Z_le_gt_dec cur (from + step - 1)) as [Hlast|Hmore].
    + rewrite range_nil by (unfold step in *; lia). cbn. unfold window_end. lia.
    + specialize (IH (from + step) dflt
                     ltac:(unfold step in *; lia) ltac:(lia)).
      rewrite range_unfold in IH |- * by (unfold step in *; lia).
      cbn [map] in IH |- *. exact IH.
Qed.

(** C10. Take a stored checkpoint below the head, a run at head [head1]
    and a later run at head [head2] against a node that always answers.
    The first run's last window ends at [head1], which it leaves as the
    checkpoint; the second run's first window starts at [head1] itself; and
    every log of a tracked pool in block [head1] (Mint, Burn, Swap or Claim)
    has its row among the rows the first run appended and again among the
    rows the second run appended. *)
Theorem C10_checkpoint_block_indexed_twice :
  forall (c : Chain) (pools : list string) (d : DB) (t1 t2 : nat)
         (last_block head1 head2 : Z),
    indexer_state d = Some last_block ->
    last_block < head1 ->
    head1 < head2 ->
    let d1 := db_after (run (node_of (at_head c head1)) pools d t1) in
    let d2 := db_after (run (node_of (at_head c head2)) pools d1 t2) in
    List.last (map (window_end head1) (range last_block (head1 + 1) step)) last_block = head1 /\
    indexer_state d1 = Some head1 /\
    range head1 (head2 + 1) step = head1 :: range (head1 + step) (head2 + 1) step /\
    forall pool, In pool pools ->
      (forall ev, In ev (chain_mints c pool) -> MintBurnLog.blockNumber ev = head1 ->
         In (mint_row_of c pool ev)
            (appended (pool_liquidity_events d) (pool_liquidity_events d1)) /\
         In (mint_row_of c pool ev)
            (appended (pool_liquidity_events d1) (pool_liquidity_events d2))) /\
      (forall ev, In ev (chain_burns c pool) -> MintBurnLog.blockNumber ev = head1 ->
         In (burn_row_of c pool ev)
            (appended (pool_liquidity_events d) (pool_liquidity_events d1)) /\
         In (burn_row_of c pool ev)
            (appended (pool_liquidity_events d1) (pool_liquidity_events d2))) /\
      (forall ev, In ev (chain_swaps c pool) -> SwapLog.blockNumber ev = head1 ->
         In (swap_row_of c pool ev) (appended (pool_swaps d) (pool_swaps d1)) /\
         In (swap_row_of c pool ev) (appended (pool_swaps d1) (pool_swaps d2))) /\
      (forall ev, In ev (chain_claims c pool) -> ClaimLog.blockNumber ev = head1 ->
         In (claim_row_of c pool ev) (appended (pool_fee_claims d) (pool_fee_claims d1)) /\
         In (claim_row_of c pool ev) (appended (pool_fee_claims d1) (pool_fee_claims d2))).
Proof.
  intros c pools d t1 t2 lb h1 h2 Hd H1 H2 d1 d2.
  destruct (run_node (at_head c h1) pools d t1 lb Hd H1) as [Hst1 Hcov1].
  fold d1 in Hst1, Hcov1. cbn [chain_head at_head] in Hst1, Hcov1.
  destruct (run_node (at_head c h2) pools d1 t2 h1 Hst1 H2) as [_ Hcov2].
  fold d2 in Hcov2. cbn [chain_head at_head] in Hcov2.
  split; [apply (last_window_end h1 (Z.to_nat (h1 - lb))); lia|].
  split; [exact Hst1|].
  split; [apply range_unfold; unfold step; lia|].
  destruct Hcov1 as (A1 & C1 & D1 & EA1 & EC1 & ED1 & Hib1).
  destruct Hcov2 as (A2 & C2 & D2 & EA2 & EC2 & ED2 & Hib2).
  rewrite EA2, EC2, ED2, EA1, EC1, ED1, !appended_app.
  intros pool Hpool.
  destruct (Hib1 pool Hpool) as (M1 & B1 & S1 & K1).
  destruct (Hib2 pool Hpool) as (M2 & B2 & S2 & K2).
  repeat split; intros;
    first [apply M1|apply M2|apply B1|apply B2|apply S1|apply S2|apply K1|apply K2];
    cbn [chain_mints chain_burns chain_swaps chain_claims at_head]; auto; lia.
Qed.

(** C10 on the demo chain: checkpoint 10, runs at heads 30 and 40; the
    swap of block 30 is stored twice. *)
Lemma C10_checkpoint_block_indexed_twice_witness :
  let row := swap_row_of (demo_chain 0) scenario_pool (swap_at 30 7 9) in
  let d1 := db_after (run (node_of (demo_chain 30)) [scenario_pool] demo_db 0) in
  let d2 := db_after (run (node_of (demo_chain 40)) [scenario_pool] d1 9) in
  pool_swaps d2 = [row; row] /\
  In row (appended (pool_swaps demo_db) (pool_swaps d1)) /\
  In row (appended (pool_swaps d1) (pool_swaps d2)).
Proof.
  cbv zeta. split; [vm_compute; reflexivity|].
  destruct (C10_checkpoint_block_indexed_twice (demo_chain 0) [scenario_pool] demo_db
              0%nat 9%nat 10 30 40 eq_refl ltac:(lia) ltac:(lia))
    as (_ & _ & _ & Hdup).
  destruct (Hdup scenario_pool (or_introl eq_refl)) as (_ & _ & Hswap & _).
  apply (Hswap (swap_at 30 7 9)); [now left|reflexivity].
Defined.

(** * Further properties *)

(** ** Windows of a scan *)

Lemma range_elements from stop st x :
  0 < st ->
  (In x (range from stop st) <->
   from <= x < stop /\ (x - from) mod st = 0).
Proof.
  intros Hst. split.
  - intros Hin. split; [now apply (range_In from stop st)|].
    unfold range in Hin. apply in_map_iff in Hin as (i & <- & _).
    replace (from + Z.of_nat i * st - from) with (Z.of_nat i * st) by lia.
    apply Z_mod_mult.
  - intros [Hr Hm]. unfold range. apply in_map_iff.
    exists (Z.to_nat ((x - from) / st)). split.
    + rewrite Z2Nat.id by (apply Z.div_pos; lia).
      pose proof (Z.div_mod (x - from) st ltac:(lia)) as E. lia.
    + apply in_seq. split; [lia|]. cbn.
      apply Z2Nat.inj_lt; [apply Z.div_pos; lia| |].
      * apply Z.div_pos; lia.
      * apply Z.div_lt_upper_bound; [lia|].
        assert (Hq : st * ((stop - from + st - 1) / st) > stop - from - 1).
        { pose proof (Z.mul_succ_div_gt (stop - from + st - 1) st Hst). lia. }
        lia.
Qed.

(** X1. The windows of a scan partition the blocks from the checkpoint to
    the head: every window lies within them and holds at most 5000 blocks,
    and every block from the checkpoint to the head lies in exactly one
    window. *)
Theorem X1_windows_partition_blocks :
  forall from current_block : Z,
    (forall start,
        In start (range from (current_block + 1) step) ->
        from <= start <= window_end current_block start /\
        window_end current_block start <= current_block /\
        window_end current_block start - start < 5000) /\
    (forall b,
        from <= b <= current_block ->
        exists start,
          In start (range from (current_block + 1) step) /\
          start <= b <= window_end current_block start /\
          forall start',
            In start' (range from (current_block + 1) step) ->
            start' <= b <= window_end current_block start' ->
            start' = start).
Proof.
  intros from cur. split.
  - intros start Hin. apply range_In in Hin; [|unfold step; lia].
    unfold window_end, step. lia.
  - intros b Hb.
    pose proof (Z.div_mod (b - from) step ltac:(unfold step; lia)) as E.
    pose proof (Z.mod_pos_bound (b - from) step ltac:(unfold step; lia)) as Hm.
    exists (from + step * ((b - from) / step)). split; [|split].
    + apply range_elements; [unfold step; lia|]. split.
      * assert (0 <= (b - from) / step) by (apply Z.div_pos; unfold step; lia).
        unfold step in *. lia.
      * replace (from + step * ((b - from) / step) - from)
          with ((b - from) / step * step) by lia.
        apply Z_mod_mult.
    + unfold window_end. unfold step in *. lia.
    + intros start' Hin' Hb'.
      apply range_elements in Hin' as [Hr' Hm']; [|unfold step; lia].
      unfold window_end in Hb'.
      apply Z.mod_divide in Hm' as [k Hk]; [|unfold step; lia].
      assert (Hq : k = (b - from) / step).
      { apply (Z.div_unique (b - from) step k (b - start'));
          unfold step in *; lia. }
      rewrite <- Hq. lia.
Qed.

Lemma X1_windows_partition_blocks_witness :
  exists start,
    In start (range 0 (12000 + 1) step) /\ start <= 7000 <= window_end 12000 start.
Proof.
  destruct (proj2 (X1_windows_partition_blocks 0 12000) 7000 ltac:(lia))
    as (start & Hin & Hb & _).
  now exists start.
Defined.

(** ** What a run may write *)

Lemma rows_of_pools_refl pools d : rows_of_pools pools d d.
Proof.
  exists [], [], []. rewrite !app_nil_r.
  split; [reflexivity|]. split; [reflexivity|]. split; [reflexivity|].
  split; [constructor|]. split; constructor.
Qed.

Lemma rows_of_pools_same pools base d d' :
  same_rows d d' -> rows_of_pools pools base d -> rows_of_pools pools base d'.
Proof.
  intros (E1 & E2 & E3) (A & C & D & HA & HC & HD & H).
  exists A, C, D. rewrite E1, E2, E3. now repeat split.
Qed.

Lemma attempt_rows_of_pools w3 pools base pool a b s :
  In pool pools ->
  rows_of_pools pools base (working (conn s)) ->
  rows_of_pools pools base
    (working (conn (snd (try_except (index_pool_events w3 pool a b) s)))).
Proof.
  intros Hin (A0 & C0 & D0 & HA & HC & HD & FA & FC & FD).
  destruct (attempt_spec w3 pool a b s) as (s' & -> & [[_ ->]|Hpi]); cbn [snd].
  - now exists A0, C0, D0.
  - destruct Hpi as (addr & res & A & B & C & D & _ & _ & Hpi).
    assert (Hl : In (lower pool) (map lower pools)) by now apply in_map.
    exists (A0 ++ A ++ B), (C0 ++ C), (D0 ++ D).
    rewrite (pi_liquidity _ _ _ _ _ _ _ _ _ _ _ _ Hpi),
            (pi_swaps _ _ _ _ _ _ _ _ _ _ _ _ Hpi),
            (pi_claims _ _ _ _ _ _ _ _ _ _ _ _ Hpi), HA, HC, HD, <- !app_assoc.
    split; [reflexivity|]. split; [reflexivity|]. split; [reflexivity|].
    split; [|split].
    + apply Forall_app. split; [exact FA|]. apply Forall_app. split.
      * apply (indexed_prefix_Forall w3 MintBurnLog.blockNumber (mint_row pool)
                 (fun t => Mint_get_logs w3 t addr a b)); [intros; exact Hl|apply Hpi].
      * apply (indexed_prefix_Forall w3 MintBurnLog.blockNumber (burn_row pool)
                 (fun t => Burn_get_logs w3 t addr a b)); [intros; exact Hl|apply Hpi].
    + apply Forall_app. split; [exact FC|].
      apply (indexed_prefix_Forall w3 SwapLog.blockNumber (swap_row pool)
               (fun t => Swap_get_logs w3 t addr a b)); [intros; exact Hl|apply Hpi].
    + apply Forall_app. split; [exact FD|].
      apply (indexed_prefix_Forall w3 ClaimLog.blockNumber (claim_row pool)
               (fun t => Claim_get_logs w3 t addr a b)); [intros; exact Hl|apply Hpi].
Qed.

Lemma index_window_rows_of_pools w3 pools base cur start s :
  rows_of_pools pools base (working (conn s)) ->
  rows_of_pools pools base
    (working (conn (snd (index_window w3 pools cur start s)))).
Proof.
  intros Hs. unfold index_window, bind.
  destruct (for_each_total_inv
              (fun pool => try_except
                 (index_pool_events w3 pool start (Z.min (start + step - 1) cur)))
              (fun _ s1 => rows_of_pools pools base (working (conn s1)))
              pools [] s) as [Hok Hinv].
  - intros x s1. apply attempt_frame.
  - intros done x rest s1 Heq Hd. apply attempt_rows_of_pools; [|exact Hd].
    cbn [app] in Heq. rewrite <- Heq. apply in_or_app. right. now left.
  - exact Hs.
  - destruct (for_each pools _ s) as [[[]|] s1]; simpl in Hok, Hinv; [|discriminate].
    cbn. eapply rows_of_pools_same; [|exact Hinv]. now repeat split.
Qed.

(** X2. Whatever the node answers, a run only appends: the rows stored
    before it are kept, in place and unchanged, and every row it adds
    carries the lower-cased address of one of the pools it was given. *)
Theorem X2_run_appends_rows_of_its_pools :
  forall (w3 : Web3) (pools : list string) (d : DB) (t : nat),
    let d' := db_after (run w3 pools d t) in
    exists A C D,
      pool_liquidity_events d' = pool_liquidity_events d ++ A /\
      pool_swaps d' = pool_swaps d ++ C /\
      pool_fee_claims d' = pool_fee_claims d ++ D /\
      Forall (fun r => In (LiquidityEvent.pool_address r) (map lower pools)) A /\
      Forall (fun r => In (SwapEvent.pool_address r) (map lower pools)) C /\
      Forall (fun r => In (FeeClaim.pool_address r) (map lower pools)) D.
Proof.
  intros w3 pools d t. cbv zeta. change (rows_of_pools pools d (db_after (run w3 pools d t))).
  pose proof (run_cases w3 pools d t) as H.
  destruct (eth_block_number w3 t) as [cur|];
    [|rewrite H; apply rows_of_pools_refl].
  destruct (eth_block_number w3 (S t)) as [head|];
    [|rewrite H; apply rows_of_pools_refl].
  cbn zeta in H.
  set (from := match indexer_state d with
               | Some last_block => last_block
               | None => Z.max 0 (head - 200000)
               end) in *.
  set (d0 := match indexer_state d with Some _ => d | None => replace_state from d end) in *.
  assert (Hd0 : same_rows d d0)
    by (subst d0; destruct (indexer_state d); now repeat split).
  destruct (from >=? cur) eqn:E.
  - rewrite H. unfold db_after. cbn [fst snd].
    eapply rows_of_pools_same; [exact Hd0|apply rows_of_pools_refl].
  - rewrite Z.geb_leb in E. apply Z.leb_gt in E.
    destruct H as (res & s' & Hloop & ->). unfold db_after. cbn [fst snd].
    destruct (scan_inv (index_window w3 pools cur)
                (fun _ s1 => clean s1 /\ rows_of_pools pools d (working (conn s1)))
                from cur) with (n := Z.to_nat (cur + 1 - from)) (from := from)
                               (s := {| conn := connect d0; rpc_clock := S (S t) |})
      as (_ & Hc & Hr).
    + intros start s1 _ [_ Hr1].
      destruct (index_window_spec w3 pools cur start s1) as (s2 & Hs2 & Hc2 & _).
      pose proof (index_window_rows_of_pools w3 pools d cur start s1 Hr1) as Hr2.
      rewrite Hs2 in *. cbn [fst snd] in *. now repeat split.
    + lia.
    + lia.
    + split; [reflexivity|]. cbn [conn connect working].
      eapply rows_of_pools_same; [exact Hd0|apply rows_of_pools_refl].
    + rewrite Hloop in Hc, Hr. cbn [snd] in Hc, Hr. now rewrite Hc.
Qed.




(** X4. A run whose starting block is below the head read by [main]
    returns normally, whatever the node answers to the requests for logs and
    timestamps, and leaves the checkpoint at that head: the head read later
    by [get_start_block] only serves to seed a missing checkpoint. *)
Theorem X4_scan_ends_at_head_read_by_main :
  forall (w3 : Web3) (pools : list string) (d : DB) (t : nat)
         (current_block head : Z),
    eth_block_number w3 t = Some current_block ->
    eth_block_number w3 (S t) = Some head ->
    match indexer_state d with
    | Some last_block => last_block
    | None => Z.max 0 (head - 200000)
    end < current_block ->
    outcome (run w3 pools d t) = Ok tt /\
    indexer_state (db_after (run w3 pools d t)) = Some current_block.
Proof.
  intros w3 pools d t cur head H1 H2 Hlt.
  destruct (run_scans w3 pools d t cur head H1 H2 Hlt) as (Hok & Hst & _).
  now split.
Qed.

Lemma X4_scan_ends_at_head_read_by_main_witness :
  indexer_state (db_after (run (outage_w3 30) [scenario_pool] demo_db 0)) = Some 30.
Proof.
  apply (X4_scan_ends_at_head_read_by_main (outage_w3 30) [scenario_pool] demo_db
           0%nat 30 30 eq_refl eq_refl).
  cbn. lia.
Defined.

(** ** Outage of the log requests *)

Lemma index_pool_events_mint_outage w3 pool a b s :
  (forall t addr, Mint_get_logs w3 t addr a b = None) ->
  fst (index_pool_events w3 pool a b s) = Raised /\
  conn (snd (index_pool_events w3 pool a b s)) = conn s.
Proof.
  intros Hout. unfold index_pool_events.
  destruct (to_checksum_address w3 pool) as [addr|]; [|now split].
  unfold bind, checked, ret, rpc. rewrite Hout. now split.
Qed.

Lemma index_window_mint_outage w3 pools cur start s :
  (forall t addr a b, Mint_get_logs w3 t addr a b = None) ->
  same_rows (working (conn s))
            (working (conn (snd (index_window w3 pools cur start s)))).
Proof.
  intros Hout. unfold index_window, bind.
  destruct (for_each_total_inv
              (fun pool => try_except
                 (index_pool_events w3 pool start (Z.min (start + step - 1) cur)))
              (fun _ s1 => conn s1 = conn s)
              pools [] s) as [Hok Hinv].
  - intros x s1. apply attempt_frame.
  - intros done x rest s1 _ Hd. unfold try_except, try_catch.
    destruct (index_pool_events_mint_outage w3 x start
                (Z.min (start + step - 1) cur) s1) as [Hr Hc];
      [intros; apply Hout|].
    destruct (index_pool_events w3 x start _ s1) as [[[]|] s2];
      cbn in Hr, Hc |- *; [discriminate|]. now rewrite Hc.
  - reflexivity.
  - destruct (for_each pools _ s) as [[[]|] s1]; simpl in Hok, Hinv; [|discriminate].
    cbn. rewrite Hinv. now repeat split.
Qed.

(** X5. When every request for Mint logs fails (the first request of each
    attempt), a run stores no row at all, yet a run that scans still moves
    the checkpoint to the head, past the blocks whose logs it could not
    fetch. *)
Theorem X5_outage_advances_checkpoint_without_rows :
  forall (w3 : Web3) (pools : list string) (d : DB) (t : nat),
    (forall t' addr a b, Mint_get_logs w3 t' addr a b = None) ->
    same_rows d (db_after (run w3 pools d t)) /\
    (forall current_block head last_block,
        eth_block_number w3 t = Some current_block ->
        eth_block_number w3 (S t) = Some head ->
        indexer_state d = Some last_block ->
        last_block < current_block ->
        indexer_state (db_after (run w3 pools d t)) = Some current_block).
Proof.
  intros w3 pools d t Hout. split.
  - pose proof (run_cases w3 pools d t) as H.
    destruct (eth_block_number w3 t) as [cur|]; [|rewrite H; now repeat split].
    destruct (eth_block_number w3 (S t)) as [head|]; [|rewrite H; now repeat split].
    cbn zeta in H.
    set (from := match indexer_state d with
                 | Some last_block => last_block
                 | None => Z.max 0 (head - 200000)
                 end) in *.
    set (d0 := match indexer_state d with
               | Some _ => d | None => replace_state from d end) in *.
    assert (Hd0 : same_rows d d0)
      by (subst d0; destruct (indexer_state d); now repeat split).
    destruct (from >=? cur) eqn:E; [rewrite H; exact Hd0|].
    rewrite Z.geb_leb in E. apply Z.leb_gt in E.
    destruct H as (res & s' & Hloop & ->). unfold db_after. cbn [fst snd].
    destruct (scan_inv (index_window w3 pools cur)
                (fun _ s1 => clean s1 /\ same_rows d (working (conn s1)))
                from cur) with (n := Z.to_nat (cur + 1 - from)) (from := from)
                               (s := {| conn := connect d0; rpc_clock := S (S t) |})
      as (_ & Hc & Hr).
    + intros start s1 _ [_ (R1 & R2 & R3)].
      destruct (index_window_spec w3 pools cur start s1) as (s2 & Hs2 & Hc2 & _).
      pose proof (index_window_mint_outage w3 pools cur start s1 Hout) as (Q1 & Q2 & Q3).
      rewrite Hs2 in *. cbn [fst snd] in *.
      split; [reflexivity|]. split; [exact Hc2|].
      unfold same_rows. rewrite Q1, Q2, Q3. now repeat split.
    + lia.
    + lia.
    + split; [reflexivity|exact Hd0].
    + rewrite Hloop in Hc, Hr. cbn [snd] in Hc, Hr. now rewrite Hc.
  - intros cur head lb H1 H2 Hd Hlt.
    destruct (run_scans w3 pools d t cur head H1 H2) as (_ & Hst & _);
      [now rewrite Hd|exact Hst].
Qed.

Lemma X5_outage_advances_checkpoint_without_rows_witness :
  db_after (run (mint_outage_w3 30) [scenario_pool] demo_db 0) =
    {| pool_liquidity_events := []; pool_swaps := []; pool_fee_claims := [];
       indexer_state := Some 30 |}.
Proof.
  pose proof (X5_outage_advances_checkpoint_without_rows (mint_outage_w3 30)
                [scenario_pool] demo_db 0%nat (fun _ _ _ _ => eq_refl)) as [_ Hst].
  specialize (Hst 30 30 10 eq_refl eq_refl eq_refl ltac:(lia)).
  vm_compute. reflexivity.
Defined.

(** ** Cost and effect of one attempt on a node that always answers *)

Lemma bind_Ok {S A B} (m : M S A) (k : A -> M S B) s a s1 :
  m s = (Ok a, s1) -> bind m k s = k a s1.
Proof. intros H. unfold bind. now rewrite H. Qed.

Lemma insert_loop_node (c : Chain) {L R} (bn : L -> Z) (mk : L -> Z -> R)
      (ins : R -> DB -> DB) :
  forall evs s,
    for_each evs
      (fun ev => bind (get_block_timestamp (node_of c) (bn ev))
                      (fun ts => execute (ins (mk ev ts)))) s =
    (Ok tt,
     {| conn := {| committed := committed (conn s);
                   working := inserts ins
                                (map (fun ev => mk ev (chain_timestamp c (bn ev))) evs)
                                (working (conn s)) |};
        rpc_clock := rpc_clock s + length evs |}).
Proof.
  induction evs as [|ev evs IH]; intros s.
  - cbn. rewrite Nat.add_0_r. now destruct s as [[? ?] ?].
  - rewrite for_each_cons. cbn [bind get_block_timestamp rpc node_of
                                 eth_get_block_timestamp execute conn rpc_clock].
    unfold bind, get_block_timestamp, rpc, execute. cbn [node_of eth_get_block_timestamp].
    rewrite IH. cbn [conn rpc_clock committed working map inserts fold_left length].
    do 2 f_equal. lia.
Qed.

(** X6. On a node that always answers, one [index_pool_events] returns
    normally, has then committed the rows of all the pool's logs of the
    window (Mint rows first, then Burn, Swap and Claim rows, each kind in
    the node's order), and has issued four requests for logs plus one
    timestamp request per log, logs of one block included. *)
Theorem X6_attempt_commits_window_and_costs_one_call_per_log :
  forall (c : Chain) (pool : string) (a b : Z) (s : Indexer),
    index_pool_events (node_of c) pool a b s =
      (Ok tt,
       {| conn := connect (indexed_db c pool a b (working (conn s)));
          rpc_clock := rpc_clock s + 4 + window_log_count c pool a b |}).
Proof.
  intros c pool a b s. unfold index_pool_events.
  cbn [node_of to_checksum_address checked].
  rewrite (bind_Ok _ _ s pool s) by reflexivity.
  erewrite bind_Ok by reflexivity.
  erewrite (bind_Ok (for_each _ _)) by apply insert_loop_node.
  erewrite bind_Ok by reflexivity.
  erewrite (bind_Ok (for_each _ _)) by apply insert_loop_node.
  erewrite bind_Ok by reflexivity.
  erewrite (bind_Ok (for_each _ _)) by apply insert_loop_node.
  erewrite bind_Ok by reflexivity.
  erewrite (bind_Ok (for_each _ _)) by apply insert_loop_node.
  unfold commit, connect, indexed_db, window_log_count, window_logs,
         mint_row_of, burn_row_of, swap_row_of, claim_row_of.
  cbn [conn rpc_clock working committed].
  do 2 f_equal. lia.
Qed.

Lemma X6_attempt_commits_window_and_costs_one_call_per_log_witness :
  rpc_clock (snd (index_pool_events (node_of (demo_chain 30)) scenario_pool 10 30
                    {| conn := connect demo_db; rpc_clock := 2 |})) = 10%nat.
Proof.
  rewrite X6_attempt_commits_window_and_costs_one_call_per_log. reflexivity.
Defined.

(** ** From the indexer to the reader *)

Lemma replay_times rows : forall t0 t1,
  map time (replay t0 t1 rows) = map LiquidityEvent.block_time rows.
Proof.
  induction rows as [|r rows IH]; intros t0 t1; cbn; [reflexivity|]. now rewrite IH.
Qed.

Lemma liquidity_rows_In d pl since r :
  In r (liquidity_rows d pl since) <->
  In r (pool_liquidity_events d) /\
  LiquidityEvent.pool_address r = pl /\ since <= LiquidityEvent.block_time r.
Proof.
  unfold liquidity_rows. split.
  - intros Hin. apply (Permutation_in _ (order_by_perm _ _)) in Hin.
    apply filter_In in Hin as [Hin Hf]. apply andb_true_iff in Hf as [H1 H2].
    apply String.eqb_eq in H1. apply Z.leb_le in H2. now repeat split.
  - intros (Hin & Hp & Hs).
    apply (Permutation_in _ (Permutation_sym (order_by_perm _ _))).
    apply filter_In. split; [exact Hin|]. apply andb_true_iff. split.
    + now apply String.eqb_eq.
    + now apply Z.leb_le.
Qed.

(** X7. What the indexer wrote, the reader finds: after a run against a
    node that always answers, every Mint or Burn log of a tracked pool in
    the scanned blocks whose block time lies in the lookback window gives a
    point of [get_liquidity_timeseries] at that time, whatever the letter
    case in which the pool address is asked. *)
Theorem X7_indexed_liquidity_is_read_back :
  forall (c : Chain) (pools : list string) (d : DB) (t : nat) (last_block : Z)
         (pool query : string) (ev : MintBurnLog.t) (clock : Clock) (lookback_days : Z),
    indexer_state d = Some last_block ->
    last_block < chain_head c ->
    In pool pools ->
    lower query = lower pool ->
    In ev (chain_mints c pool) \/ In ev (chain_burns c pool) ->
    last_block <= MintBurnLog.blockNumber ev <= chain_head c ->
    since_ts clock (lookback_days * 86400)
      <= chain_timestamp c (MintBurnLog.blockNumber ev) ->
    exists p,
      In p (get_liquidity_timeseries (db_after (run (node_of c) pools d t))
                                     clock query lookback_days) /\
      time p = chain_timestamp c (MintBurnLog.blockNumber ev).
Proof.
  intros c pools d t lb pool query ev clock days Hd Hlt Hpool Hq Hev Hb Hs.
  destruct (run_node c pools d t lb Hd Hlt)
    as [_ (A & C & D & HA & _ & _ & Hib)].
  destruct (Hib pool Hpool) as (HM & HB & _ & _).
  set (d' := db_after (run (node_of c) pools d t)) in *.
  assert (Hrow : exists r, In r (pool_liquidity_events d') /\
                           LiquidityEvent.pool_address r = lower query /\
                           LiquidityEvent.block_time r =
                             chain_timestamp c (MintBurnLog.blockNumber ev)).
  { destruct Hev as [Hev|Hev].
    - exists (mint_row_of c pool ev). rewrite HA. split; [|now rewrite Hq].
      apply in_or_app. right. now apply HM.
    - exists (burn_row_of c pool ev). rewrite HA. split; [|now rewrite Hq].
      apply in_or_app. right. now apply HB. }
  destruct Hrow as (r & Hin & Hp & Ht).
  rewrite get_liquidity_timeseries_replay.
  assert (Hr : In r (liquidity_rows d' (lower query)
                                    (since_ts clock (days * 86400)))).
  { apply liquidity_rows_In. split; [exact Hin|]. split; [exact Hp|]. now rewrite Ht. }
  assert (Htime : In (LiquidityEvent.block_time r)
                     (map time (replay 0 0 (liquidity_rows d' (lower query)
                                              (since_ts clock (days * 86400))))))
    by (rewrite replay_times; now apply in_map).
  apply in_map_iff in Htime as (p & Hp' & Hin').
  exists p. split; [exact Hin'|]. now rewrite Hp', Ht.
Qed.

Lemma X7_indexed_liquidity_is_read_back_witness :
  exists p,
    In p (get_liquidity_timeseries
            (db_after (run (node_of (demo_chain 30)) [scenario_pool] demo_db 0))
            {| utcnow := demo_timestamp 30; local_offset := 0 |}
            (lower scenario_pool) 1) /\
    time p = demo_timestamp 15.
Proof.
  apply (X7_indexed_liquidity_is_read_back (demo_chain 30) [scenario_pool] demo_db
           0%nat 10 scenario_pool (lower scenario_pool) (mint_burn_at 15 400 500)
           {| utcnow := demo_timestamp 30; local_offset := 0 |} 1).
  - reflexivity.
  - cbn. lia.
  - now left.
  - reflexivity.
  - right. cbn. now left.
  - cbn. lia.
  - vm_compute. discriminate.
Defined.

(** ** Recent activity *)

Lemma order_by_head_least {A} (key : A -> Z) l x rest :
  order_by key l = x :: rest ->
  In x l /\ forall y, In y l -> key x <= key y.
Proof.
  intros E. pose proof (order_by_perm key l) as Hp. rewrite E in Hp.
  split; [apply (Permutation_in _ Hp); now left|].
  pose proof (order_by_sorted key l) as Hs. rewrite E in Hs.
  apply Sorted_StronglySorted in Hs; [|intros u v w; unfold key_le; lia].
  inversion Hs as [|? ? _ Hall]; subst. rewrite List.Forall_forall in Hall.
  intros y Hy. apply (Permutation_in _ (Permutation_sym Hp)) in Hy.
  destruct Hy as [<-|Hy]; [lia|]. now apply Hall.
Qed.

Lemma latest_liquidity_spec d pl ty since :
  (forall r0, In r0 (pool_liquidity_events d) -> liquidity_match pl ty since r0 ->
     exists r,
       In r (pool_liquidity_events d) /\ liquidity_match pl ty since r /\
       (forall r', In r' (pool_liquidity_events d) -> liquidity_match pl ty since r' ->
                   LiquidityEvent.block_time r' <= LiquidityEvent.block_time r) /\
       latest_liquidity d pl ty since = Some (liquidity_activity r)).
Proof.
  intros r0 Hin0 (P0 & T0 & S0). unfold latest_liquidity, order_by_desc.
  set (f := fun r => String.eqb (LiquidityEvent.pool_address r) pl
                     && EventType_eqb (LiquidityEvent.event_type r) ty
                     && (since <=? LiquidityEvent.block_time r)).
  assert (Hf : forall r, f r = true <-> liquidity_match pl ty since r).
  { intros r. unfold f, liquidity_match. rewrite !andb_true_iff, String.eqb_eq, Z.leb_le.
    assert (EventType_eqb (LiquidityEvent.event_type r) ty = true <->
            LiquidityEvent.event_type r = ty)
      by (destruct (LiquidityEvent.event_type r), ty; cbn; split; congruence).
    tauto. }
  destruct (order_by (fun x => - LiquidityEvent.block_time x)
                     (List.filter f (pool_liquidity_events d))) as [|r rest] eqn:E.
  - exfalso. assert (Hin : In r0 (List.filter f (pool_liquidity_events d))).
    { apply filter_In. split; [exact Hin0|]. apply Hf. now repeat split. }
    apply (Permutation_in _ (Permutation_sym
             (order_by_perm (fun x => - LiquidityEvent.block_time x) _))) in Hin.
    now rewrite E in Hin.
  - apply order_by_head_least in E as [Hin Hleast].
    apply filter_In in Hin as [Hin Hm]. apply Hf in Hm.
    exists r. split; [exact Hin|]. split; [exact Hm|]. split; [|reflexivity].
    intros r' Hin' Hm'.
    assert (H' : In r' (List.filter f (pool_liquidity_events d)))
      by (apply filter_In; split; [exact Hin'|now apply Hf]).
    specialize (Hleast r' H'). lia.
Qed.

(** X8. When the pool has an ADD row in the lookback window,
    [get_recent_activity] reports as [latest_add] the formatted row of the
    pool's ADD rows of the window with the greatest [block_time]; likewise
    [latest_remove] for REMOVE rows. *)
Theorem X8_recent_activity_reports_latest :
  forall (d : DB) (clock : Clock) (pool_address : string) (lookback_hours : Z)
         (ty : EventType) (r0 : LiquidityEvent.t),
    let since := since_ts clock (lookback_hours * 3600) in
    In r0 (pool_liquidity_events d) ->
    liquidity_match (lower pool_address) ty since r0 ->
    exists r,
      In r (pool_liquidity_events d) /\
      liquidity_match (lower pool_address) ty since r /\
      (forall r', In r' (pool_liquidity_events d) ->
                  liquidity_match (lower pool_address) ty since r' ->
                  LiquidityEvent.block_time r' <= LiquidityEvent.block_time r) /\
      match ty with
      | ADD => latest_add (get_recent_activity d clock pool_address lookback_hours)
               = fmt clock (Some (liquidity_activity r)) "Liquidity Added"
      | REMOVE => latest_remove (get_recent_activity d clock pool_address lookback_hours)
                  = fmt clock (Some (liquidity_activity r)) "Liquidity Removed"
      end.
Proof.
  intros d clock pool hours ty r0 since Hin0 Hm0.
  destruct (latest_liquidity_spec d (lower pool) ty since r0 Hin0 Hm0)
    as (r & Hin & Hm & Hmax & Hl).
  exists r. split; [exact Hin|]. split; [exact Hm|]. split; [exact Hmax|].
  unfold get_recent_activity. fold since.
  destruct ty; cbn [latest_add latest_remove]; now rewrite Hl.
Qed.

Lemma X8_recent_activity_reports_latest_witness :
  latest_add (get_recent_activity scenario_db scenario_clock scenario_pool 200)
  = Some ("Liquidity Added: token0 1000 / token1 2000 by "
          ++ "0x00000000000000000000000000000000000000a1 (167h ago)")%string.
Proof.
  destruct (X8_recent_activity_reports_latest scenario_db scenario_clock scenario_pool
              200 ADD (liquidity_row scenario_pool ADD 1000 2000 10 100))
    as (r & Hin & _ & _ & Hl).
  - right. now left.
  - repeat split. vm_compute. discriminate.
  - cbv beta iota in Hl. vm_compute. reflexivity.
Defined.

(** ** Replay and the lookback window *)

Lemma replay_shift rows : forall t0 t1 k0 k1,
  replay (t0 + k0) (t1 + k1) rows = map (shift_point k0 k1) (replay t0 t1 rows).
Proof.
  induction rows as [|r rows IH]; intros t0 t1 k0 k1; [reflexivity|].
  cbn [replay map]. unfold shift_point at 1. cbn [time token0_balance token1_balance].
  destruct (LiquidityEvent.event_type r).
  - replace (t0 + k0 + LiquidityEvent.token0_amount r)
      with (t0 + LiquidityEvent.token0_amount r + k0) by lia.
    replace (t1 + k1 + LiquidityEvent.token1_amount r)
      with (t1 + LiquidityEvent.token1_amount r + k1) by lia.
    now rewrite IH.
  - replace (t0 + k0 - LiquidityEvent.token0_amount r)
      with (t0 - LiquidityEvent.token0_amount r + k0) by lia.
    replace (t1 + k1 - LiquidityEvent.token1_amount r)
      with (t1 - LiquidityEvent.token1_amount r + k1) by lia.
    now rewrite IH.
Qed.

Lemma replay_app recent : forall old t0 t1,
  replay t0 t1 (old ++ recent) =
  replay t0 t1 old ++
  replay (t0 + sumZ (map signed0 old)) (t1 + sumZ (map signed1 old)) recent.
Proof.
  induction old as [|r l IH]; intros t0 t1.
  - cbn. now rewrite !Z.add_0_r.
  - cbn [app replay map sumZ fold_right]. rewrite IH. f_equal. f_equal.
    unfold signed0, signed1, sumZ.
    destruct (LiquidityEvent.event_type r); f_equal; lia.
Qed.

Lemma insert_by_filter {A} (key : A -> Z) (p : A -> bool) x l :
  Sorted (key_le key) l ->
  List.filter p (insert_by key x l) =
  if p x then insert_by key x (List.filter p l) else List.filter p l.
Proof.
  intros Hs. apply Sorted_StronglySorted in Hs; [|intros u v w; unfold key_le; lia].
  induction l as [|y l IH]; cbn.
  - now destruct (p x).
  - inversion Hs as [|? ? Hs' Hall]; subst.
    destruct (key x <=? key y) eqn:E; cbn.
    + destruct (p x) eqn:Px; [|reflexivity].
      destruct (p y) eqn:Py; cbn; [now rewrite E|].
      (* y is dropped: x still goes in front of what is left *)
      destruct (List.filter p l) as [|z l'] eqn:F; [reflexivity|]. cbn.
      assert (Hz : In z l).
      { assert (Hin : In z (List.filter p l)) by (rewrite F; now left).
        now apply filter_In in Hin. }
      rewrite List.Forall_forall in Hall. specialize (Hall z Hz). unfold key_le in Hall.
      apply Z.leb_le in E.
      assert (E' : (key x <=? key z) = true) by (apply Z.leb_le; lia).
      now rewrite E'.
    + rewrite (IH Hs'). destruct (p y) eqn:Py; destruct (p x) eqn:Px; cbn;
        try rewrite E; reflexivity.
Qed.

Lemma order_by_filter {A} (key : A -> Z) (p : A -> bool) l :
  List.filter p (order_by key l) = order_by key (List.filter p l).
Proof.
  induction l as [|x l IH]; [reflexivity|].
  change (order_by key (x :: l)) with (insert_by key x (order_by key l)).
  rewrite insert_by_filter by apply order_by_sorted. rewrite IH. cbn.
  now destruct (p x).
Qed.

Lemma sorted_split_at {A} (key : A -> Z) (bound : Z) l :
  Sorted (key_le key) l ->
  l = List.filter (fun x => key x <? bound) l ++
      List.filter (fun x => bound <=? key x) l.
Proof.
  intros Hs. apply Sorted_StronglySorted in Hs; [|intros u v w; unfold key_le; lia].
  induction l as [|x l IH]; [reflexivity|].
  inversion Hs as [|? ? Hs' Hall]; subst. cbn.
  destruct (key x <? bound) eqn:E.
  - apply Z.ltb_lt in E. assert (E' : (bound <=? key x) = false) by (apply Z.leb_gt; lia).
    rewrite E'. cbn. f_equal. now apply IH.
  - apply Z.ltb_ge in E. assert (E' : (bound <=? key x) = true) by (apply Z.leb_le; lia).
    rewrite E'.
    rewrite List.Forall_forall in Hall. unfold key_le in Hall.
    rewrite (filter_nil_by (fun y => key y <? bound) l).
    + cbn. f_equal. symmetry. apply filter_keep_all. apply List.Forall_forall.
      intros y Hy. specialize (Hall y Hy). apply Z.leb_le. lia.
    + intros y Hy. specialize (Hall y Hy). apply Z.ltb_ge. lia.
Qed.

Lemma filter_filter_and {A} (p q : A -> bool) l :
  List.filter p (List.filter q l) = List.filter (fun x => q x && p x) l.
Proof.
  induction l as [|x l IH]; cbn; [reflexivity|].
  destruct (q x); cbn; [destruct (p x); now rewrite IH|exact IH].
Qed.

(** X9. The replay of [get_liquidity_timeseries] starts from zero at the
    edge of the window. A query with a longer lookback returns the points
    of the older events followed by the points of the shorter lookback, each
    raised by the net amounts of the older events: the balance reported for
    an event depends on the lookback asked. *)
Theorem X9_longer_lookback_shifts_balances :
  forall (d : DB) (clock : Clock) (pool_address : string) (days_long days_short : Z),
    days_short <= days_long ->
    let since_short := since_ts clock (days_short * 86400) in
    let old := List.filter (fun r => LiquidityEvent.block_time r <? since_short)
                 (liquidity_rows d (lower pool_address)
                                 (since_ts clock (days_long * 86400))) in
    get_liquidity_timeseries d clock pool_address days_long =
    replay 0 0 old ++
    map (shift_point (sumZ (map signed0 old)) (sumZ (map signed1 old)))
        (get_liquidity_timeseries d clock pool_address days_short).
Proof.
  intros d clock pool dl ds Hle since_short old.
  rewrite !get_liquidity_timeseries_replay. fold since_short.
  set (since_long := since_ts clock (dl * 86400)) in *.
  assert (Hs : since_long <= since_short) by (unfold since_long, since_short, since_ts; lia).
  assert (Hrows : liquidity_rows d (lower pool) since_long =
                  old ++ liquidity_rows d (lower pool) since_short).
  { rewrite (sorted_split_at LiquidityEvent.block_time since_short
               (liquidity_rows d (lower pool) since_long))
      at 1 by apply order_by_sorted.
    fold old. f_equal. unfold liquidity_rows.
    rewrite order_by_filter, filter_filter_and. f_equal.
    apply filter_ext. intros r.
    destruct (String.eqb (LiquidityEvent.pool_address r) (lower pool)); cbn; [|reflexivity].
    destruct (since_short <=? LiquidityEvent.block_time r) eqn:E;
      [|now rewrite andb_false_r].
    apply Z.leb_le in E. rewrite andb_true_r. apply Z.leb_le. lia. }
  rewrite Hrows, replay_app. f_equal. apply (replay_shift _ 0 0).
Qed.

Lemma X9_longer_lookback_shifts_balances_witness :
  get_liquidity_timeseries scenario_db
    {| utcnow := 86400 + 150; local_offset := 0 |} scenario_pool 7 =
  [ {| time := 100; token0_balance := 1000; token1_balance := 2000 |} ] ++
  map (shift_point 1000 2000)
      (get_liquidity_timeseries scenario_db
         {| utcnow := 86400 + 150; local_offset := 0 |} scenario_pool 1).
Proof.
  rewrite (X9_longer_lookback_shifts_balances scenario_db
             {| utcnow := 86400 + 150; local_offset := 0 |} scenario_pool 7 1
             ltac:(lia)).
  vm_compute. reflexivity.
Defined.

(** ** Swap volume and the resolver *)

Lemma swap_volume_unfold w3 {float} (truediv : Z -> Z -> float) fsum d clock
      pool tok0 tok1 days s r rows :
  swap_rows d (lower pool) (since_ts clock (days * 86400)) = r :: rows ->
  get_swap_volume_timeseries w3 truediv fsum d clock pool tok0 tok1 days s =
  bind (get_token_decimals w3 tok0)
       (fun dec0 =>
          bind (get_token_decimals w3 tok1)
               (fun dec1 =>
                  ret (groupby_sum fsum
                         (map (volume_record truediv (10 ^ dec0) (10 ^ dec1))
                              (r :: rows))))) s.
Proof. intros E. unfold get_swap_volume_timeseries. now rewrite E. Qed.

(** X10. A token address that web3 rejects is not covered by the fallback:
    [get_token_decimals] raises and caches nothing, and with a swap in the
    window [get_swap_volume_timeseries] raises too; when the second address
    is the rejected one, the first token has been resolved and cached
    before the call fails. *)
Theorem X10_rejected_token_address_raises :
  forall (w3 : Web3) (float : Type) (truediv : Z -> Z -> float)
         (fsum : list float -> float) (d : DB) (clock : Clock)
         (pool_address token0_address token1_address : string) (lookback_days : Z)
         (s : Reader),
    swap_rows d (lower pool_address) (since_ts clock (lookback_days * 86400)) <> [] ->
    (to_checksum_address w3 token0_address = None ->
     get_token_decimals w3 token0_address s = (Raised, s) /\
     get_swap_volume_timeseries w3 truediv fsum d clock pool_address
       token0_address token1_address lookback_days s = (Raised, s)) /\
    (forall addr0,
        to_checksum_address w3 token0_address = Some addr0 ->
        to_checksum_address w3 token1_address = None ->
        exists s',
          get_swap_volume_timeseries w3 truediv fsum d clock pool_address
            token0_address token1_address lookback_days s = (Raised, s') /\
          is_Some (_decimals_cache s' !! addr0)).
Proof.
  intros w3 float truediv fsum d clock pool tok0 tok1 days s Hrows.
  destruct (swap_rows d (lower pool) (since_ts clock (days * 86400)))
    as [|r rows] eqn:E; [contradiction|].
  split.
  - intros H0. pose proof (get_token_decimals_invalid w3 tok0 s H0) as Hr.
    split; [exact Hr|].
    rewrite (swap_volume_unfold _ _ _ _ _ _ _ _ _ _ _ _ E). unfold bind. now rewrite Hr.
  - intros addr0 H0 H1.
    destruct (get_token_decimals_total w3 tok0 addr0 s H0) as (dec0 & s0 & Hd0).
    exists s0. split.
    + rewrite (swap_volume_unfold _ _ _ _ _ _ _ _ _ _ _ _ E). unfold bind.
      rewrite Hd0. now rewrite (get_token_decimals_invalid w3 tok1 s0 H1).
    + exists dec0. now apply (get_token_decimals_caches w3 tok0 addr0 s dec0 s0).
Qed.

(** X11. After one [get_swap_volume_timeseries] has returned, the same
    query on the same store returns the same rows without a single
    [decimals()] call: the reader's state does not change. *)
Theorem X11_repeated_volume_query_uses_cache :
  forall (w3 : Web3) (float : Type) (truediv : Z -> Z -> float)
         (fsum : list float -> float) (d : DB) (clock : Clock)
         (pool_address token0_address token1_address : string) (lookback_days : Z)
         (s s1 : Reader) (out : list (VolumeRow float)),
    get_swap_volume_timeseries w3 truediv fsum d clock pool_address
      token0_address token1_address lookback_days s = (Ok out, s1) ->
    get_swap_volume_timeseries w3 truediv fsum d clock pool_address
      token0_address token1_address lookback_days s1 = (Ok out, s1).
Proof.
  intros w3 float truediv fsum d clock pool tok0 tok1 days s s1 out H.
  destruct (swap_rows d (lower pool) (since_ts clock (days * 86400)))
    as [|r rows] eqn:E.
  - unfold get_swap_volume_timeseries in *. rewrite E in *. now injection H as <- <-.
  - rewrite (swap_volume_unfold w3 truediv fsum d clock pool tok0 tok1 days s r rows E)
      in H.
    rewrite (swap_volume_unfold w3 truediv fsum d clock pool tok0 tok1 days s1 r rows E).
    apply bind_inv in H as [(dec0 & s0 & Hd0 & H)|[_ [=]]].
    apply bind_inv in H as [(dec1 & s0' & Hd1 & H)|[_ [=]]].
    injection H as <- <-.
    destruct (to_checksum_address w3 tok0) as [addr0|] eqn:H0;
      [|rewrite get_token_decimals_invalid in Hd0 by exact H0; discriminate].
    destruct (to_checksum_address w3 tok1) as [addr1|] eqn:H1;
      [|rewrite get_token_decimals_invalid in Hd1 by exact H1; discriminate].
    pose proof (get_token_decimals_caches _ _ _ _ _ _ H0 Hd0) as C0.
    pose proof (get_token_decimals_caches _ _ _ _ _ _ H1 Hd1) as C1.
    assert (C0' : _decimals_cache s0' !! addr0 = Some dec0).
    { replace s0' with (snd (get_token_decimals w3 tok1 s0)) by now rewrite Hd1.
      now apply get_token_decimals_keeps. }
    rewrite (bind_Ok _ _ s0' dec0 s0')
      by now apply get_token_decimals_cached with addr0.
    rewrite (bind_Ok _ _ s0' dec1 s0')
      by now apply get_token_decimals_cached with addr1.
    reflexivity.
Qed.

Lemma X11_repeated_volume_query_uses_cache_witness :
  let q := get_swap_volume_timeseries steady_w3 exact_div exact_sum swaps_db
             scenario_clock scenario_pool usdc weth 7 in
  length (decimals_calls (snd (q fresh_reader))) = 2%nat /\
  q (snd (q fresh_reader)) = q fresh_reader.
Proof.
  cbv zeta. split; [vm_compute; reflexivity|].
  destruct (get_swap_volume_timeseries steady_w3 exact_div exact_sum swaps_db
              scenario_clock scenario_pool usdc weth 7 fresh_reader)
    as [[out|] s1] eqn:E; [|vm_compute in E; discriminate].
  cbn [snd]. apply (X11_repeated_volume_query_uses_cache _ _ _ _ _ _ _ _ _ _ _ _ _ E).
Defined.

(** X12. When the [decimals()] query of the first token fails and nothing
    is cached for it, a swap-volume query with swaps in the window returns
    normally and divides the first token's amounts by [10^18]. *)
Theorem X12_failed_decimals_query_divides_by_10_pow_18 :
  forall (w3 : Web3) (float : Type) (truediv : Z -> Z -> float)
         (fsum : list float -> float) (d : DB) (clock : Clock)
         (pool_address token0_address token1_address : string) (lookback_days : Z)
         (s : Reader) (addr0 addr1 : string),
    let rows := swap_rows d (lower pool_address)
                          (since_ts clock (lookback_days * 86400)) in
    rows <> [] ->
    to_checksum_address w3 token0_address = Some addr0 ->
    to_checksum_address w3 token1_address = Some addr1 ->
    _decimals_cache s !! addr0 = None ->
    erc20_decimals w3 (length (decimals_calls s)) addr0 = None ->
    exists dec1 s',
      get_swap_volume_timeseries w3 truediv fsum d clock pool_address
        token0_address token1_address lookback_days s =
      (Ok (groupby_sum fsum
             (map (volume_record truediv (10 ^ 18) (10 ^ dec1)) rows)), s') /\
      _decimals_cache s' !! addr0 = Some 18.
Proof.
  intros w3 float truediv fsum d clock pool tok0 tok1 days s addr0 addr1 rows
         Hrows H0 H1 Hc Hq.
  subst rows.
  destruct (swap_rows d (lower pool) (since_ts clock (days * 86400)))
    as [|r rows] eqn:E; [contradiction|].
  pose proof (get_token_decimals_first w3 tok0 addr0 s H0 Hc) as Hd0.
  rewrite Hq in Hd0. cbn [default] in Hd0.
  set (s0 := {| _decimals_cache := <[addr0:=18]> (_decimals_cache s);
                decimals_calls := addr0 :: decimals_calls s |}) in *.
  destruct (get_token_decimals_total w3 tok1 addr1 s0 H1) as (dec1 & s1 & Hd1).
  exists dec1, s1. split.
  - rewrite (swap_volume_unfold _ _ _ _ _ _ _ _ _ _ _ _ E).
    rewrite (bind_Ok _ _ s 18 s0) by exact Hd0.
    rewrite (bind_Ok _ _ s0 dec1 s1) by exact Hd1. reflexivity.
  - replace s1 with (snd (get_token_decimals w3 tok1 s0)) by now rewrite Hd1.
    apply get_token_decimals_keeps. subst s0. cbn. apply lookup_insert_eq.
Qed.

Lemma X10_rejected_token_address_raises_witness :
  get_swap_volume_timeseries unreachable_w3 exact_div exact_sum swaps_db
    scenario_clock scenario_pool usdc weth 7 fresh_reader = (Raised, fresh_reader).
Proof.
  apply (X10_rejected_token_address_raises unreachable_w3 Q exact_div exact_sum
           swaps_db scenario_clock scenario_pool usdc weth 7 fresh_reader).
  - vm_compute. discriminate.
  - reflexivity.
Defined.

Lemma X12_failed_decimals_query_divides_by_10_pow_18_witness :
  exists dec1 s',
    get_swap_volume_timeseries flaky_w3 exact_div exact_sum swaps_db scenario_clock
      scenario_pool usdc weth 7 fresh_reader =
    (Ok (groupby_sum exact_sum
           (map (volume_record exact_div (10 ^ 18) (10 ^ dec1))
                (swap_rows swaps_db (lower scenario_pool)
                           (since_ts scenario_clock (7 * 86400))))), s') /\
    _decimals_cache s' !! usdc = Some 18.
Proof.
  apply (X12_failed_decimals_query_divides_by_10_pow_18 flaky_w3 Q exact_div exact_sum
           swaps_db scenario_clock scenario_pool usdc weth 7 fresh_reader usdc weth).
  - vm_compute. discriminate.
  - reflexivity.
  - reflexivity.
  - reflexivity.
  - reflexivity.
Defined.

(** * The dashboard's helpers *)

(** ** Address validation *)

Lemma is_hex_digit_lower c :
  is_hex_digit c = true -> is_hex_digit (lower_ascii c) = true.
Proof.
  destruct c as [[] [] [] [] [] [] [] []]; vm_compute; intros H;
    first [reflexivity | discriminate H].
Qed.

Lemma newline_lower c :
  Ascii.eqb (lower_ascii c) "010"%char = Ascii.eqb c "010"%char.
Proof. destruct c as [[] [] [] [] [] [] [] []]; vm_compute; reflexivity. Qed.

Lemma match_hex_length n : forall s tail,
  match_hex n s = Some tail -> String.length s = (n + String.length tail)%nat.
Proof.
  induction n as [|n IH]; intros s tail H; cbn in H.
  - now injection H as <-.
  - destruct s as [|c s]; [discriminate|].
    destruct (is_hex_digit c); [|discriminate]. cbn. now rewrite (IH _ _ H).
Qed.

Lemma match_hex_lower n : forall s tail,
  match_hex n s = Some tail -> match_hex n (lower s) = Some (lower tail).
Proof.
  induction n as [|n IH]; intros s tail H; cbn in H.
  - now injection H as <-.
  - destruct s as [|c s]; [discriminate|].
    destruct (is_hex_digit c) eqn:Hc; [|discriminate].
    cbn. rewrite (is_hex_digit_lower c Hc). now apply IH.
Qed.

Lemma at_end_lower tail : at_end (lower tail) = at_end tail.
Proof.
  destruct tail as [|c [|c' tail]]; cbn; [reflexivity|apply newline_lower|reflexivity].
Qed.

Lemma at_end_length tail : at_end tail = true -> (String.length tail <= 1)%nat.
Proof. destruct tail as [|c [|c' tail]]; cbn; intros H; [lia|lia|discriminate]. Qed.

Lemma is_valid_address_inv addr :
  is_valid_address addr = true ->
  exists rest tail,
    addr = String "0"%char (String "x"%char rest) /\
    match_hex 40 rest = Some tail /\ at_end tail = true.
Proof.
  unfold is_valid_address. intros H.
  destruct addr as [|c0 [|c1 rest]]; try discriminate.
  - destruct c0 as [[] [] [] [] [] [] [] []]; discriminate.
  - destruct (Ascii.eqb_spec c0 "0"%char) as [->|Hne0].
    + destruct (Ascii.eqb_spec c1 "x"%char) as [->|Hne1].
      * destruct (match_hex 40 rest) as [tail|] eqn:E; [|discriminate].
        now exists rest, tail.
      * exfalso. destruct c1 as [[] [] [] [] [] [] [] []];
          first [discriminate H | now apply Hne1].
    + exfalso. destruct c0 as [[] [] [] [] [] [] [] []];
        first [discriminate H | now apply Hne0].
Qed.

Lemma is_valid_address_lower addr :
  is_valid_address addr = true -> is_valid_address (lower addr) = true.
Proof.
  intros H. apply is_valid_address_inv in H as (rest & tail & -> & Hm & He).
  change (lower (String "0"%char (String "x"%char rest)))
    with (String "0"%char (String "x"%char (lower rest))).
  unfold is_valid_address. rewrite (match_hex_lower _ _ _ Hm). now rewrite at_end_lower.
Qed.

Lemma match_hex_exact n : forall s t,
  String.length s = n ->
  match_hex n (String.append s t) =
  match match_hex n s with Some _ => Some t | None => None end /\
  (forall tail, match_hex n s = Some tail -> tail = EmptyString).
Proof.
  induction n as [|n IH]; intros s t Hlen.
  - destruct s; [|discriminate]. cbn. split; [reflexivity|]. now intros tail [= <-].
  - destruct s as [|c s]; [discriminate|]. cbn in Hlen.
    change (String.append (String c s) t) with (String c (String.append s t)).
    cbn [match_hex].
    destruct (is_hex_digit c); [|split; [reflexivity|discriminate]].
    apply IH. lia.
Qed.

Lemma match_hex_split n : forall s tail,
  match_hex n s = Some tail ->
  exists body,
    s = String.append body tail /\ match_hex n body = Some EmptyString.
Proof.
  induction n as [|n IH]; intros s tail H; cbn in H.
  - injection H as <-. now exists EmptyString.
  - destruct s as [|c s]; [discriminate|].
    destruct (is_hex_digit c) eqn:Hc; [|discriminate].
    destruct (IH _ _ H) as (body & -> & Hb).
    exists (String c body). split; [reflexivity|]. cbn. now rewrite Hc.
Qed.

(** X13. An address that [is_valid_address] accepts starts with "0x" and
    has 42 characters, or 43: the pattern's [$] also matches before a final
    newline, so a valid address followed by one newline is accepted as well,
    and an accepted string of 43 characters is an accepted address of 42
    followed by a newline. Lower-casing an accepted address gives an
    accepted address. *)
Theorem X13_is_valid_address_shape :
  (forall addr,
      is_valid_address addr = true ->
      String.prefix "0x" addr = true /\
      (String.length addr = 42 \/ String.length addr = 43)%nat /\
      is_valid_address (lower addr) = true /\
      (String.length addr = 43%nat ->
       exists body,
         addr = String.append body (String "010"%char EmptyString) /\
         is_valid_address body = true)) /\
  (forall addr,
      String.length addr = 42%nat ->
      is_valid_address (String.append addr (String "010"%char EmptyString)) =
      is_valid_address addr).
Proof.
  split.
  - intros addr H. split; [|split; [|split; [now apply is_valid_address_lower|]]].
    + apply is_valid_address_inv in H as (rest & tail & -> & _).
      now destruct rest.
    + apply is_valid_address_inv in H as (rest & tail & -> & Hm & He).
      apply match_hex_length in Hm. apply at_end_length in He. cbn. lia.
    + intros Hlen.
      apply is_valid_address_inv in H as (rest & tail & -> & Hm & He).
      pose proof (match_hex_length _ _ _ Hm) as Hl. cbn in Hlen.
      destruct tail as [|c [|c' tail]]; cbn in Hl, He; [lia| |discriminate].
      apply Ascii.eqb_eq in He. subst c.
      destruct (match_hex_split _ _ _ Hm) as (body & -> & Hb).
      exists (String "0"%char (String "x"%char body)). split; [reflexivity|].
      unfold is_valid_address. now rewrite Hb.
  - intros addr Hlen. destruct addr as [|c0 [|c1 rest]]; try discriminate.
    cbn in Hlen. unfold is_valid_address.
    change (String.append (String c0 (String c1 rest)) (String "010"%char EmptyString))
      with (String c0 (String c1 (String.append rest (String "010"%char EmptyString)))).
    destruct (match_hex_exact 40 rest (String "010"%char EmptyString) ltac:(lia))
      as [Happ Hexact].
    destruct c0 as [[] [] [] [] [] [] [] []]; try reflexivity.
    destruct c1 as [[] [] [] [] [] [] [] []]; try reflexivity.
    rewrite Happ. destruct (match_hex 40 rest) as [tail|] eqn:E; [|reflexivity].
    now rewrite (Hexact tail eq_refl).
Qed.

Lemma X13_is_valid_address_shape_witness :
  is_valid_address scenario_pool = true /\
  is_valid_address (lower scenario_pool) = true /\
  is_valid_address (String.append scenario_pool (String "010"%char EmptyString)) = true.
Proof.
  assert (H : is_valid_address scenario_pool = true) by reflexivity.
  split; [exact H|]. split.
  - apply (proj1 X13_is_valid_address_shape scenario_pool H).
  - rewrite (proj2 X13_is_valid_address_shape scenario_pool eq_refl). exact H.
Defined.

(** ** The list of pool addresses *)

Lemma existsb_eqb_In x keys : existsb (String.eqb x) keys = true <-> In x keys.
Proof.
  rewrite existsb_exists. split.
  - intros (y & Hy & E). apply String.eqb_eq in E. now subst.
  - intros H. exists x. split; [exact H|apply String.eqb_refl].
Qed.

Lemma NoDup_snoc {A} (l : list A) y :
  List.NoDup l -> ~ In y l -> List.NoDup (l ++ [y]).
Proof.
  induction 1 as [|x l Hx Hnd IH]; intros Hy; cbn.
  - constructor; [intros []|constructor].
  - constructor.
    + intros Hin. apply in_app_or in Hin as [Hin|[<-|[]]]; [contradiction|].
      apply Hy. now left.
    + apply IH. intros Hin. apply Hy. now right.
Qed.

Lemma fromkeys_fold l : forall keys,
  List.NoDup keys ->
  let r := fold_left (fun keys x => if existsb (String.eqb x) keys
                                    then keys else keys ++ [x]) l keys in
  List.NoDup r /\ (forall x, In x r <-> In x keys \/ In x l).
Proof.
  induction l as [|y l IH]; intros keys Hnd; cbn.
  - split; [exact Hnd|]. intros x. tauto.
  - destruct (existsb (String.eqb y) keys) eqn:E.
    + destruct (IH keys Hnd) as [H1 H2]. split; [exact H1|].
      intros x. rewrite H2. apply existsb_eqb_In in E.
      split; [tauto|]. intros [H|[<-|H]]; tauto.
    + assert (Hy : ~ In y keys).
      { intros H. apply existsb_eqb_In in H. congruence. }
      destruct (IH (keys ++ [y])) as [H1 H2].
      { now apply NoDup_snoc. }
      split; [exact H1|]. intros x. rewrite H2, in_app_iff. cbn. tauto.
Qed.

Lemma filter_filter_implied {A} (p q : A -> bool) l :
  (forall x, q x = true -> p x = true) ->
  List.filter q (List.filter p l) = List.filter q l.
Proof.
  intros Himp. induction l as [|x l IH]; cbn; [reflexivity|].
  destruct (p x) eqn:Px; cbn.
  - now rewrite IH.
  - destruct (q x) eqn:Qx; [|exact IH]. rewrite (Himp x Qx) in Px. discriminate.
Qed.

(** X14. The address list the dashboard works on holds exactly the lines
    that [is_valid_address] accepts, each once (the non-empty and "0x"
    tests before it reject nothing more). Repetition is judged on the
    spelling: an accepted address and its lower-cased form, when they
    differ, are both kept. *)
Theorem X14_pool_addresses_valid_and_distinct :
  forall raw_addresses : list string,
    List.NoDup (pool_addresses raw_addresses) /\
    (forall addr, In addr (pool_addresses raw_addresses) <->
                  In addr raw_addresses /\ is_valid_address addr = true) /\
    pool_addresses raw_addresses =
      dict_fromkeys (List.filter is_valid_address raw_addresses) /\
    (forall addr,
        is_valid_address addr = true -> lower addr <> addr ->
        pool_addresses [addr; lower addr] = [addr; lower addr]).
Proof.
  intros raw.
  assert (Hpre : pool_addresses raw = dict_fromkeys (List.filter is_valid_address raw)).
  { unfold pool_addresses. f_equal. apply filter_filter_implied.
    intros x Hx. apply is_valid_address_inv in Hx as (rest & tail & -> & _).
    now destruct rest. }
  destruct (fromkeys_fold (List.filter is_valid_address raw) [] (List.NoDup_nil _))
    as [Hnd Hin].
  split; [now rewrite Hpre|]. split; [|split; [exact Hpre|]].
  - intros addr. rewrite Hpre. unfold dict_fromkeys. rewrite Hin, filter_In. cbn. tauto.
  - intros addr Hv Hne. pose proof (is_valid_address_lower addr Hv) as Hl.
    unfold pool_addresses.
    rewrite filter_filter_implied.
    + cbn [List.filter]. rewrite Hv, Hl. unfold dict_fromkeys. cbn.
      destruct (String.eqb_spec (lower addr) addr) as [E|_]; [contradiction|reflexivity].
    + intros x Hx. apply is_valid_address_inv in Hx as (rest & tail & -> & _).
      now destruct rest.
Qed.

Lemma X14_pool_addresses_valid_and_distinct_witness :
  pool_addresses [scenario_pool; lower scenario_pool] =
    [scenario_pool; lower scenario_pool].
Proof.
  apply (proj2 (proj2 (proj2 (X14_pool_addresses_valid_and_distinct []))) scenario_pool).
  - reflexivity.
  - vm_compute. discriminate.
Defined.

(** ** Reordering the price charts *)

Lemma swap_adjacent_spec l : forall k l',
  swap_items (S k) k l = Some l' ->
  Permutation l l' /\ length l' = length l /\ swap_items k (S k) l' = Some l.
Proof.
  induction l as [|a l IH]; intros k l' H; [discriminate|].
  destruct k as [|k].
  - destruct l as [|b l]; [discriminate|]. cbn in H. injection H as <-.
    split; [apply perm_swap|]. split; reflexivity.
  - unfold swap_items in H |- *.
    change ((a :: l) !! S (S k)) with (l !! S k) in H.
    change ((a :: l) !! S k) with (l !! k) in H.
    destruct (l !! k) as [xj|] eqn:Ej; [|discriminate].
    destruct (l !! S k) as [xi|] eqn:Ei; [|discriminate].
    injection H as <-.
    destruct (IH k (<[k := xi]> (<[S k := xj]> l))) as (Hp & Hlen & Hback).
    { unfold swap_items. now rewrite Ej, Ei. }
    change (<[S k := xi]> (<[S (S k) := xj]> (a :: l)))
      with (a :: <[k := xi]> (<[S k := xj]> l)).
    split; [now constructor|]. split; [cbn; now rewrite Hlen|].
    change ((a :: ?t) !! S (S k)) with (t !! S k).
    unfold swap_items in Hback.
    change ((a :: <[k:=xi]> (<[S k:=xj]> l)) !! S (S k))
      with ((<[k:=xi]> (<[S k:=xj]> l)) !! S k).
    change ((a :: <[k:=xi]> (<[S k:=xj]> l)) !! S k)
      with ((<[k:=xi]> (<[S k:=xj]> l)) !! k).
    destruct ((<[k:=xi]> (<[S k:=xj]> l)) !! S k) as [y1|]; [|discriminate].
    destruct ((<[k:=xi]> (<[S k:=xj]> l)) !! k) as [y2|]; [|discriminate].
    injection Hback as Hback.
    change (<[S (S k) := y2]> (<[S k := y1]> (a :: <[k:=xi]> (<[S k:=xj]> l))))
      with (a :: <[S k := y2]> (<[k := y1]> (<[k:=xi]> (<[S k:=xj]> l)))).
    now rewrite Hback.
Qed.

(** X15. Moving a chart up swaps it with the one before it: the order
    stays a permutation of the same charts, and moving the chart that took
    its place down again restores the order. The first chart stays where it
    is. *)
Theorem X15_move_up_is_undone_by_move_down :
  forall (i : nat) (chart_order : list string),
    (i < length chart_order)%nat ->
    exists order',
      move_up i chart_order = Some order' /\
      Permutation chart_order order' /\
      length order' = length chart_order /\
      (i = 0%nat -> order' = chart_order) /\
      ((0 < i)%nat -> move_down (i - 1) order' = Some chart_order).
Proof.
  intros i l Hi. unfold move_up. destruct i as [|k].
  - exists l. cbn. split; [reflexivity|]. split; [reflexivity|].
    split; [reflexivity|]. split; [reflexivity|]. intros H. lia.
  - cbn [Nat.ltb Nat.leb]. replace (S k - 1)%nat with k by lia.
    destruct (swap_items (S k) k l) as [l'|] eqn:E.
    + destruct (swap_adjacent_spec l k l' E) as (Hp & Hlen & Hback).
      exists l'. split; [reflexivity|]. split; [exact Hp|]. split; [exact Hlen|].
      split; [discriminate|]. intros _. unfold move_down. rewrite Hlen.
      assert (Hc : (Z.of_nat k <? Z.of_nat (length l) - 1) = true)
        by (apply Z.ltb_lt; lia).
      rewrite Hc. now replace (k + 1)%nat with (S k) by lia.
    + exfalso. unfold swap_items in E.
      destruct (lookup_lt_is_Some_2 l k ltac:(lia)) as [xj Ej].
      destruct (lookup_lt_is_Some_2 l (S k) Hi) as [xi Ei].
      now rewrite Ej, Ei in E.
Qed.

Lemma X15_move_up_is_undone_by_move_down_witness :
  exists order',
    move_up 2 [usdc; weth; scenario_pool] = Some order' /\
    move_down 1 order' = Some [usdc; weth; scenario_pool].
Proof.
  destruct (X15_move_up_is_undone_by_move_down 2 [usdc; weth; scenario_pool])
    as (order' & Hup & _ & _ & _ & Hdown); [cbn; lia|].
  exists order'. split; [exact Hup|]. apply Hdown. lia.
Defined.

(** ** Snapshots from DexScreener *)

Lemma range_step1_length stop : length (range 0 stop 1) = Z.to_nat stop.
Proof.
  unfold range. rewrite length_map, length_seq. f_equal.
  rewrite Z.div_1_r. lia.
Qed.

Lemma fetch_pair_attempts_cons {P} (http : nat -> string -> HttpReply P) url mr a rest s :
  fetch_pair_attempts http url mr (a :: rest) s =
  match http (length (requests s)) url with
  | RequestException =>
      if a =? mr then (Ok None, {| requests := url :: requests s; slept := slept s |})
      else fetch_pair_attempts http url mr rest
             {| requests := url :: requests s; slept := slept s + 1 |}
  | Response status_code pairs =>
      if negb (status_code =? 200) then
        if a =? mr then (Ok None, {| requests := url :: requests s; slept := slept s |})
        else fetch_pair_attempts http url mr rest
               {| requests := url :: requests s; slept := slept s + 1 |}
      else
        match pairs with
        | Some pairs => (Ok (head pairs), {| requests := url :: requests s; slept := slept s |})
        | None => (Raised, {| requests := url :: requests s; slept := slept s |})
        end
  end.
Proof.
  cbn [fetch_pair_attempts]. unfold bind at 1. unfold requests_get.
  destruct (http (length (requests s)) url) as [|status pairs].
  - now destruct (a =? mr).
  - destruct (negb (status =? 200)); [now destruct (a =? mr)|].
    now destruct pairs.
Qed.

Lemma fetch_pair_attempts_bound {P} (http : nat -> string -> HttpReply P) url mr :
  forall attempts s,
    let r := fetch_pair_attempts http url mr attempts s in
    (length (requests s) <= length (requests (snd r))
                         <= length (requests s) + length attempts)%nat /\
    (fst r = Raised -> exists n, http n url = Response 200 None).
Proof.
  induction attempts as [|a rest IH]; intros s; cbn zeta.
  - cbn. split; [lia|discriminate].
  - rewrite fetch_pair_attempts_cons.
    pose proof (IH {| requests := url :: requests s; slept := slept s + 1 |})
      as [Hb Hr]. cbn [requests length] in Hb.
    destruct (http (length (requests s)) url) as [|status pairs] eqn:E.
    + destruct (a =? mr); [cbn; split; [lia|discriminate]|].
      split; [cbn [length]; lia|exact Hr].
    + destruct (status =? 200) eqn:Est; cbn [negb].
      * destruct pairs as [pairs|]; cbn.
        -- split; [lia|discriminate].
        -- split; [lia|]. intros _. exists (length (requests s)).
           apply Z.eqb_eq in Est. now subst status.
      * destruct (a =? mr); [cbn; split; [lia|discriminate]|].
        split; [cbn [length]; lia|exact Hr].
Qed.

Lemma fetch_pair_attempts_after_failures {P} (http : nat -> string -> HttpReply P)
      url mr pairs :
  forall (k : nat) a s,
    0 <= a -> a + Z.of_nat k <= mr ->
    (forall i, (i < k)%nat ->
               failed_reply (http (length (requests s) + i)%nat url) = true) ->
    http (length (requests s) + k)%nat url = Response 200 (Some pairs) ->
    let r := fetch_pair_attempts http url mr (range a (mr + 1) 1) s in
    fst r = Ok (head pairs) /\
    length (requests (snd r)) = (length (requests s) + k + 1)%nat /\
    slept (snd r) = slept s + Z.of_nat k.
Proof.
  induction k as [|k IH]; intros a s Ha Hk Hfail Hok; cbn zeta;
    rewrite range_unfold by lia; rewrite fetch_pair_attempts_cons.
  - rewrite Nat.add_0_r in Hok. rewrite Hok. cbn. repeat split; lia.
  - pose proof (Hfail 0%nat ltac:(lia)) as H0. rewrite Nat.add_0_r in H0.
    assert (Ea : (a =? mr) = false) by (apply Z.eqb_neq; lia).
    destruct (IH (a + 1) {| requests := url :: requests s; slept := slept s + 1 |})
      as (R1 & R2 & R3); [lia|lia| | |].
    { intros i Hi. cbn [requests length].
      replace (S (length (requests s)) + i)%nat
        with (length (requests s) + S i)%nat by lia.
      apply Hfail. lia. }
    { cbn [requests length].
      now replace (S (length (requests s)) + k)%nat
        with (length (requests s) + S k)%nat by lia. }
    cbn [requests slept length] in R2, R3.
    destruct (http (length (requests s)) url) as [|status ps]; cbn in H0.
    + rewrite Ea. split; [exact R1|]. split; lia.
    + rewrite H0, Ea. split; [exact R1|]. split; lia.
Qed.

Lemma fetch_pair_attempts_all_fail {P} (http : nat -> string -> HttpReply P) url mr :
  (forall i, failed_reply (http i url) = true) ->
  forall (n : nat) a s,
    0 <= a <= mr -> n = Z.to_nat (mr + 1 - a) ->
    let r := fetch_pair_attempts http url mr (range a (mr + 1) 1) s in
    fst r = Ok None /\
    length (requests (snd r)) = (length (requests s) + n)%nat /\
    slept (snd r) = slept s + Z.of_nat n - 1.
Proof.
  intros Hfail. induction n as [|n IH]; intros a s Ha Hn; [lia|].
  cbn zeta. rewrite range_unfold by lia. rewrite fetch_pair_attempts_cons.
  pose proof (Hfail (length (requests s))) as H0.
  assert (Hcase : let r := if a =? mr
                           then (Ok None, {| requests := url :: requests s;
                                             slept := slept s |})
                           else fetch_pair_attempts http url mr
                                  (range (a + 1) (mr + 1) 1)
                                  {| requests := url :: requests s;
                                     slept := slept s + 1 |} in
                  fst r = Ok None /\
                  length (requests (snd r)) = (length (requests s) + S n)%nat /\
                  slept (snd r) = slept s + Z.of_nat (S n) - 1).
  { destruct (Z.eqb_spec a mr) as [->|Hne].
    - cbn. repeat split; lia.
    - destruct (IH (a + 1) {| requests := url :: requests s; slept := slept s + 1 |})
        as (R1 & R2 & R3); [lia|lia|].
      cbn [requests slept length] in R2, R3. cbn zeta.
      split; [exact R1|]. split; lia. }
  destruct (http (length (requests s)) url) as [|status ps]; cbn in H0.
  - exact Hcase.
  - rewrite H0. exact Hcase.
Qed.

(** X16. [fetch_pair] (below its cache) sends at most [max_retries + 1]
    requests. It returns the first pair of the first 200 response, after
    one second of sleep per failed attempt before it; when every attempt
    fails it returns [None] after [max_retries + 1] requests and
    [max_retries] seconds of sleep; it raises only when a 200 response has
    a body that cannot be read. *)
Theorem X16_fetch_pair_retries :
  forall (P : Type) (http : nat -> string -> HttpReply P)
         (chain pool_address : string) (max_retries : Z) (s : Net),
    0 <= max_retries ->
    let url := String.append DEXSCREENER_PAIR_URL
                 (String.append "/" (String.append chain
                    (String.append "/" pool_address))) in
    let r := fetch_pair http chain pool_address max_retries s in
    (length (requests (snd r)) <= length (requests s) + Z.to_nat (max_retries + 1))%nat /\
    (fst r = Raised -> exists n, http n url = Response 200 None) /\
    (forall (k : nat) pairs,
        Z.of_nat k <= max_retries ->
        (forall i, (i < k)%nat ->
                   failed_reply (http (length (requests s) + i)%nat url) = true) ->
        http (length (requests s) + k)%nat url = Response 200 (Some pairs) ->
        fst r = Ok (head pairs) /\
        length (requests (snd r)) = (length (requests s) + k + 1)%nat /\
        slept (snd r) = slept s + Z.of_nat k) /\
    ((forall i, failed_reply (http i url) = true) ->
     fst r = Ok None /\
     length (requests (snd r)) = (length (requests s) + Z.to_nat (max_retries + 1))%nat /\
     slept (snd r) = slept s + max_retries).
Proof.
  intros P http chain pool mr s Hmr url r. subst r. unfold fetch_pair. fold url.
  destruct (fetch_pair_attempts_bound http url mr (range 0 (mr + 1) 1) s) as [Hb Hr].
  rewrite range_step1_length in Hb.
  split; [lia|]. split; [exact Hr|]. split.
  - intros k pairs Hk Hfail Hok.
    apply (fetch_pair_attempts_after_failures http url mr pairs k 0 s); auto; lia.
  - intros Hfail.
    destruct (fetch_pair_attempts_all_fail http url mr Hfail
                (Z.to_nat (mr + 1)) 0 s) as (R1 & R2 & R3); [lia|f_equal; lia|].
    split; [exact R1|]. split; [exact R2|]. lia.
Qed.

Lemma X16_fetch_pair_retries_witness :
  let r := fetch_pair recovering_http "base" (lower scenario_pool) 2
             {| requests := []; slept := 0 |} in
  fst r = Ok (Some "WETH/USDC") /\ length (requests (snd r)) = 3%nat /\ slept (snd r) = 2.
Proof.
  cbn zeta.
  pose proof (X16_fetch_pair_retries string recovering_http "base"
                (lower scenario_pool) 2 {| requests := []; slept := 0 |}
                ltac:(lia)) as (_ & _ & Hok & _).
  apply (Hok 2%nat ["WETH/USDC"]).
  - lia.
  - intros i Hi. destruct i as [|[|i]]; [reflexivity|reflexivity|lia].
  - reflexivity.
Defined.

Lemma fetch_token_attempts_cons {P} (http : nat -> string -> HttpReply P) url mr a rest s :
  fetch_token_attempts http url mr (a :: rest) s =
  match http (length (requests s)) url with
  | Response status_code pairs =>
      if status_code =? 200 then
        match pairs with
        | Some pairs => (Ok (head pairs), {| requests := url :: requests s; slept := slept s |})
        | None =>
            if a <? mr
            then fetch_token_attempts http url mr rest
                   {| requests := url :: requests s; slept := slept s + 1 |}
            else (Ok None, {| requests := url :: requests s; slept := slept s |})
        end
      else fetch_token_attempts http url mr rest
             {| requests := url :: requests s; slept := slept s |}
  | RequestException =>
      if a <? mr
      then fetch_token_attempts http url mr rest
             {| requests := url :: requests s; slept := slept s + 1 |}
      else (Ok None, {| requests := url :: requests s; slept := slept s |})
  end.
Proof.
  cbn [fetch_token_attempts]. unfold bind at 1. unfold requests_get.
  destruct (http (length (requests s)) url) as [|status pairs].
  - now destruct (a <? mr).
  - destruct (status =? 200); [|reflexivity].
    destruct pairs; [reflexivity|]. now destruct (a <? mr).
Qed.

Lemma fetch_token_attempts_bound {P} (http : nat -> string -> HttpReply P) url mr :
  forall (n : nat) a s,
    0 <= a -> n = Z.to_nat (mr + 1 - a) ->
    let r := fetch_token_attempts http url mr (range a (mr + 1) 1) s in
    fst r <> Raised /\
    (length (requests s) <= length (requests (snd r)) <= length (requests s) + n)%nat /\
    slept s <= slept (snd r) <= slept s + Z.max 0 (mr - a).
Proof.
  induction n as [|n IH]; intros a s Ha Hn; cbn zeta.
  - rewrite range_nil by lia. cbn. split; [discriminate|]. split; lia.
  - rewrite range_unfold by lia. rewrite fetch_token_attempts_cons.
    destruct (IH (a + 1) {| requests := url :: requests s; slept := slept s |})
      as (A1 & A2 & A3); [lia|lia|].
    destruct (IH (a + 1) {| requests := url :: requests s; slept := slept s + 1 |})
      as (B1 & B2 & B3); [lia|lia|].
    cbn [requests slept length] in A2, A3, B2, B3.
    assert (Hstop : let r := (@Ok (option P) None,
                              {| requests := url :: requests s; slept := slept s |}) in
                    fst r <> Raised /\
                    (length (requests s) <= length (requests (snd r))
                                         <= length (requests s) + S n)%nat /\
                    slept s <= slept (snd r) <= slept s + Z.max 0 (mr - a)).
    { cbn. split; [discriminate|]. split; lia. }
    assert (Hsleep : (a <? mr) = true ->
                     let r := fetch_token_attempts http url mr (range (a + 1) (mr + 1) 1)
                                {| requests := url :: requests s; slept := slept s + 1 |} in
                     fst r <> Raised /\
                     (length (requests s) <= length (requests (snd r))
                                          <= length (requests s) + S n)%nat /\
                     slept s <= slept (snd r) <= slept s + Z.max 0 (mr - a)).
    { intros Hlt. apply Z.ltb_lt in Hlt. cbn zeta. split; [exact B1|]. split; lia. }
    destruct (http (length (requests s)) url) as [|status pairs].
    + destruct (a <? mr); [now apply Hsleep|exact Hstop].
    + destruct (status =? 200).
      * destruct pairs as [pairs|].
        -- cbn. split; [discriminate|]. split; lia.
        -- destruct (a <? mr); [now apply Hsleep|exact Hstop].
      * split; [exact A1|]. split; lia.
Qed.

Lemma fetch_token_attempts_refused {P} (http : nat -> string -> HttpReply P) url mr :
  (forall i, exists status_code body,
      http i url = Response status_code body /\ status_code <> 200) ->
  forall (n : nat) a s,
    0 <= a -> n = Z.to_nat (mr + 1 - a) ->
    let r := fetch_token_attempts http url mr (range a (mr + 1) 1) s in
    fst r = Ok None /\
    length (requests (snd r)) = (length (requests s) + n)%nat /\
    slept (snd r) = slept s.
Proof.
  intros Href. induction n as [|n IH]; intros a s Ha Hn; cbn zeta.
  - rewrite range_nil by lia. cbn. repeat split; lia.
  - rewrite range_unfold by lia. rewrite fetch_token_attempts_cons.
    destruct (Href (length (requests s))) as (status & body & -> & Hst).
    apply Z.eqb_neq in Hst. rewrite Hst.
    destruct (IH (a + 1) {| requests := url :: requests s; slept := slept s |})
      as (A1 & A2 & A3); [lia|lia|].
    cbn [requests slept length] in A2, A3.
    split; [exact A1|]. split; [lia|exact A3].
Qed.

(** X17. [fetch_token_price_history] (below its cache) never raises: a
    failed request and an unreadable body are both caught. It sends at
    most [max_retries + 1] requests and sleeps at most [max_retries]
    seconds. A response whose status is not 200 is retried at once: when
    every response is one, the result is [None] after [max_retries + 1]
    requests and no sleep at all. *)
Theorem X17_fetch_token_price_history_never_raises :
  forall (P : Type) (http : nat -> string -> HttpReply P)
         (token_address : string) (max_retries : Z) (s : Net),
    let url := String.append DEXSCREENER_TOKEN_URL (String.append "/" token_address) in
    let r := fetch_token_price_history http token_address max_retries s in
    fst r <> Raised /\
    (length (requests s) <= length (requests (snd r))
                         <= length (requests s) + Z.to_nat (max_retries + 1))%nat /\
    slept s <= slept (snd r) <= slept s + Z.max 0 max_retries /\
    ((forall i, exists status_code body,
         http i url = Response status_code body /\ status_code <> 200) ->
     fst r = Ok None /\
     length (requests (snd r)) = (length (requests s) + Z.to_nat (max_retries + 1))%nat /\
     slept (snd r) = slept s).
Proof.
  intros P http token mr s url r. subst r. unfold fetch_token_price_history. fold url.
  destruct (fetch_token_attempts_bound http url mr (Z.to_nat (mr + 1)) 0 s)
    as (R1 & R2 & R3); [lia|f_equal; lia|].
  rewrite Z.sub_0_r in R3.
  split; [exact R1|]. split; [exact R2|]. split; [exact R3|].
  intros Href.
  apply (fetch_token_attempts_refused http url mr Href (Z.to_nat (mr + 1)) 0 s);
    [lia|f_equal; lia].
Qed.

Lemma X17_fetch_token_price_history_never_raises_witness :
  let r := fetch_token_price_history
             (fun _ _ => Response 429 (@None (list string))) usdc 2
             {| requests := []; slept := 0 |} in
  fst r = Ok None /\ length (requests (snd r)) = 3%nat /\ slept (snd r) = 0.
Proof.
  cbn zeta.
  pose proof (X17_fetch_token_price_history_never_raises string
                (fun _ _ => Response 429 (@None (list string))) usdc 2
                {| requests := []; slept := 0 |}) as (_ & _ & _ & H).
  apply H. intros i. exists 429, None. split; [reflexivity|lia].
Defined.
